(* ===== verification/_CoqProject ===== *)
-Q . S2P
Prelude.v
Canvas.v
Differ.v
Segmenter.v
Sequencer.v
Scheduler.v
App.v
Invariants.v
ChunkingV1.v
PlaybackSpec.v
AppV1.v
