(* ===== verification/Prelude.v ===== *)
(** * A verified model of the handwriting reveal animator (loadingdemo)

    The repository is a browser page (src/script.js, with an earlier
    variant in src/script_v1.js) whose single class [AnswerAnimator]
    reveals an "answer" image over a "blank" image by animating only the
    pixels that differ, one connected glyph at a time.  Its parts, in the
    order the data flows through them, and the files that model them
    (every file holds one [Module] named after it; Canvas.v exports its
    module, so its data is in scope wherever the file is required):

    - [Canvas.v], the canvas and pixel data: difference records
      ([Pixel]), RGBA buffers ([ImageData], bytes as [Z], four a pixel,
      row-major), a 1x1 [putImageData] ([putImageData1]) and
      [clearRect] + [drawImage(img, 0, 0)] ([clearAndDraw]).
    - [Differ.v], [calculateDifferences] (script.js 163-191): the strided
      loop over both buffers as [scan], keeping each pixel whose summed
      RGB distance exceeds [threshold] = 30, with the answer's colour.
    - [Segmenter.v], [findConnectedComponents] (245-338): the pixel map
      as a stdpp [gmap] ([buildPixelMap]), the explicit-stack traversal
      as [dfs_body] (one [while] iteration) and [dfs_loop], the shared
      [visited] set as a [gset], the seed loop as [forEachSeed], the cap
      [dfs_limit] = 50000 and the size filter (> 5) as a parameter.
    - [Sequencer.v], [getComponentCenter], the sort comparator
      [compareComponents], [isTransitionElement] and
      [generateAnimationFrames] (193-243, 340-397): centroids are exact
      rationals ([Q]); [Array.prototype.sort] is the type class
      [ArraySort] (a permutation, sorted whenever the comparator is
      consistent), implemented by an insertion sort.
    - [Scheduler.v], the animator's fields as the record [Animator] and
      the playback handlers [startAnimation], [animateFrame],
      [pauseAnimation], [resetAnimation], [completeAnimation] and the
      speed slider (399-499, 46-53).  [setTimeout] is a list of pending
      (handle, delay) callbacks with fresh handles; a callback firing is
      [fireTimer]; [handlePlayback] is the reaction to one playback
      event, [None] for an event that cannot happen (a disabled button,
      a slider value outside 0..10, a callback that is not pending).  A
      [drawImage] of a missing image throws after its [clearRect]: the
      handler stops there.
    - [App.v], [loadImage]'s [onload], [checkImagesReady],
      [setupCanvas], [processImages] (56-161) and all listeners as one
      reaction [handle] to an [Event]; [run] plays a list of events.
    - [Invariants.v], what every page reachable by [handle] satisfies:
      delays, timer handles and canvas shape ([page_ok]), and the type
      of the pixel data ([page_bytes]: every channel a byte, as in the
      [Uint8ClampedArray] of an [ImageData]).
    - [PlaybackSpec.v], the playback machine of the design (Idle,
      Running, Paused, Complete, with an index) and what the canvas
      shows in each of its states.
    - [ChunkingV1.v], the frames of src/script_v1.js, the earlier
      version: the differences sorted in place by a row-band comparator
      and cut into slices of [groupSize] pixels (172-193).
    - [AppV1.v], the whole page of src/script_v1.js: its fields as the
      record [AnimatorV1] (no transition speed), every handler
      ([loadImage], [checkImagesReady], [setupCanvas], [processImages]
      with its single [catch], [calculateDifferencesV1], [startAnimation],
      [animateFrame] with a fixed delay, [pauseAnimation],
      [resetAnimation], a [completeAnimation] that does not repaint) and
      the listeners as [handleV1] over the events of [App.Event].

    What the theorems show (claims C1-C40 of the manifest):
    - Segmenter: the analysis returns on every input (C1); without the
      filter the components partition the difference keys (C2); the
      filter inside the loop equals filtering afterwards (C3, a
      refinement); sizes are in 6..50001 (C4); kept components are
      disjoint sets of records (C5), 8-connected (C6), and maximal when
      the cap is not reached (C7).
    - Differ: the strided loop equals a pixel-by-pixel reference (C8);
      coordinates lie on the canvas (C9), are distinct (C10), and are
      exactly the pixels above the threshold with the answer's bytes
      (C11); identical buffers give nothing (C12).
    - Sequencer: the transition checks as one disjunction (C13); frames
      are the components, each with its size and centre (C14); reading
      order for consistent layouts (C15); every staircase of three
      glyphs within the row band of each other is ordered in a cycle,
      so the comparator is not consistent on such layouts (C35).
    - Scheduler: playback alone keeps one pending tick (C17); pause
      cancels it (C18); reset rewinds to index 0 and progress 0, repaints
      the blank image and is idempotent (C19); the slider listener's
      delays for every value 0..10 (C20); one tick (C22); after k ticks
      the first k+1 frames are drawn (C23, C25 for colours and untouched
      pixels); n ticks complete with the answer image (C24).
    - App: end to end, loading, processing and playing leave the answer
      image (C26); every branch of [processImages] (C27); the spec's two
      scenarios, on any page: identical images never enable playback
      (C28), differences forming one small component give one
      transition frame that one tick completes (C29); and what the code
      gets wrong, on any page where it applies: processing while a tick
      is pending lets play start a second tick chain (C30), pause does
      not cancel a second pending tick, which then repaints the canvas
      (C31), a new plan is not rewound to its first frame (C32).
    - Invariants: delays, pending-tick handles and canvas shape in every
      reachable page (C34); the progress bar within 0..100% (C33); the
      type invariant: canvas, images,
      difference records and frame pixels hold bytes 0..255 in every
      page reached by events whose images hold bytes (C21).
    - PlaybackSpec: the Scheduler's playback refines the design's
      machine; every run of playback events is simulated by abstract
      steps, with the canvas equal to the abstract rendering (C40).
    - v1: the slices join back to the sorted differences (C36); their
      number and sizes (C37); the v1 session: load, process, play and
      one tick per frame end at 100% with every sorted difference
      written over the blank page, the answer image never repainted
      (C38), nothing else changed (C39); identical images are reported
      as processed, with play enabled and no frame (C16).

    Fuel: a traversal runs [dfs_loop] with [9 * size pixelMap + length
    stack + 1] iterations.  Each iteration either visits one of the
    [size pixelMap] keys for the first time (and pushes at most 8) or
    pops without pushing, so the measure [9 * unvisited + length stack]
    drops at every iteration; the fuel is proved sufficient
    ([dfs_loop_total]), so [None] never comes out (C1).  The seed loop
    and every other loop are structural.

    Not modelled: reading files ([FileReader], [Image] decoding; an event
    carries the decoded image), console output, the DOM text of the
    status line and of the speed label (the status message and class
    are fields), the browser's compositing beyond drawing onto a cleared
    canvas; the progress bar's and the status line's DOM writes in
    src/script_v1.js as in src/script.js (the progress and the status
    are fields).

    This file is the prelude: the notation scope [anim_scope], the
    tactics, the hint database [anim] and the generic lemmas on lists
    and rationals the components share. *)

From stdpp Require Export base list gmap sets.
From Stdlib Require Export ZArith QArith Qabs Permutation Sorted Lia.

Declare Scope anim_scope.
Delimit Scope anim_scope with anim.
Open Scope anim_scope.

(** ** Rationals: the JavaScript numbers of centroids and progress

    The code divides integer sums by counts (centroids, progress); the
    quotients are kept exact as [Q]. *)

(** Strict comparison on [Q] as a boolean, the [<] of the code. *)
Definition Qltb (a b : Q) : bool := negb (Qle_bool b a).

Notation "a <?Q b" := (Qltb a b) (at level 70, no associativity) : anim_scope.
Notation "a <=?Q b" := (Qle_bool a b) (at level 70, no associativity) : anim_scope.

Lemma Qltb_iff (a b : Q) : (a <?Q b) = true <-> (a < b)%Q.
Proof.
  unfold Qltb. rewrite negb_true_iff. split.
  - intros H. apply Qnot_le_lt. intros Hle. apply Qle_bool_iff in Hle. congruence.
  - intros H. destruct (Qle_bool b a) eqn:E; [|reflexivity].
    apply Qle_bool_iff in E. exfalso. apply (Qlt_not_le a b); assumption.
Qed.

Lemma Qltb_false (a b : Q) : (a <?Q b) = false <-> (b <= a)%Q.
Proof.
  unfold Qltb. rewrite negb_false_iff. apply Qle_bool_iff.
Qed.

(** ** Tactics *)

(** Invert a hypothesis and clean up. *)
Ltac invc H := inversion H; subst; clear H.

(** Turn boolean tests of the code into propositions. *)
Ltac bool_to_prop :=
  repeat match goal with
  | H : (_ && _) = true |- _ => apply andb_prop in H as [? ?]
  | H : (_ || _) = false |- _ => apply orb_false_elim in H as [? ?]
  | H : negb _ = true |- _ => apply negb_true_iff in H
  | H : negb _ = false |- _ => apply negb_false_iff in H
  | H : (_ <? _)%Z = true |- _ => apply Z.ltb_lt in H
  | H : (_ <? _)%Z = false |- _ => apply Z.ltb_ge in H
  | H : (_ <=? _)%Z = true |- _ => apply Z.leb_le in H
  | H : (_ <=? _)%Z = false |- _ => apply Z.leb_gt in H
  | H : (_ <? _)%nat = true |- _ => apply Nat.ltb_lt in H
  | H : (_ <? _)%nat = false |- _ => apply Nat.ltb_ge in H
  | H : (_ <=? _)%nat = true |- _ => apply Nat.leb_le in H
  | H : (_ <=? _)%nat = false |- _ => apply Nat.leb_gt in H
  | H : bool_decide _ = true |- _ => apply bool_decide_eq_true_1 in H
  | H : bool_decide _ = false |- _ => apply bool_decide_eq_false_1 in H
  end.

Create HintDb anim.

(** ** Generic list lemmas *)

Lemma Forall_app_single {A} (P : A -> Prop) (l : list A) (x : A) :
  Forall P l -> P x -> Forall P (l ++ [x]).
Proof. intros. apply Forall_app; auto. Qed.

#[export] Hint Resolve Forall_app_single : anim.

(** Dropping whole blocks keeps a duplicate-free concatenation
    duplicate-free. *)
Lemma NoDup_concat_filter {A B} (f : A -> list B) (P : A -> bool) (l : list A) :
  NoDup (concat (map f l)) -> NoDup (concat (map f (List.filter P l))).
Proof.
  induction l as [|x l IH]; simpl; [done|].
  rewrite NoDup_app. intros (Hx & Hdisj & Hl).
  destruct (P x); simpl; [|auto].
  rewrite NoDup_app. split; [done|]. split; [|auto].
  intros y Hy Hy'. apply (Hdisj y Hy).
  apply list_elem_of_In in Hy'. apply list_elem_of_In.
  apply in_concat in Hy' as (ys & Hys & Hy'). apply in_concat. exists ys. split; [|done].
  apply in_map_iff in Hys as (z & <- & Hz). apply filter_In in Hz as [Hz _].
  apply in_map_iff. eauto.
Qed.

Lemma elem_of_List_filter {A} (f : A -> bool) (l : list A) x :
  x ∈ List.filter f l <-> x ∈ l /\ f x = true.
Proof. rewrite !list_elem_of_In. apply filter_In. Qed.

Lemma elem_of_concat_map {A B} (f : A -> list B) (l : list A) y :
  y ∈ concat (map f l) <-> exists x, x ∈ l /\ y ∈ f x.
Proof.
  rewrite list_elem_of_In, in_concat. split.
  - intros (ys & Hys & Hy). apply in_map_iff in Hys as (x & <- & Hx).
    exists x. rewrite !list_elem_of_In. auto.
  - intros (x & Hx & Hy). rewrite list_elem_of_In in Hx. rewrite list_elem_of_In in Hy.
    exists (f x). split; [apply in_map; done | done].
Qed.

(** A map injective on the elements of a duplicate-free list keeps it
    duplicate-free. *)
Lemma NoDup_map_on {A B} (f : A -> B) (l : list A) :
  NoDup l -> (forall x y, x ∈ l -> y ∈ l -> f x = f y -> x = y) -> NoDup (map f l).
Proof.
  induction l as [|x l IH]; intros Hnd Hinj; simpl; [constructor|].
  apply NoDup_cons in Hnd as [Hx Hnd]. constructor.
  - intros Hfx. apply list_elem_of_fmap in Hfx as (y & Hxy & Hy).
    rewrite (Hinj x y) in Hx; [done | set_solver | set_solver | done].
  - apply IH; [done|]. intros a b Ha Hb. apply Hinj; set_solver.
Qed.
