(* ===== verification/Canvas.v ===== *)
(** * Canvas: pixels and RGBA buffers

    The data the animator moves around (src/script.js): the difference
    records pushed by [calculateDifferences] ({x, y, r, g, b, a}), the
    [ImageData] buffers of the Canvas API (width, height and a row-major
    byte array, four bytes per pixel), a 1x1 [putImageData] as
    [animateFrame] issues it, and the [clearRect] + [drawImage(img, 0, 0)]
    pair that [setupCanvas], [resetAnimation] and [completeAnimation] use
    to paint a whole image.  Bytes are [Z] values; the Canvas API keeps
    them in 0..255. *)

From S2P Require Import Prelude.

Open Scope Z_scope.

Module Canvas.

(** A difference record: coordinates and the answer image's colour. *)
Record Pixel := mkPixel { px : Z; py : Z; pr : Z; pg : Z; pb : Z; pa : Z }.

#[export] Instance Pixel_eq_dec : EqDecision Pixel.
Proof. solve_decision. Qed.

(** The key of the code's [pixelMap] and [visited] set,
    the template string [`${x},${y}`]; the string is injective on integer
    pairs, so the pair itself is the key. *)
Definition key (p : Pixel) : Z * Z := (px p, py p).

(** The RGBA colour of a record. *)
Definition color (p : Pixel) : Z * Z * Z * Z := (pr p, pg p, pb p, pa p).

(** [ImageData]: [width], [height] and [data], row-major, four bytes a pixel. *)
Record ImageData := mkImageData { width : Z; height : Z; data : list Z }.

(** Byte offset of pixel [(x, y)]: [4 * (y * width + x)]. *)
Definition offset (w x y : Z) : nat := Z.to_nat (4 * (y * w + x)).

(** The four bytes stored for pixel [(x, y)] (0 past the end). *)
Definition rgbaAt (c : ImageData) (x y : Z) : Z * Z * Z * Z :=
  let i := offset (width c) x y in
  (nth i (data c) 0, nth (i + 1) (data c) 0, nth (i + 2) (data c) 0,
   nth (i + 3) (data c) 0).

(** Whether [(x, y)] lies on the canvas. *)
Definition onCanvas (c : ImageData) (x y : Z) : bool :=
  (0 <=? x) && (x <? width c) && (0 <=? y) && (y <? height c).

(** [createImageData(1, 1)] filled with the record's colour and
    [putImageData(imageData, pixel.x, pixel.y)]: the four bytes of the
    pixel are replaced (no blending); a pixel off the canvas is clipped. *)
Definition putImageData1 (c : ImageData) (p : Pixel) : ImageData :=
  if onCanvas c (px p) (py p) then
    let i := offset (width c) (px p) (py p) in
    mkImageData (width c) (height c)
      (<[(i + 3)%nat := pa p]> (<[(i + 2)%nat := pb p]>
        (<[(i + 1)%nat := pg p]> (<[i := pr p]> (data c)))))
  else c.

(** One byte of [img] drawn at the origin: its own byte inside the image,
    transparent black (0) outside it. *)
Definition drawnByte (img : ImageData) (x y k : Z) : Z :=
  if (x <? width img) && (y <? height img)
  then nth (offset (width img) x y + Z.to_nat k)%nat (data img) 0
  else 0.

(** [clearRect(0, 0, w, h)] then [drawImage(img, 0, 0)] on a [w] x [h]
    canvas (or [getImageData] of a fresh canvas after [drawImage]): the
    image's pixels where it covers the canvas, transparent black
    elsewhere.  Drawing onto a cleared canvas with source-over
    compositing stores the source pixel unchanged. *)
Definition clearAndDraw (w h : Z) (img : ImageData) : ImageData :=
  mkImageData w h
    (flat_map (fun y => flat_map (fun x => map (drawnByte img x y) [0; 1; 2; 3])
                                 (map Z.of_nat (seq 0 (Z.to_nat w))))
              (map Z.of_nat (seq 0 (Z.to_nat h)))).

(** [clearRect] alone: a transparent [w] x [h] canvas. *)
Definition cleared (w h : Z) : ImageData :=
  mkImageData w h (repeat 0 (Z.to_nat (4 * w * h))).

(** A well-formed buffer: [data.length = 4 * width * height]. *)
Definition wf_image (c : ImageData) : Prop :=
  0 <= width c /\ 0 <= height c /\
  Z.of_nat (length (data c)) = 4 * width c * height c.

(** ** Lemmas *)

Lemma putImageData1_dims c p :
  width (putImageData1 c p) = width c /\ height (putImageData1 c p) = height c.
Proof. unfold putImageData1. destruct (onCanvas _ _ _); auto. Qed.

Lemma putImageData1_length c p :
  length (data (putImageData1 c p)) = length (data c).
Proof.
  unfold putImageData1. destruct (onCanvas _ _ _); [|done].
  simpl. rewrite !length_insert. done.
Qed.

Lemma putImageData1_wf c p : wf_image c -> wf_image (putImageData1 c p).
Proof.
  unfold wf_image. intros (?&?&Hl).
  destruct (putImageData1_dims c p) as [-> ->]. rewrite putImageData1_length. auto.
Qed.

Lemma offset_in_bounds c x y :
  wf_image c -> onCanvas c x y = true -> (offset (width c) x y + 3 < length (data c))%nat.
Proof.
  unfold wf_image, onCanvas, offset. intros (Hw&Hh&Hl) Hon. bool_to_prop.
  apply Nat2Z.inj_lt. rewrite Nat2Z.inj_add, Z2Nat.id by nia. rewrite Hl. nia.
Qed.

(** Distinct on-canvas pixels have disjoint four-byte slots. *)
Lemma offset_disjoint w x y x' y' (k k' : nat) :
  0 <= x < w -> 0 <= y -> 0 <= x' < w -> 0 <= y' -> (k < 4)%nat -> (k' < 4)%nat ->
  (x, y) <> (x', y') -> (offset w x y + k)%nat <> (offset w x' y' + k')%nat.
Proof.
  unfold offset. intros Hx Hy Hx' Hy' Hk Hk' Hne Heq. apply Hne.
  apply (f_equal Z.of_nat) in Heq. rewrite !Nat2Z.inj_add, !Z2Nat.id in Heq by nia.
  assert (y * w + x = y' * w + x') as E by lia.
  assert (y = y') as -> by nia. f_equal. lia.
Qed.

(** After a write, the written pixel reads back the record's colour. *)
Lemma rgbaAt_put_same c p :
  wf_image c -> onCanvas c (px p) (py p) = true ->
  rgbaAt (putImageData1 c p) (px p) (py p) = color p.
Proof.
  intros Hwf Hon. pose proof (offset_in_bounds c _ _ Hwf Hon) as Hb.
  unfold putImageData1, rgbaAt, color. rewrite Hon. simpl.
  set (i := offset (width c) (px p) (py p)) in *.
  rewrite !nth_lookup.
  repeat first
    [ rewrite list_lookup_insert_eq by (rewrite ?length_insert; lia)
    | rewrite list_lookup_insert_ne by lia ].
  reflexivity.
Qed.

Lemma offset_mul4 w x y : 0 <= y * w + x -> offset w x y = (4 * Z.to_nat (y * w + x))%nat.
Proof. intros H. unfold offset. lia. Qed.

(** A write leaves every other on-canvas pixel as it was. *)
Lemma rgbaAt_put_other c p x y :
  onCanvas c x y = true -> (x, y) <> key p ->
  rgbaAt (putImageData1 c p) x y = rgbaAt c x y.
Proof.
  intros Hxy Hne. unfold putImageData1. destruct (onCanvas c (px p) (py p)) eqn:Hp; [|done].
  unfold rgbaAt. simpl. unfold onCanvas in Hxy, Hp. bool_to_prop.
  pose proof (offset_disjoint (width c) x y (px p) (py p) 0 0) as Hd.
  rewrite !Nat.add_0_r in Hd.
  specialize (Hd ltac:(lia) ltac:(lia) ltac:(lia) ltac:(lia) ltac:(lia) ltac:(lia) Hne).
  rewrite !offset_mul4 in * by nia.
  set (a := Z.to_nat (y * width c + x)) in *. set (b := Z.to_nat (py p * width c + px p)) in *.
  rewrite !nth_lookup. repeat rewrite list_lookup_insert_ne by lia. reflexivity.
Qed.

(** Writes preserve the canvas size. *)
Lemma fold_put_dims ps c :
  width (fold_left putImageData1 ps c) = width c /\
  height (fold_left putImageData1 ps c) = height c /\
  length (data (fold_left putImageData1 ps c)) = length (data c).
Proof.
  revert c. induction ps as [|p ps IH]; intros c; simpl; [auto|].
  destruct (IH (putImageData1 c p)) as (-> & -> & ->).
  destruct (putImageData1_dims c p) as [-> ->]. by rewrite putImageData1_length.
Qed.

Lemma onCanvas_fold ps c x y :
  onCanvas (fold_left putImageData1 ps c) x y = onCanvas c x y.
Proof. unfold onCanvas. by destruct (fold_put_dims ps c) as (-> & -> & _). Qed.

Lemma wf_fold ps c : wf_image c -> wf_image (fold_left putImageData1 ps c).
Proof.
  unfold wf_image. destruct (fold_put_dims ps c) as (-> & -> & ->). done.
Qed.

(** A pixel no write touches keeps its bytes. *)
Lemma fold_put_other ps c x y :
  onCanvas c x y = true -> (x, y) ∉ map key ps ->
  rgbaAt (fold_left putImageData1 ps c) x y = rgbaAt c x y.
Proof.
  revert c. induction ps as [|p ps IH]; intros c Hon Hnot; simpl; [done|].
  rewrite IH.
  - apply rgbaAt_put_other; [done|]. intros E. apply Hnot. rewrite E. simpl. set_solver.
  - unfold onCanvas in *. by destruct (putImageData1_dims c p) as [-> ->].
  - intros H. apply Hnot. simpl. set_solver.
Qed.

(** After writing duplicate-free records, each on-canvas one shows its colour. *)
Lemma fold_put_color ps c p :
  wf_image c -> NoDup (map key ps) -> p ∈ ps -> onCanvas c (px p) (py p) = true ->
  rgbaAt (fold_left putImageData1 ps c) (px p) (py p) = color p.
Proof.
  revert c. induction ps as [|q ps IH]; intros c Hwf Hnd Hp Hon; [inversion Hp|].
  simpl in *. apply NoDup_cons in Hnd as [Hq Hnd].
  apply elem_of_cons in Hp as [->|Hp].
  - rewrite fold_put_other.
    + by apply rgbaAt_put_same.
    + unfold onCanvas in *. by destruct (putImageData1_dims c q) as [-> ->].
    + exact Hq.
  - apply IH; auto.
    + by apply putImageData1_wf.
    + unfold onCanvas in *. by destruct (putImageData1_dims c q) as [-> ->].
Qed.

Lemma length_flat_map_const {A B} (f : A -> list B) (n : nat) (l : list A) :
  (forall x, length (f x) = n) -> length (flat_map f l) = (n * length l)%nat.
Proof. intros Hf. induction l as [|x l IH]; simpl; [lia|]. rewrite length_app, Hf, IH. lia. Qed.

(** Painting an image onto a [w] x [h] canvas gives a [w] x [h] buffer. *)
Lemma clearAndDraw_wf w h img : 0 <= w -> 0 <= h -> wf_image (clearAndDraw w h img).
Proof.
  intros Hw Hh. unfold wf_image, clearAndDraw. simpl. split; [done|]. split; [done|].
  rewrite (length_flat_map_const _ (4 * Z.to_nat w)).
  - rewrite length_map, length_seq. lia.
  - intros y. rewrite (length_flat_map_const _ 4); [by rewrite length_map, length_seq|].
    intros x. done.
Qed.

Lemma cleared_wf w h : 0 <= w -> 0 <= h -> wf_image (cleared w h).
Proof. intros Hw Hh. unfold wf_image, cleared. simpl. rewrite repeat_length. lia. Qed.

End Canvas.

Export Canvas.
