(* ===== verification/Differ.v ===== *)
(** * Differ: the pixel difference scan

    [calculateDifferences] of src/script.js (lines 163-191, the same in
    src/script_v1.js lines 142-170): a loop over the byte array of the
    blank image four bytes at a time; a pixel whose summed absolute RGB
    difference exceeds [threshold] (30) is recorded with the answer's
    RGBA bytes at [x = pixelIndex % width], [y = floor(pixelIndex / width)].
    The loop is [scan], structural on the two byte lists; [differences_ref]
    is the same set computed pixel by pixel from indices, and the two are
    proved equal. *)

From S2P Require Import Prelude Canvas.

Open Scope Z_scope.

Module Differ.

(** [const threshold = 30]. *)
Definition threshold : Z := 30.

(** [|dr| + |dg| + |db|] of two colours (alpha is ignored). *)
Definition totalDiff (br bg bb ar ag ab : Z) : Z :=
  Z.abs (br - ar) + Z.abs (bg - ag) + Z.abs (bb - ab).

(** The [for (let i = 0; i < blankData.data.length; i += 4)] loop from
    pixel [pixelIndex] on; [blank] and [answer] are the remaining bytes. *)
Fixpoint scan (width pixelIndex : Z) (blank answer : list Z) : list Pixel :=
  match blank, answer with
  | br :: bg :: bb :: _ :: blank', ar :: ag :: ab :: aa :: answer' =>
      (if threshold <? totalDiff br bg bb ar ag ab
       then [mkPixel (pixelIndex mod width) (pixelIndex / width) ar ag ab aa]
       else [])
      ++ scan width (pixelIndex + 1) blank' answer'
  | _, _ => []
  end.

(** [calculateDifferences(blankData, answerData)], with the canvas width
    [this.canvas.width]; the result is [this.differenceData]. *)
Definition calculateDifferences (width : Z) (blankData answerData : ImageData) : list Pixel :=
  scan width 0 (data blankData) (data answerData).

(** ** The reference: pixel by pixel *)

(** The byte [k] of pixel [i]. *)
Definition byteAt (l : list Z) (i : nat) (k : nat) : Z := nth (4 * i + k) l 0.

(** Whether pixel [i] differs. *)
Definition differsAt (blank answer : list Z) (i : nat) : bool :=
  threshold <? totalDiff (byteAt blank i 0) (byteAt blank i 1) (byteAt blank i 2)
                         (byteAt answer i 0) (byteAt answer i 1) (byteAt answer i 2).

(** The record of pixel [i], numbered from [k]. *)
Definition recordAt (width : Z) (k : nat) (answer : list Z) (i : nat) : Pixel :=
  mkPixel (Z.of_nat (k + i) mod width) (Z.of_nat (k + i) / width)
    (byteAt answer i 0) (byteAt answer i 1) (byteAt answer i 2) (byteAt answer i 3).

(** Every differing pixel, in index order, the first one numbered [k]. *)
Definition differences_from (width : Z) (k : nat) (blank answer : list Z) : list Pixel :=
  flat_map (fun i => if differsAt blank answer i then [recordAt width k answer i] else [])
    (seq 0 (length blank / 4)).

Definition differences_ref (width : Z) (blank answer : list Z) : list Pixel :=
  differences_from width 0 blank answer.

(** ** Equivalence *)

Lemma flat_map_seq_shift {A} (f : nat -> list A) n :
  flat_map f (seq 1 n) = flat_map (fun i => f (S i)) (seq 0 n).
Proof. rewrite <- seq_shift, flat_map_concat_map, map_map, <- flat_map_concat_map. done. Qed.

Lemma scan_from width k blank answer :
  length blank = length answer -> (length blank mod 4 = 0)%nat ->
  scan width (Z.of_nat k) blank answer = differences_from width k blank answer.
Proof.
  remember (length blank / 4)%nat as n eqn:Hn. revert k blank answer Hn.
  induction n as [|n IH]; intros k blank answer Hn Hlen Hmod.
  - assert (length blank = 0)%nat as Hb by (pose proof (Nat.div_mod_eq (length blank) 4); lia).
    destruct blank; [|done]. unfold differences_from. rewrite <- Hn. done.
  - destruct blank as [|b0 [|b1 [|b2 [|b3 blank]]]];
      try (simpl in Hn; discriminate).
    destruct answer as [|a0 [|a1 [|a2 [|a3 answer]]]]; try (simpl in Hlen; discriminate).
    assert (length (b0 :: b1 :: b2 :: b3 :: blank) = length blank + 1 * 4)%nat as E
      by (simpl; lia).
    rewrite E in Hn, Hmod. rewrite Nat.div_add in Hn by lia.
    rewrite Nat.Div0.mod_add in Hmod.
    assert (n = length blank / 4)%nat as Hn' by lia.
    simpl in Hlen. injection Hlen as Hlen.
    simpl scan. replace (Z.of_nat k + 1) with (Z.of_nat (S k)) by lia.
    rewrite (IH (S k) blank answer Hn' Hlen Hmod).
    unfold differences_from. rewrite E, Nat.div_add by lia. rewrite <- Hn'.
    replace (n + 1)%nat with (S n) by lia. change (seq 0 (S n)) with (0%nat :: seq 1 n).
    cbn [flat_map].
    rewrite flat_map_seq_shift. f_equal.
    + unfold differsAt, recordAt, byteAt. simpl. by rewrite Nat.add_0_r.
    + apply flat_map_ext. intros i. unfold differsAt, recordAt, byteAt.
      replace (4 * S i)%nat with (4 * i + 4)%nat by lia.
      replace (S k + i)%nat with (k + S i)%nat by lia.
      assert (forall (c : nat) (l : list Z) x0 x1 x2 x3,
                nth (4 * i + 4 + c) (x0 :: x1 :: x2 :: x3 :: l) 0 = nth (4 * i + c) l 0) as Hs.
      { intros. by replace (4 * i + 4 + c)%nat with (S (S (S (S (4 * i + c))))) by lia. }
      rewrite !Hs. done.
Qed.

Lemma differences_from_filter width k blank answer :
  differences_from width k blank answer =
  map (recordAt width k answer) (List.filter (differsAt blank answer) (seq 0 (length blank / 4))).
Proof.
  unfold differences_from. induction (seq 0 (length blank / 4)) as [|i l IH]; [done|].
  simpl. destruct (differsAt blank answer i); simpl; by rewrite IH.
Qed.

(** The records of the reference, one per differing pixel index. *)
Lemma elem_of_differences_ref width blank answer p :
  p ∈ differences_ref width blank answer <->
  exists i, (i < length blank / 4)%nat /\ differsAt blank answer i = true /\
    p = recordAt width 0 answer i.
Proof.
  unfold differences_ref. rewrite differences_from_filter, list_elem_of_fmap. split.
  - intros (i & -> & Hi). apply elem_of_List_filter in Hi as [Hi Hd].
    apply list_elem_of_In, in_seq in Hi. exists i. split; [lia|]. auto.
  - intros (i & Hi & Hd & ->). exists i. split; [done|].
    apply elem_of_List_filter. split; [|done]. apply list_elem_of_In, in_seq. lia.
Qed.

(** The pixel index of a key is recovered from it. *)
Lemma index_of_key width (i j : nat) :
  0 < width ->
  (Z.of_nat i mod width, Z.of_nat i / width) = (Z.of_nat j mod width, Z.of_nat j / width) ->
  i = j.
Proof.
  intros Hw [= Hm Hd].
  apply Nat2Z.inj. rewrite (Z.div_mod (Z.of_nat i) width), (Z.div_mod (Z.of_nat j) width)
    by lia. by rewrite Hm, Hd.
Qed.

(** Whether the pixel [(x, y)] of two buffers differs, read with [rgbaAt]. *)
Definition pixelDiffers (blank answer : ImageData) (x y : Z) : bool :=
  let '(br, bg, bb, _) := rgbaAt blank x y in
  let '(ar, ag, ab, _) := rgbaAt answer x y in
  threshold <? totalDiff br bg bb ar ag ab.

(** Two well-formed buffers of one size. *)
Definition same_size (w h : Z) (blankData answerData : ImageData) : Prop :=
  0 < w /\ 0 <= h /\ width blankData = w /\ width answerData = w /\
  Z.of_nat (length (data blankData)) = 4 * w * h /\
  Z.of_nat (length (data answerData)) = 4 * w * h.

Section Sized.

Context (w h : Z) (blankData answerData : ImageData).
Hypothesis Hsize : same_size w h blankData answerData.

Lemma same_size_lengths :
  length (data blankData) = length (data answerData) /\
  (length (data blankData) mod 4 = 0)%nat /\
  Z.of_nat (length (data blankData) / 4) = w * h.
Proof.
  destruct Hsize as (Hw & Hh & _ & _ & Hb & Ha). split; [lia|].
  assert (length (data blankData) = 4 * Z.to_nat (w * h))%nat as E by lia.
  rewrite E, Nat.mul_comm, Nat.Div0.mod_mul, Nat.div_mul by lia. split; [done|]. lia.
Qed.

Lemma calculateDifferences_eq_ref :
  calculateDifferences w blankData answerData =
  differences_ref w (data blankData) (data answerData).
Proof.
  destruct same_size_lengths as (Hl & Hm & _). apply (scan_from w 0); auto.
Qed.

(** The byte offset of the record of pixel [i] is [4 * i]. *)
Lemma offset_recordAt (i : nat) :
  offset w (Z.of_nat i mod w) (Z.of_nat i / w) = (4 * i)%nat.
Proof.
  destruct Hsize as (Hw & _). unfold offset.
  rewrite Z.mul_comm, (Z.mul_comm (Z.of_nat i / w)), <- Z.div_mod by lia. lia.
Qed.

End Sized.

(** Coordinates of the record of pixel [i] below [w * h]. *)
Lemma recordAt_bounds w h (i : nat) :
  0 < w -> Z.of_nat i < w * h ->
  0 <= Z.of_nat i mod w < w /\ 0 <= Z.of_nat i / w < h.
Proof.
  intros Hw Hi. split; [apply Z.mod_pos_bound; lia|]. split.
  - apply Z.div_pos; lia.
  - apply Z.div_lt_upper_bound; lia.
Qed.

(** The pixel index of an on-canvas coordinate. *)
Lemma key_of_index w h x y :
  0 <= x < w -> 0 <= y < h ->
  Z.of_nat (Z.to_nat (y * w + x)) mod w = x /\ Z.of_nat (Z.to_nat (y * w + x)) / w = y /\
  Z.of_nat (Z.to_nat (y * w + x)) < w * h.
Proof.
  intros Hx Hy. rewrite Z2Nat.id by nia. split; [|split].
  - symmetry. apply (Z.mod_unique _ _ y); lia.
  - symmetry. apply (Z.div_unique _ _ _ x); lia.
  - nia.
Qed.

(** C8: the strided byte loop of [calculateDifferences] computes exactly
    the pixel-by-pixel reference [differences_ref] on two buffers of one
    size. *)
Theorem calculateDifferences_equiv w h blankData answerData :
  same_size w h blankData answerData ->
  calculateDifferences w blankData answerData =
  differences_ref w (data blankData) (data answerData).
Proof. apply calculateDifferences_eq_ref. Qed.

(** C9: every difference record lies on the [w] x [h] canvas. *)
Theorem calculateDifferences_bounds w h blankData answerData :
  same_size w h blankData answerData ->
  forall p, p ∈ calculateDifferences w blankData answerData ->
    0 <= px p < w /\ 0 <= py p < h.
Proof.
  intros Hs p Hp. destruct (same_size_lengths w h blankData answerData Hs) as (_ & _ & Hn).
  rewrite (calculateDifferences_eq_ref w h) in Hp by done.
  apply elem_of_differences_ref in Hp as (i & Hi & _ & ->).
  apply recordAt_bounds; [apply Hs | lia].
Qed.

(** C10: no two difference records share a key (the [pixelMap] of the
    segmenter loses nothing). *)
Theorem calculateDifferences_unique w h blankData answerData :
  same_size w h blankData answerData ->
  NoDup (map key (calculateDifferences w blankData answerData)).
Proof.
  intros Hs. rewrite (calculateDifferences_eq_ref w h) by done.
  unfold differences_ref. rewrite differences_from_filter, map_map.
  apply NoDup_map_on; [apply NoDup_ListNoDup, List.NoDup_filter, seq_NoDup|].
  intros i j _ _ Hij. apply (index_of_key w); [apply Hs|]. exact Hij.
Qed.

(** C11: a coordinate has a difference record exactly when it lies on
    the canvas and its RGB distance exceeds the threshold, and the record
    carries the answer's RGBA bytes there. *)
Theorem calculateDifferences_exact w h blankData answerData :
  same_size w h blankData answerData ->
  (forall x y, (exists p, p ∈ calculateDifferences w blankData answerData /\ key p = (x, y)) <->
     0 <= x < w /\ 0 <= y < h /\ pixelDiffers blankData answerData x y = true) /\
  (forall p, p ∈ calculateDifferences w blankData answerData ->
     color p = rgbaAt answerData (px p) (py p)).
Proof.
  intros Hs. pose proof Hs as (Hw & Hh & Hwb & Hwa & _).
  destruct (same_size_lengths w h blankData answerData Hs) as (_ & _ & Hn).
  rewrite (calculateDifferences_eq_ref w h) by done.
  assert (forall i : nat, pixelDiffers blankData answerData (Z.of_nat i mod w) (Z.of_nat i / w) =
            differsAt (data blankData) (data answerData) i) as Hpd.
  { intros i. unfold pixelDiffers, rgbaAt. rewrite Hwb, Hwa, (offset_recordAt w h blankData answerData Hs).
    unfold differsAt, byteAt. by rewrite !Nat.add_0_r. }
  split.
  - intros x y. split.
    + intros (p & Hp & Hk). apply elem_of_differences_ref in Hp as (i & Hi & Hd & ->).
      unfold recordAt, key in Hk. simpl in Hk. injection Hk as <- <-. rewrite Hpd.
      destruct (recordAt_bounds w h i) as [? ?]; [lia | lia | auto].
    + intros (Hx & Hy & Hd). destruct (key_of_index w h x y Hx Hy) as (Ex & Ey & Hi).
      exists (recordAt w 0 (data answerData) (Z.to_nat (y * w + x))). split.
      * apply elem_of_differences_ref. exists (Z.to_nat (y * w + x)).
        split; [lia|]. split; [|done].
        rewrite <- Hpd, Ex, Ey. done.
      * unfold recordAt, key. simpl. by rewrite Ex, Ey.
  - intros p Hp. apply elem_of_differences_ref in Hp as (i & _ & _ & ->).
    unfold color, rgbaAt. simpl. rewrite Hwa, (offset_recordAt w h blankData answerData Hs).
    unfold byteAt. by rewrite Nat.add_0_r.
Qed.

(** The scan of a buffer against itself records nothing. *)
Lemma scan_same w k l : scan w k l l = [].
Proof.
  assert (forall n (l : list Z) k, (length l < n)%nat -> scan w k l l = []) as H.
  { induction n as [|n IH]; intros l' k' Hl; [lia|].
    destruct l' as [|a [|b [|c [|d l']]]]; try done. simpl.
    unfold totalDiff. rewrite !Z.sub_diag. simpl. apply IH. simpl in Hl. lia. }
  apply (H (S (length l))). lia.
Qed.

(** C12: two identical buffers have no difference record. *)
Theorem calculateDifferences_identical w img :
  calculateDifferences w img img = [].
Proof. apply scan_same. Qed.

(** ** A concrete run *)

(** A transparent 2x2 blank page and an answer with one inked pixel at
    [(1, 0)] and one faint pixel at [(1, 1)] (distance 25). *)
Definition sample_blank : ImageData := mkImageData 2 2 (repeat 0 16).
Definition sample_answer : ImageData :=
  mkImageData 2 2 [0; 0; 0; 0; 200; 100; 50; 255; 0; 0; 0; 0; 10; 10; 5; 255].

Example sample_differences :
  calculateDifferences 2 sample_blank sample_answer = [mkPixel 1 0 200 100 50 255].
Proof. reflexivity. Qed.

Lemma sample_same_size : same_size 2 2 sample_blank sample_answer.
Proof. repeat split; simpl; lia. Qed.

Lemma calculateDifferences_equiv_witness :
  same_size 2 2 sample_blank sample_answer /\
  calculateDifferences 2 sample_blank sample_answer =
  differences_ref 2 (data sample_blank) (data sample_answer).
Proof.
  split; [exact sample_same_size|].
  exact (calculateDifferences_equiv 2 2 sample_blank sample_answer sample_same_size).
Defined.

Lemma calculateDifferences_bounds_witness :
  same_size 2 2 sample_blank sample_answer /\
  forall p, p ∈ calculateDifferences 2 sample_blank sample_answer ->
    0 <= px p < 2 /\ 0 <= py p < 2.
Proof.
  split; [exact sample_same_size|].
  exact (calculateDifferences_bounds 2 2 sample_blank sample_answer sample_same_size).
Defined.

Lemma calculateDifferences_unique_witness :
  same_size 2 2 sample_blank sample_answer /\
  NoDup (map key (calculateDifferences 2 sample_blank sample_answer)).
Proof.
  split; [exact sample_same_size|].
  exact (calculateDifferences_unique 2 2 sample_blank sample_answer sample_same_size).
Defined.

Lemma calculateDifferences_exact_witness :
  same_size 2 2 sample_blank sample_answer /\
  pixelDiffers sample_blank sample_answer 1 0 = true /\
  exists p, p ∈ calculateDifferences 2 sample_blank sample_answer /\ key p = (1, 0).
Proof.
  assert (pixelDiffers sample_blank sample_answer 1 0 = true) as Hd by reflexivity.
  split; [exact sample_same_size|]. split; [exact Hd|].
  apply (proj1 (calculateDifferences_exact 2 2 sample_blank sample_answer sample_same_size)).
  repeat split; lia.
Defined.

End Differ.
