(* ===== verification/Segmenter.v ===== *)
(** * Segmenter: connected components of the difference pixels

    [findConnectedComponents] of src/script.js (lines 245-337): a
    [pixelMap] from keys to difference records, a [visited] set shared by
    every seed, and for each unvisited difference pixel an iterative
    depth-first traversal ([dfs], an explicit stack whose top is the head
    of the list) over the eight [directions].  A pixel is marked visited
    when it is popped; the traversal of one seed stops after more than
    [dfs_limit] pixels; a component is kept when it has more than 5
    pixels.  The [while] loop is a fuel-bounded [Fixpoint] whose fuel,
    [dfs_fuel], is proved sufficient; the [forEach] over the seeds is
    structural on the difference list. *)

From S2P Require Import Prelude Canvas.

Open Scope Z_scope.

Module Segmenter.

(** The eight neighbour offsets, in the code's order. *)
Definition directions : list (Z * Z) :=
  [(-1, -1); (-1, 0); (-1, 1); (0, -1); (0, 1); (1, -1); (1, 0); (1, 1)].

(** [pixelMap.set(key, pixel)] for every difference record, in order
    (a later record with the same key overwrites an earlier one). *)
Definition buildPixelMap (differenceData : list Pixel) : gmap (Z * Z) Pixel :=
  foldl (fun m p => <[key p := p]> m) ∅ differenceData.

(** The cap on the pixels one traversal may process. *)
Definition dfs_limit : Z := 50000.

(** The variables of one traversal: the explicit stack, the shared
    visited set, the component array and [processedCount]. *)
Record DfsState := mkDfs {
  stack : list (Z * Z);
  visited : gset (Z * Z);
  component : list Pixel;
  processedCount : Z
}.

Section Traversal.

(** The canvas size and the pixel map are fixed during a traversal. *)
Context (width height : Z) (pixelMap : gmap (Z * Z) Pixel).

(** The body of the neighbour loop for one direction: push the
    neighbour if it is on the canvas, not visited and a difference pixel. *)
Definition pushIfNew (vis : gset (Z * Z)) (x y : Z) (st : list (Z * Z)) (d : Z * Z) :
    list (Z * Z) :=
  let nx := x + d.1 in
  let ny := y + d.2 in
  if (0 <=? nx) && (nx <? width) && (0 <=? ny) && (ny <? height) then
    if bool_decide ((nx, ny) ∉ vis) && bool_decide (is_Some (pixelMap !! (nx, ny)))
    then (nx, ny) :: st else st
  else st.

(** [for (const [dx, dy] of directions)]. *)
Definition pushNeighbors (vis : gset (Z * Z)) (x y : Z) (st : list (Z * Z)) :
    list (Z * Z) :=
  foldl (pushIfNew vis x y) st directions.

(** The outcome of one iteration of the [while] loop. *)
Inductive Iter := Continue (s : DfsState) | Break (s : DfsState).

(** One iteration, after [stack.pop()] returned [(x, y)] and left [rest]:
    skip a visited or absent key; otherwise mark it visited, push the
    record, count it, [break] past the cap, else push the neighbours. *)
Definition dfs_body (xy : Z * Z) (rest : list (Z * Z)) (s : DfsState) : Iter :=
  if bool_decide (xy ∈ visited s) then
    Continue (mkDfs rest (visited s) (component s) (processedCount s))
  else match pixelMap !! xy with
  | None => Continue (mkDfs rest (visited s) (component s) (processedCount s))
  | Some p =>
      let vis := {[xy]} ∪ visited s in
      let comp := component s ++ [p] in
      let cnt := processedCount s + 1 in
      if dfs_limit <? cnt then Break (mkDfs rest vis comp cnt)
      else Continue (mkDfs (pushNeighbors vis xy.1 xy.2 rest) vis comp cnt)
  end.

(** [while (stack.length > 0)], with fuel. *)
Fixpoint dfs_loop (fuel : nat) (s : DfsState) : option DfsState :=
  match fuel with
  | O => None
  | S fuel' =>
      match stack s with
      | [] => Some s
      | xy :: rest =>
          match dfs_body xy rest s with
          | Continue s' => dfs_loop fuel' s'
          | Break s' => Some s'
          end
      end
  end.

(** Enough fuel: every iteration that visits a pixel pushes at most eight
    keys and removes one of the [size pixelMap] unvisited keys. *)
Definition dfs_fuel (s : DfsState) : nat :=
  (9 * size pixelMap + length (stack s) + 1)%nat.

(** [dfs(startX, startY, component)] (the array argument is [comp]):
    returns the shared visited set and the component the call fills. *)
Definition dfs (vis : gset (Z * Z)) (startX startY : Z) (comp : list Pixel) :
    option (gset (Z * Z) * list Pixel) :=
  let s0 := mkDfs [(startX, startY)] vis comp 0 in
  s ← dfs_loop (dfs_fuel s0) s0;
  Some (visited s, component s).

(** The [forEach] over the difference records: a record whose key is not
    yet visited seeds a traversal, whose component is kept when it has
    more than [minSize] pixels. *)
Fixpoint forEachSeed (minSize : nat) (pixels : list Pixel) (vis : gset (Z * Z))
    (components : list (list Pixel)) : option (list (list Pixel)) :=
  match pixels with
  | [] => Some components
  | pixel :: rest =>
      if bool_decide (key pixel ∈ vis) then forEachSeed minSize rest vis components
      else
        '(vis', component) ← dfs vis (px pixel) (py pixel) [];
        forEachSeed minSize rest vis'
          (if (minSize <? length component)%nat then components ++ [component]
           else components)
  end.

End Traversal.

(** [findConnectedComponents] with the size filter as a parameter. *)
Definition findConnectedComponentsWith (minSize : nat) (width height : Z)
    (differenceData : list Pixel) : option (list (list Pixel)) :=
  match differenceData with
  | [] => Some []
  | _ => forEachSeed width height (buildPixelMap differenceData) minSize
           differenceData ∅ []
  end.

(** The code's filter: [component.length > 5]. *)
Definition findConnectedComponents : Z -> Z -> list Pixel -> option (list (list Pixel)) :=
  findConnectedComponentsWith 5.


(** ** 8-connectivity *)

(** Two distinct keys whose coordinates differ by at most one. *)
Definition adj (u v : Z * Z) : Prop :=
  u <> v /\ Z.abs (u.1 - v.1) <= 1 /\ Z.abs (u.2 - v.2) <= 1.

(** A path of adjacent keys inside [C], from [a] to [b]. *)
Inductive path (C : list (Z * Z)) : Z * Z -> Z * Z -> Prop :=
| path_refl k : k ∈ C -> path C k k
| path_step a b c : path C a b -> adj b c -> c ∈ C -> path C a c.

#[export] Hint Constructors path : anim.

Lemma adj_sym u v : adj u v -> adj v u.
Proof. unfold adj. intros (?&?&?). split; [congruence | lia]. Qed.

Lemma path_ends C a b : path C a b -> a ∈ C /\ b ∈ C.
Proof. induction 1; tauto. Qed.

Lemma path_trans C a b c : path C a b -> path C b c -> path C a c.
Proof. intros Hab Hbc. induction Hbc; eauto with anim. Qed.

Lemma path_sym C a b : path C a b -> path C b a.
Proof.
  induction 1 as [|a b c Hab IH Hbc Hc]; [by constructor|].
  apply path_trans with b; [|done].
  apply path_step with c; [by constructor | by apply adj_sym | apply (path_ends _ _ _ Hab)].
Qed.

Lemma path_mono C C' a b : (forall k, k ∈ C -> k ∈ C') -> path C a b -> path C' a b.
Proof. intros Hsub. induction 1; eauto with anim. Qed.

(** The eight directions are exactly the offsets of the adjacent keys. *)
Lemma directions_adj x y n :
  (exists d, d ∈ directions /\ n = (x + d.1, y + d.2)) <-> adj (x, y) n.
Proof.
  destruct n as [nx ny]. unfold adj; simpl. split.
  - intros (d & Hd & [= -> ->]).
    apply list_elem_of_In in Hd. simpl in Hd.
    repeat destruct Hd as [<-|Hd]; simpl; try contradiction;
      (split; [intros [=]; lia | lia]).
  - intros (Hne & Hx & Hy). exists (nx - x, ny - y). split; [|f_equal; simpl; lia].
    apply list_elem_of_In. simpl.
    assert (nx - x = -1 \/ nx - x = 0 \/ nx - x = 1) as [Ex | [Ex | Ex]] by lia;
    (assert (ny - y = -1 \/ ny - y = 0 \/ ny - y = 1) as [Ey | [Ey | Ey]] by lia);
    rewrite Ex, Ey; try tauto.
    exfalso. apply Hne. f_equal; lia.
Qed.

(** The keys of a component. *)
Definition keysOf (C : list Pixel) : list (Z * Z) := map key C.

(** The pixel map stores each record under its own key. *)
Definition keyed (pm : gmap (Z * Z) Pixel) : Prop :=
  forall k p, pm !! k = Some p -> key p = k.

Lemma keysOf_app C C' : keysOf (C ++ C') = keysOf C ++ keysOf C'.
Proof. apply map_app. Qed.

Lemma elem_of_keysOf C k : k ∈ keysOf C <-> exists p, p ∈ C /\ key p = k.
Proof. unfold keysOf. rewrite list_elem_of_fmap. firstorder. Qed.

Section Proofs.

Context (width height : Z) (pixelMap : gmap (Z * Z) Pixel).

(** Keys on the canvas. *)
Definition inBounds (n : Z * Z) : Prop :=
  0 <= n.1 < width /\ 0 <= n.2 < height.

Lemma foldl_pushIfNew vis x y ds st :
  exists new, foldl (pushIfNew width height pixelMap vis x y) st ds = new ++ st /\
    (length new <= length ds)%nat /\
    forall n, n ∈ new <->
      (exists d, d ∈ ds /\ n = (x + d.1, y + d.2)) /\ inBounds n /\ (n ∉ vis) /\
      is_Some (pixelMap !! n).
Proof.
  revert st. induction ds as [|d ds IH]; intros st; simpl.
  - exists []. split; [done|]. split; [simpl; lia|].
    intros n. split; [intros Hn; inversion Hn|]. intros ((d & Hd & _) & _). inversion Hd.
  - set (cond := (0 <=? x + d.1) && (x + d.1 <? width) && (0 <=? y + d.2) &&
                 (y + d.2 <? height) && bool_decide ((x + d.1, y + d.2) ∉ vis) &&
                 bool_decide (is_Some (pixelMap !! (x + d.1, y + d.2)))).
    assert (pushIfNew width height pixelMap vis x y st d =
            (if cond then [(x + d.1, y + d.2)] else []) ++ st) as ->.
    { unfold pushIfNew, cond.
      destruct ((0 <=? x + d.1) && (x + d.1 <? width) && (0 <=? y + d.2) && (y + d.2 <? height));
        simpl; [|done].
      by destruct (bool_decide _ && bool_decide _). }
    destruct (IH ((if cond then [(x + d.1, y + d.2)] else []) ++ st))
      as (new & Heq & Hlen & Hmem).
    exists (new ++ if cond then [(x + d.1, y + d.2)] else []).
    rewrite Heq, app_assoc. split; [done|]. split.
    { rewrite length_app. destruct cond; simpl in *; lia. }
    intros n. rewrite elem_of_app, Hmem. unfold inBounds, cond. split.
    + intros [((d' & Hd' & ->) & Hrest) | Hn].
      * split; [|done]. exists d'. split; [apply elem_of_cons; by right|done].
      * destruct (_ && _) eqn:E; [|inversion Hn].
        apply list_elem_of_singleton in Hn as ->. bool_to_prop.
        split; [exists d; split; [apply elem_of_cons; by left|done]|]. simpl. repeat split; auto; lia.
    + intros ((d' & Hd' & ->) & Hb & Hv & Hs).
      apply elem_of_cons in Hd' as [->|Hd'].
      * right. destruct Hb as [Hb1 Hb2]. simpl in *.
        rewrite !(proj2 (Z.leb_le _ _)), !(proj2 (Z.ltb_lt _ _)) by lia.
        rewrite !bool_decide_eq_true_2 by done. by apply list_elem_of_singleton.
      * left. split; [exists d'; done|]. done.
Qed.

(** The neighbour loop pushes, in front of the stack, at most eight keys:
    exactly the adjacent, on-canvas, unvisited difference keys. *)
Lemma pushNeighbors_spec vis x y st :
  exists new, pushNeighbors width height pixelMap vis x y st = new ++ st /\
    (length new <= 8)%nat /\
    forall n, n ∈ new <->
      adj (x, y) n /\ inBounds n /\ (n ∉ vis) /\ is_Some (pixelMap !! n).
Proof.
  destruct (foldl_pushIfNew vis x y directions st) as (new & Heq & Hlen & Hmem).
  exists new. split; [done|]. split; [done|].
  intros n. rewrite Hmem, directions_adj. done.
Qed.


(** The three ways one iteration can go. *)
Lemma dfs_body_cases xy rest s :
  ((xy ∈ visited s \/ pixelMap !! xy = None) /\
   dfs_body width height pixelMap xy rest s =
     Continue (mkDfs rest (visited s) (component s) (processedCount s))) \/
  exists p, (xy ∉ visited s) /\ pixelMap !! xy = Some p /\
    ((dfs_limit < processedCount s + 1 /\
      dfs_body width height pixelMap xy rest s =
        Break (mkDfs rest ({[xy]} ∪ visited s) (component s ++ [p]) (processedCount s + 1))) \/
     (processedCount s + 1 <= dfs_limit /\
      dfs_body width height pixelMap xy rest s =
        Continue (mkDfs (pushNeighbors width height pixelMap ({[xy]} ∪ visited s) xy.1 xy.2 rest)
                        ({[xy]} ∪ visited s) (component s ++ [p]) (processedCount s + 1)))).
Proof.
  unfold dfs_body. case_bool_decide as Hv; [left; auto|].
  destruct (pixelMap !! xy) as [p|] eqn:Hp; [|left; auto].
  right. exists p. do 2 (split; [done|]).
  destruct (dfs_limit <? processedCount s + 1) eqn:E; bool_to_prop; auto.
Qed.

(** The state an iteration leaves. *)
Definition iterState (r : Iter) : DfsState :=
  match r with Continue s | Break s => s end.

Section Invariant.

Hypothesis Hkeyed : keyed pixelMap.

(** The traversal started from [k0] with the shared set [V0]. *)
Context (V0 : gset (Z * Z)) (k0 : Z * Z).

Record dfs_inv (s : DfsState) : Prop := {
  inv_visited : visited s = V0 ∪ list_to_set (keysOf (component s));
  inv_fresh : forall p, p ∈ component s -> key p ∉ V0;
  inv_nodup : NoDup (keysOf (component s));
  inv_lookup : forall p, p ∈ component s -> pixelMap !! key p = Some p;
  inv_count : processedCount s = Z.of_nat (length (component s));
  inv_start : component s = [] ->
    stack s = [k0] \/ (stack s = [] /\ (k0 ∈ V0 \/ pixelMap !! k0 = None));
  inv_stack : component s <> [] ->
    forall k, k ∈ stack s -> exists q, q ∈ component s /\ adj (key q) k;
  inv_path : forall p, p ∈ component s -> path (keysOf (component s)) k0 (key p)
}.

(** Every adjacent difference key of the component is visited or still
    on the stack. *)
Definition closed (s : DfsState) : Prop :=
  forall p n, p ∈ component s -> adj (key p) n -> inBounds n ->
    is_Some (pixelMap !! n) -> n ∈ visited s \/ n ∈ stack s.

Lemma dfs_inv_init : dfs_inv (mkDfs [k0] V0 [] 0).
Proof.
  constructor; simpl;
    [set_solver | intros p Hp; inversion Hp | constructor | intros p Hp; inversion Hp
    | done | auto | done | intros p Hp; inversion Hp].
Qed.

Lemma dfs_inv_skip xy rest s :
  dfs_inv s -> stack s = xy :: rest -> xy ∈ visited s \/ pixelMap !! xy = None ->
  dfs_inv (mkDfs rest (visited s) (component s) (processedCount s)).
Proof.
  intros [] Hst Hwhy. constructor; simpl; auto.
  - intros HC. destruct (inv_start0 HC) as [H|[H _]]; rewrite Hst in H; [|done].
    injection H as -> ->. right. split; [done|].
    rewrite inv_visited0, HC in Hwhy. simpl in Hwhy. set_solver.
  - intros HC k Hk. apply inv_stack0; [done|]. rewrite Hst. by apply elem_of_cons; right.
Qed.

Lemma dfs_inv_visit xy rest s p st' :
  dfs_inv s -> stack s = xy :: rest -> xy ∉ visited s -> pixelMap !! xy = Some p ->
  (forall k, k ∈ st' -> k ∈ rest \/ adj xy k) ->
  dfs_inv (mkDfs st' ({[xy]} ∪ visited s) (component s ++ [p]) (processedCount s + 1)).
Proof.
  intros [] Hst Hxy Hp Hst'. pose proof (Hkeyed _ _ Hp) as Hkp.
  assert (xy ∉ keysOf (component s)) as Hxy'.
  { intros Hin. apply Hxy. rewrite inv_visited0. apply elem_of_union_r.
    by apply elem_of_list_to_set. }
  (* the key adjacent to the new pixel that justifies it *)
  assert (component s = [] -> xy = k0 /\ rest = []) as Hfirst.
  { intros HC. destruct (inv_start0 HC) as [H|[H _]]; rewrite Hst in H; [|done].
    by injection H as -> ->. }
  constructor; simpl.
  - rewrite inv_visited0, keysOf_app, list_to_set_app_L. simpl. rewrite Hkp. set_solver.
  - intros q Hq. apply elem_of_app in Hq as [Hq|Hq]; [auto|].
    apply list_elem_of_singleton in Hq as ->. rewrite Hkp.
    intros H0. apply Hxy. rewrite inv_visited0. set_solver.
  - rewrite keysOf_app. apply NoDup_app. split; [done|]. split.
    + intros k Hk Hk'. simpl in Hk'. apply list_elem_of_singleton in Hk'.
      rewrite Hk', Hkp in Hk. done.
    + apply NoDup_singleton.
  - intros q Hq. apply elem_of_app in Hq as [Hq|Hq]; [auto|].
    apply list_elem_of_singleton in Hq as ->. by rewrite Hkp.
  - rewrite length_app. simpl. lia.
  - intros HC. by destruct (component s).
  - intros _ k Hk. destruct (Hst' k Hk) as [Hr|Ha].
    + destruct (decide (component s = [])) as [HC|HC].
      * destruct (Hfirst HC) as [_ ->]. inversion Hr.
      * destruct (inv_stack0 HC k) as (q & Hq & Hqk); [rewrite Hst; set_solver|].
        exists q. split; [set_solver|done].
    + exists p. split; [set_solver|]. by rewrite Hkp.
  - intros q Hq. rewrite keysOf_app.
    assert (forall k, k ∈ keysOf (component s) -> k ∈ keysOf (component s) ++ keysOf [p])
      as Hsub by set_solver.
    apply elem_of_app in Hq as [Hq|Hq]; [by apply (path_mono _ _ _ _ Hsub), inv_path0|].
    apply list_elem_of_singleton in Hq as ->. rewrite Hkp.
    destruct (decide (component s = [])) as [HC|HC].
    + destruct (Hfirst HC) as [-> _]. rewrite HC. constructor. set_solver.
    + destruct (inv_stack0 HC xy) as (q & Hq & Hqk); [rewrite Hst; set_solver|].
      apply path_step with (key q); [|done|set_solver].
      by apply (path_mono _ _ _ _ Hsub), inv_path0.
Qed.


(** Keys pushed by the neighbour loop are adjacent to the popped key. *)
Lemma push_from vis xy rest k :
  k ∈ pushNeighbors width height pixelMap vis xy.1 xy.2 rest -> k ∈ rest \/ adj xy k.
Proof.
  destruct xy as [x y]; simpl. destruct (pushNeighbors_spec vis x y rest) as (new & -> & _ & Hm).
  rewrite elem_of_app. intros [Hk|Hk]; [right; apply Hm, Hk | by left].
Qed.

Lemma dfs_body_inv xy rest s :
  dfs_inv s -> stack s = xy :: rest ->
  dfs_inv (iterState (dfs_body width height pixelMap xy rest s)).
Proof.
  intros Hi Hst.
  destruct (dfs_body_cases xy rest s) as [[Hwhy ->]|(p & Hv & Hp & [[_ ->]|[_ ->]])]; simpl.
  - by eapply dfs_inv_skip.
  - eapply dfs_inv_visit; eauto.
  - eapply dfs_inv_visit; eauto. apply push_from.
Qed.

(** A duplicate-free list of records of the pixel map is no longer than it. *)
Lemma keys_le_size C :
  NoDup (keysOf C) -> (forall p, p ∈ C -> pixelMap !! key p = Some p) ->
  (length C <= size pixelMap)%nat.
Proof.
  intros Hnd Hl. rewrite <- (length_map key),
    <- (size_list_to_set (C := gset (Z * Z)) (map key C)) by apply Hnd.
  rewrite <- (size_dom (D := gset (Z * Z)) pixelMap). apply subseteq_size.
  intros k Hk. apply elem_of_list_to_set, (elem_of_keysOf C) in Hk as (p & Hp & <-).
  eapply elem_of_dom_2, Hl, Hp.
Qed.

(** A component never has more pixels than the pixel map. *)
Lemma component_le_size s :
  dfs_inv s -> (length (component s) <= size pixelMap)%nat.
Proof. intros Hi. apply keys_le_size; apply Hi. Qed.

(** The termination measure of the [while] loop. *)
Definition dfs_measure (s : DfsState) : nat :=
  (9 * (size pixelMap - length (component s)) + length (stack s))%nat.

Lemma dfs_body_progress xy rest s s' :
  dfs_inv s -> stack s = xy :: rest ->
  dfs_body width height pixelMap xy rest s = Continue s' ->
  (dfs_measure s' < dfs_measure s)%nat.
Proof.
  intros Hi Hst Hb. pose proof (dfs_body_inv xy rest s Hi Hst) as Hi'.
  rewrite Hb in Hi'. simpl in Hi'. pose proof (component_le_size s' Hi') as Hle.
  destruct (dfs_body_cases xy rest s) as [[_ E]|(p & _ & _ & [[_ E]|[_ E]])];
    rewrite E in Hb; try discriminate; injection Hb as <-; unfold dfs_measure in *;
    simpl in *; rewrite Hst; simpl.
  - lia.
  - destruct (pushNeighbors_spec ({[xy]} ∪ visited s) xy.1 xy.2 rest) as (new & -> & Hn & _).
    rewrite length_app, length_app in *. simpl in *. lia.
Qed.

Lemma dfs_body_closed xy rest s s' :
  stack s = xy :: rest -> closed s ->
  dfs_body width height pixelMap xy rest s = Continue s' -> closed s'.
Proof.
  intros Hst Hc Hb q n Hq Hqn Hn Hs.
  destruct (dfs_body_cases xy rest s) as [[Hwhy E]|(p & Hv & Hp & [[_ E]|[_ E]])];
    rewrite E in Hb; try discriminate; injection Hb as <-; simpl in *.
  - destruct (Hc q n Hq Hqn Hn Hs) as [?|Hin]; [by left|].
    rewrite Hst in Hin. apply elem_of_cons in Hin as [->|?]; [|by right].
    destruct Hwhy as [?|Hnone]; [by left|]. rewrite Hnone in Hs. by destruct Hs.
  - destruct xy as [x y]. simpl.
    destruct (pushNeighbors_spec ({[(x, y)]} ∪ visited s) x y rest) as (new & -> & _ & Hm).
    destruct (decide (n ∈ {[(x, y)]} ∪ visited s)) as [?|Hnv]; [by left|]. right.
    apply elem_of_app in Hq as [Hq|Hq].
    + destruct (Hc q n Hq Hqn Hn Hs) as [?|Hin]; [set_solver|].
      rewrite Hst in Hin. set_solver.
    + apply list_elem_of_singleton in Hq as ->. rewrite (Hkeyed _ _ Hp) in Hqn.
      apply elem_of_app. left. apply Hm. auto.
Qed.

Lemma dfs_body_count xy rest s :
  processedCount s <= dfs_limit ->
  visited s ⊆ visited (iterState (dfs_body width height pixelMap xy rest s)) /\
  match dfs_body width height pixelMap xy rest s with
  | Continue s' => processedCount s' <= dfs_limit
  | Break s' => processedCount s' = dfs_limit + 1
  end.
Proof.
  intros Hc.
  destruct (dfs_body_cases xy rest s) as [[_ ->]|(p & _ & _ & [[? ->]|[? ->]])];
    simpl; split; try set_solver; lia.
Qed.

(** What the [while] loop leaves, when it returns: the invariant, the
    count, the growth of the visited set, and an empty stack with a
    closed component unless the cap was hit. *)
Lemma dfs_loop_spec fuel s s' :
  dfs_inv s -> processedCount s <= dfs_limit ->
  dfs_loop width height pixelMap fuel s = Some s' ->
  dfs_inv s' /\ processedCount s' <= dfs_limit + 1 /\ visited s ⊆ visited s' /\
  (closed s -> processedCount s' <= dfs_limit -> closed s' /\ stack s' = []).
Proof.
  revert s. induction fuel as [|fuel IH]; intros s Hi Hc Hl; simpl in Hl; [done|].
  destruct (stack s) as [|xy rest] eqn:Hst.
  - injection Hl as <-. split; [done|]. split; [lia|]. split; [set_solver|]. auto.
  - pose proof (dfs_body_inv xy rest s Hi Hst) as Hi'.
    pose proof (dfs_body_count xy rest s Hc) as [Hv Hc'].
    destruct (dfs_body _ _ _ xy rest s) as [s1|s1] eqn:Hb; simpl in *.
    + destruct (IH s1 Hi' Hc' Hl) as (Hi1 & Hc1 & Hv1 & Hcl).
      split; [done|]. split; [done|]. split.
      * intros k Hk. apply Hv1, Hv, Hk.
      * intros Hcs. apply Hcl. eapply dfs_body_closed; eauto.
    + injection Hl as <-. split; [done|]. split; [lia|]. split; [done|]. lia.
Qed.

(** The loop returns whenever the fuel exceeds the measure. *)
Lemma dfs_loop_total fuel s :
  dfs_inv s -> (dfs_measure s < fuel)%nat ->
  is_Some (dfs_loop width height pixelMap fuel s).
Proof.
  revert s. induction fuel as [|fuel IH]; intros s Hi Hm; [lia|]. simpl.
  destruct (stack s) as [|xy rest] eqn:Hst; [by eexists|].
  pose proof (dfs_body_inv xy rest s Hi Hst) as Hi'.
  destruct (dfs_body _ _ _ xy rest s) as [s1|s1] eqn:Hb; [|by eexists].
  apply IH; [done|]. pose proof (dfs_body_progress xy rest s s1 Hi Hst Hb). lia.
Qed.

End Invariant.

(** What one call [dfs(x, y, [])] guarantees, from the visited set [V0]. *)
Record dfs_result (V0 : gset (Z * Z)) (k0 : Z * Z) (V' : gset (Z * Z)) (C : list Pixel) :
    Prop := {
  res_visited : V' = V0 ∪ list_to_set (keysOf C);
  res_fresh : forall p, p ∈ C -> key p ∉ V0;
  res_nodup : NoDup (keysOf C);
  res_lookup : forall p, p ∈ C -> pixelMap !! key p = Some p;
  res_path : forall p q, p ∈ C -> q ∈ C -> path (keysOf C) (key p) (key q);
  res_size : Z.of_nat (length C) <= dfs_limit + 1;
  res_closed : Z.of_nat (length C) <= dfs_limit -> forall p n, p ∈ C -> adj (key p) n ->
    inBounds n -> is_Some (pixelMap !! n) -> n ∈ V';
  res_seed : k0 ∉ V0 -> is_Some (pixelMap !! k0) -> k0 ∈ keysOf C
}.

Section Dfs.

Hypothesis Hkeyed : keyed pixelMap.

(** [dfs] returns (its fuel suffices) and its result is a fresh,
    duplicate-free, 8-connected set of difference pixels containing the
    seed, closed under adjacency unless the cap was hit. *)
Lemma dfs_correct V0 x y :
  exists V' C, dfs width height pixelMap V0 x y [] = Some (V', C) /\
    dfs_result V0 (x, y) V' C.
Proof.
  set (s0 := mkDfs [(x, y)] V0 [] 0).
  pose proof (dfs_inv_init Hkeyed V0 (x, y)) as Hi0.
  destruct (dfs_loop_total Hkeyed V0 (x, y) (dfs_fuel pixelMap s0) s0 Hi0)
    as [s' Hs'].
  { unfold dfs_measure, dfs_fuel. simpl. lia. }
  unfold dfs. fold s0. rewrite Hs'. simpl. exists (visited s'), (component s'). split; [done|].
  destruct (dfs_loop_spec Hkeyed V0 (x, y) _ s0 s' Hi0 ltac:(simpl; unfold dfs_limit; lia) Hs')
    as (Hi & Hc & _ & Hcl).
  assert (closed s0) as Hcl0 by (intros p n Hp; inversion Hp).
  pose proof (inv_count _ _ _ Hi) as Hcnt. unfold dfs_limit in *.
  constructor; try apply Hi.
  - intros p q Hp Hq. apply path_trans with (x, y);
      [apply path_sym|]; by apply (inv_path _ _ _ Hi).
  - unfold dfs_limit. lia.
  - unfold dfs_limit. intros Hlen p n Hp Hpn Hn Hs.
    destruct (Hcl Hcl0 ltac:(lia)) as [Hcl' Hst].
    destruct (Hcl' p n Hp Hpn Hn Hs) as [?|Hin]; [done|]. rewrite Hst in Hin. inversion Hin.
  - intros Hv Hs. destruct (component s') as [|p C] eqn:HC.
    + destruct (inv_start _ _ _ Hi HC) as [Hst|[_ [?|Hn]]]; [|done|].
      * destruct (Hcl Hcl0 ltac:(simpl in Hcnt; lia)) as [_ Hst'].
        congruence.
      * rewrite Hn in Hs. by destruct Hs.
    + rewrite <- HC. apply (path_ends (keysOf (component s')) (x, y) (key p)).
      apply (inv_path _ _ _ Hi). rewrite HC. apply elem_of_cons. by left.
Qed.


(** The visited set is closed under adjacency among difference keys. *)
Definition closedSet (V : gset (Z * Z)) : Prop :=
  forall v n, v ∈ V -> adj v n -> inBounds n -> is_Some (pixelMap !! n) -> n ∈ V.

(** A component holds every adjacent difference key of its pixels. *)
Definition maximal (C : list Pixel) : Prop :=
  forall p n, p ∈ C -> adj (key p) n -> inBounds n -> is_Some (pixelMap !! n) ->
    n ∈ keysOf C.

(** The state of the [forEach] over seeds, all components kept. *)
Record seeds_inv (V : gset (Z * Z)) (CS : list (list Pixel)) : Prop := {
  si_visited : V = list_to_set (concat (map keysOf CS));
  si_nodup : NoDup (concat (map keysOf CS));
  si_comp : forall C, C ∈ CS ->
    C <> [] /\ Z.of_nat (length C) <= dfs_limit + 1 /\
    (forall p, p ∈ C -> pixelMap !! key p = Some p) /\
    (forall p q, p ∈ C -> q ∈ C -> path (keysOf C) (key p) (key q));
  si_closed : (forall k p, pixelMap !! k = Some p -> inBounds k) ->
    Z.of_nat (size pixelMap) <= dfs_limit ->
    closedSet V /\ forall C, C ∈ CS -> maximal C
}.

Lemma seeds_inv_nil : seeds_inv ∅ [].
Proof.
  constructor; simpl.
  - done.
  - constructor.
  - intros C HC. inversion HC.
  - intros _ _. split; [intros v n Hv; set_solver | intros C HC; inversion HC].
Qed.

Lemma seeds_inv_step V CS k V' C :
  seeds_inv V CS -> k ∉ V -> is_Some (pixelMap !! k) -> dfs_result V k V' C ->
  seeds_inv V' (CS ++ [C]).
Proof.
  intros [HV Hnd Hcs Hcl] Hk Hs [Rv Rf Rnd Rl Rp Rsz Rcl Rseed].
  assert (C <> []) as HCne.
  { intros ->. pose proof (Rseed Hk Hs) as H. inversion H. }
  assert (concat (map keysOf (CS ++ [C])) = concat (map keysOf CS) ++ keysOf C) as Hcat.
  { rewrite map_app, concat_app. simpl. by rewrite app_nil_r. }
  constructor; try rewrite Hcat.
  - rewrite Rv, HV, list_to_set_app_L. done.
  - apply NoDup_app. split; [done|]. split; [|done].
    intros k' Hk' Hk'C. apply elem_of_keysOf in Hk'C as (p & Hp & <-).
    apply (Rf p Hp). rewrite HV. by apply elem_of_list_to_set.
  - intros C' HC'. apply elem_of_app in HC' as [HC'|HC']; [by apply Hcs|].
    apply list_elem_of_singleton in HC' as ->. auto.
  - intros Hbounds Hsz. destruct (Hcl Hbounds Hsz) as [HclV Hmax].
    assert (Z.of_nat (length C) <= dfs_limit) as Hlen.
    { pose proof (keys_le_size C Rnd Rl). lia. }
    split.
    + intros v n Hv Hvn Hn Hsn. rewrite Rv in Hv |- *.
      apply elem_of_union in Hv as [Hv|Hv].
      * apply elem_of_union_l. eapply HclV; eauto.
      * apply elem_of_list_to_set, elem_of_keysOf in Hv as (p & Hp & <-).
        rewrite <- Rv. eapply Rcl; eauto.
    + intros C' HC'. apply elem_of_app in HC' as [HC'|HC']; [by apply Hmax|].
      apply list_elem_of_singleton in HC' as ->.
      intros p n Hp Hpn Hn Hsn.
      assert (n ∈ V') as HnV' by (eapply Rcl; eauto). rewrite Rv in HnV'.
      apply elem_of_union in HnV' as [HnV|HnC]; [|by apply elem_of_list_to_set in HnC].
      exfalso. apply (Rf p Hp). eapply HclV;
        [exact HnV | apply adj_sym, Hpn | eapply Hbounds, Rl, Hp | eexists; apply Rl, Hp].
Qed.


(** The [forEach] with every component kept returns, and its result
    accounts for every seed. *)
Lemma forEachSeed_all pix V CS :
  seeds_inv V CS -> (forall p, p ∈ pix -> is_Some (pixelMap !! key p)) ->
  exists R V', forEachSeed width height pixelMap 0 pix V CS = Some R /\
    seeds_inv V' R /\ V ⊆ V' /\ forall p, p ∈ pix -> key p ∈ V'.
Proof.
  revert V CS. induction pix as [|p pix IH]; intros V CS Hi Hs; simpl.
  - exists CS, V. split; [done|]. split; [done|]. split; [done|]. intros p Hp. inversion Hp.
  - case_bool_decide as Hk.
    + destruct (IH V CS Hi) as (R & V' & -> & Hi' & Hsub & Hall); [set_solver|].
      exists R, V'. do 3 (split; [done|]). intros q Hq.
      apply elem_of_cons in Hq as [->|Hq]; [set_solver|auto].
    + destruct (dfs_correct V (px p) (py p)) as (V1 & C & -> & Hr). simpl.
      assert (is_Some (pixelMap !! key p)) as Hp by (apply Hs; set_solver).
      assert (C <> []) as HCne.
      { intros ->. pose proof (res_seed _ _ _ _ Hr Hk Hp) as H. inversion H. }
      destruct C as [|c C]; [done|]. simpl.
      destruct (IH V1 (CS ++ [c :: C])) as (R & V' & -> & Hi' & Hsub & Hall).
      { eapply seeds_inv_step; eauto. }
      { intros q Hq. apply Hs. set_solver. }
      exists R, V'. split; [done|]. split; [done|].
      assert (key p ∈ V1).
      { rewrite (res_visited _ _ _ _ Hr). apply elem_of_union_r, elem_of_list_to_set.
        by apply (res_seed _ _ _ _ Hr). }
      assert (V ⊆ V1) by (rewrite (res_visited _ _ _ _ Hr); set_solver).
      split; [set_solver|]. intros q Hq. apply elem_of_cons in Hq as [->|Hq]; [set_solver|auto].
Qed.

End Dfs.

(** Filtering inside the loop is filtering after it: the loop with a
    size filter keeps exactly the components of size above [m] that the
    loop without it finds, in the same order. *)
Lemma forEachSeed_filter m pix V CS :
  forEachSeed width height pixelMap m pix V (List.filter (fun c => m <? length c)%nat CS) =
  List.filter (fun c => m <? length c)%nat <$> forEachSeed width height pixelMap 0 pix V CS.
Proof.
  revert V CS. induction pix as [|p pix IH]; intros V CS; simpl; [done|].
  case_bool_decide; [apply IH|].
  destruct (dfs width height pixelMap V (px p) (py p) []) as [[V1 C]|]; simpl; [|done].
  rewrite <- IH. f_equal.
  destruct C as [|c C]; simpl.
  - by destruct m.
  - rewrite List.filter_app. simpl. by destruct (m <? S (length C))%nat; rewrite ?app_nil_r.
Qed.

End Proofs.

(** ** The pixel map *)

Lemma foldl_insert_lookup (l : list Pixel) (m : gmap (Z * Z) Pixel) k q :
  foldl (fun m p => <[key p := p]> m) m l !! k = Some q ->
  m !! k = Some q \/ (key q = k /\ q ∈ l).
Proof.
  revert m. induction l as [|p l IH]; intros m H; simpl in H; [by left|].
  destruct (IH _ H) as [Hm|[? ?]]; [|right; split; [done | by apply elem_of_cons; right]].
  destruct (decide (key p = k)) as [<-|Hne].
  - rewrite lookup_insert_eq in Hm. injection Hm as <-. right. split; [done|]. set_solver.
  - rewrite lookup_insert_ne in Hm by done. by left.
Qed.

Lemma foldl_insert_has (l : list Pixel) (m : gmap (Z * Z) Pixel) k :
  is_Some (m !! k) \/ k ∈ keysOf l -> is_Some (foldl (fun m p => <[key p := p]> m) m l !! k).
Proof.
  revert m. induction l as [|p l IH]; intros m H; simpl.
  - destruct H as [?|H]; [done | inversion H].
  - apply IH. destruct H as [H|H].
    + left. destruct (decide (key p = k)) as [<-|?];
        [rewrite lookup_insert_eq | rewrite lookup_insert_ne]; done.
    + simpl in H. apply elem_of_cons in H as [<-|H]; [|by right].
      left. rewrite lookup_insert_eq. by eexists.
Qed.

Lemma foldl_insert_size (l : list Pixel) (m : gmap (Z * Z) Pixel) :
  (size (foldl (fun m p => <[key p := p]> m) m l) <= size m + length l)%nat.
Proof.
  revert m. induction l as [|p l IH]; intros m; simpl; [lia|].
  etransitivity; [apply IH|]. rewrite map_size_insert. destruct (m !! key p); simpl; lia.
Qed.

(** Every record the map holds is a difference record stored under its key. *)
Lemma buildPixelMap_lookup diffs k q :
  buildPixelMap diffs !! k = Some q -> key q = k /\ q ∈ diffs.
Proof.
  intros H. destruct (foldl_insert_lookup diffs ∅ k q H) as [H'|H']; [|done].
  by rewrite lookup_empty in H'.
Qed.

Lemma buildPixelMap_keyed diffs : keyed (buildPixelMap diffs).
Proof. intros k q H. apply (buildPixelMap_lookup diffs k q H). Qed.

(** Every difference key is in the map. *)
Lemma buildPixelMap_has diffs k : k ∈ keysOf diffs <-> is_Some (buildPixelMap diffs !! k).
Proof.
  split.
  - intros Hk. unfold buildPixelMap. apply foldl_insert_has. by right.
  - intros [q Hq]. apply buildPixelMap_lookup in Hq as [<- Hq].
    rewrite elem_of_keysOf. exists q. split; done.
Qed.

Lemma buildPixelMap_size diffs : (size (buildPixelMap diffs) <= length diffs)%nat.
Proof.
  pose proof (foldl_insert_size diffs ∅) as H. rewrite map_size_empty in H. exact H.
Qed.

(** ** The whole segmentation *)

(** Without the size filter the loop returns, and its components satisfy
    the seed-loop invariant and account for every difference pixel. *)
Lemma findConnectedComponentsWith_all width height diffs :
  exists R, findConnectedComponentsWith 0 width height diffs = Some R /\
    seeds_inv width height (buildPixelMap diffs) (list_to_set (concat (map keysOf R))) R /\
    forall p, p ∈ diffs -> key p ∈ concat (map keysOf R).
Proof.
  destruct diffs as [|p0 diffs0] eqn:Hd.
  - exists []. split; [done|]. split; [|intros p Hp; inversion Hp].
    apply seeds_inv_nil, buildPixelMap_keyed.
  - rewrite <- Hd. unfold findConnectedComponentsWith. rewrite Hd. rewrite <- Hd.
    destruct (forEachSeed_all width height (buildPixelMap diffs) (buildPixelMap_keyed diffs)
                diffs ∅ [] ltac:(apply seeds_inv_nil, buildPixelMap_keyed)) as (R & V' & HR & Hi & _ & Hall).
    { intros p Hp. apply buildPixelMap_has, elem_of_keysOf. eauto. }
    exists R. split; [done|]. rewrite <- (si_visited _ _ _ _ _ Hi). split; [done|].
    intros p Hp. pose proof (Hall p Hp) as H. rewrite (si_visited _ _ _ _ _ Hi) in H.
    by apply elem_of_list_to_set in H.
Qed.

(** The code's size filter is a filter after the unfiltered segmentation. *)
Lemma fcc_filter width height diffs :
  findConnectedComponents width height diffs =
  List.filter (fun c => 5 <? length c)%nat <$> findConnectedComponentsWith 0 width height diffs.
Proof.
  unfold findConnectedComponents, findConnectedComponentsWith.
  destruct diffs as [|p diffs]; [done|].
  apply (forEachSeed_filter _ _ _ 5 _ ∅ []).
Qed.

(** The components the code keeps, with the invariant of all components. *)
Lemma fcc_spec width height diffs :
  exists R0, findConnectedComponents width height diffs =
               Some (List.filter (fun c => 5 <? length c)%nat R0) /\
    seeds_inv width height (buildPixelMap diffs) (list_to_set (concat (map keysOf R0))) R0 /\
    forall p, p ∈ diffs -> key p ∈ concat (map keysOf R0).
Proof.
  destruct (findConnectedComponentsWith_all width height diffs) as (R0 & HR0 & Hi & Hall).
  exists R0. rewrite fcc_filter, HR0. auto.
Qed.

(** A component the code keeps is one of the unfiltered components. *)
Lemma kept_component (R0 : list (list Pixel)) (C : list Pixel) :
  C ∈ List.filter (fun c => 5 <? length c)%nat R0 -> C ∈ R0 /\ (5 < length C)%nat.
Proof. rewrite elem_of_List_filter. intros [? ?]. bool_to_prop. done. Qed.

(** Records of a component are difference records. *)
Lemma component_records width height diffs V R0 C p :
  seeds_inv width height (buildPixelMap diffs) V R0 -> C ∈ R0 -> p ∈ C -> p ∈ diffs.
Proof.
  intros Hi HC Hp. destruct (si_comp _ _ _ _ _ Hi C HC) as (_ & _ & Hl & _).
  apply (buildPixelMap_lookup diffs (key p)), Hl, Hp.
Qed.

(** C2: without the size filter, the traversals partition the difference
    pixels: every difference key lies in exactly one component, no
    component is empty, and no key outside the differences is taken. *)
Theorem components_partition width height diffs :
  exists R, findConnectedComponentsWith 0 width height diffs = Some R /\
    NoDup (concat (map keysOf R)) /\
    (forall k, k ∈ concat (map keysOf R) <-> k ∈ keysOf diffs) /\
    (forall C, C ∈ R -> C <> []).
Proof.
  destruct (findConnectedComponentsWith_all width height diffs) as (R & HR & Hi & Hall).
  exists R. split; [done|]. split; [apply Hi|]. split.
  - intros k. split.
    + rewrite elem_of_concat_map. intros (C & HC & Hk).
      apply elem_of_keysOf in Hk as (p & Hp & <-).
      apply elem_of_keysOf. exists p. split; [|done]. eapply component_records; eauto.
    + intros Hk. apply elem_of_keysOf in Hk as (p & Hp & <-). auto.
  - intros C HC. apply (si_comp _ _ _ _ _ Hi C HC).
Qed.

(** C1: [findConnectedComponents] returns on every input: the fuel of
    each traversal suffices and the seed loop is structural. *)
Theorem findConnectedComponents_total width height diffs :
  exists R, findConnectedComponents width height diffs = Some R.
Proof. destruct (fcc_spec width height diffs) as (R0 & HR & _). eauto. Qed.

(** C3: the size filter inside the seed loop keeps exactly the
    unfiltered components of more than five pixels, in discovery order. *)
Theorem findConnectedComponents_refines width height diffs :
  findConnectedComponents width height diffs =
  List.filter (fun c => 5 <? length c)%nat <$> findConnectedComponentsWith 0 width height diffs.
Proof. apply fcc_filter. Qed.

(** C4: every kept component has more than five pixels and at most
    [dfs_limit + 1] (the cap is checked after the pixel is added). *)
Theorem findConnectedComponents_sizes width height diffs :
  exists R, findConnectedComponents width height diffs = Some R /\
    forall C, C ∈ R -> (5 < length C)%nat /\ Z.of_nat (length C) <= dfs_limit + 1.
Proof.
  destruct (fcc_spec width height diffs) as (R0 & HR & Hi & _).
  exists (List.filter (fun c => 5 <? length c)%nat R0). split; [done|].
  intros C HC. apply kept_component in HC as [HC Hlen].
  split; [done|]. apply (si_comp _ _ _ _ _ Hi C HC).
Qed.

(** C5: the kept components are pairwise disjoint, free of duplicate
    keys, and made of difference records. *)
Theorem findConnectedComponents_disjoint width height diffs :
  exists R, findConnectedComponents width height diffs = Some R /\
    NoDup (concat (map keysOf R)) /\ forall C p, C ∈ R -> p ∈ C -> p ∈ diffs.
Proof.
  destruct (fcc_spec width height diffs) as (R0 & HR & Hi & _).
  exists (List.filter (fun c => 5 <? length c)%nat R0). split; [done|]. split.
  - apply NoDup_concat_filter, Hi.
  - intros C p HC Hp. apply kept_component in HC as [HC _]. eapply component_records; eauto.
Qed.

(** C6: any two pixels of a kept component are joined by a path of
    8-adjacent pixels of that component. *)
Theorem findConnectedComponents_connected width height diffs :
  exists R, findConnectedComponents width height diffs = Some R /\
    forall C p q, C ∈ R -> p ∈ C -> q ∈ C -> path (keysOf C) (key p) (key q).
Proof.
  destruct (fcc_spec width height diffs) as (R0 & HR & Hi & _).
  exists (List.filter (fun c => 5 <? length c)%nat R0). split; [done|].
  intros C p q HC. apply kept_component in HC as [HC _]. apply (si_comp _ _ _ _ _ Hi C HC).
Qed.

(** C7: when the difference pixels lie on the canvas and are at most
    [dfs_limit] many, every kept component is maximal: an 8-neighbour of
    one of its pixels that is a difference pixel belongs to it. *)
Theorem findConnectedComponents_maximal width height diffs :
  Forall (fun p => 0 <= px p < width /\ 0 <= py p < height) diffs ->
  Z.of_nat (length diffs) <= dfs_limit ->
  exists R, findConnectedComponents width height diffs = Some R /\
    forall C p n, C ∈ R -> p ∈ C -> adj (key p) n -> n ∈ keysOf diffs -> n ∈ keysOf C.
Proof.
  intros Hb Hlen. rewrite Forall_forall in Hb.
  destruct (fcc_spec width height diffs) as (R0 & HR & Hi & _).
  exists (List.filter (fun c => 5 <? length c)%nat R0). split; [done|].
  assert (forall k, k ∈ keysOf diffs -> inBounds width height k) as Hkb.
  { intros k Hk. apply elem_of_keysOf in Hk as (p & Hp & <-). apply Hb, Hp. }
  destruct (si_closed _ _ _ _ _ Hi) as [_ Hmax].
  - intros k p Hk. apply Hkb, buildPixelMap_has. by eexists.
  - pose proof (buildPixelMap_size diffs). lia.
  - intros C p n HC Hp Hpn Hn. apply kept_component in HC as [HC _].
    apply (Hmax C HC p n Hp Hpn); [by apply Hkb | by apply buildPixelMap_has].
Qed.

(** ** A concrete run *)

(** A square of [n] x [n] difference records at [(x0, y0)]. *)
Definition square (x0 y0 : Z) (n : nat) : list Pixel :=
  flat_map (fun j => map (fun i => mkPixel (x0 + Z.of_nat i) (y0 + Z.of_nat j) 0 0 0 255)
                         (seq 0 n)) (seq 0 n).

(** A 3x3 glyph and a 2x2 speck of noise on a 10x10 canvas. *)
Definition sample_diffs : list Pixel := square 1 1 3 ++ square 7 7 2.

Example sample_components :
  option_map (map length) (findConnectedComponents 10 10 sample_diffs) = Some [9%nat].
Proof. vm_compute. reflexivity. Qed.

Lemma findConnectedComponents_maximal_witness :
  Forall (fun p => 0 <= px p < 10 /\ 0 <= py p < 10) sample_diffs /\
  Z.of_nat (length sample_diffs) <= dfs_limit /\
  exists R, findConnectedComponents 10 10 sample_diffs = Some R /\
    forall C p n, C ∈ R -> p ∈ C -> adj (key p) n -> n ∈ keysOf sample_diffs -> n ∈ keysOf C.
Proof.
  assert (Forall (fun p => 0 <= px p < 10 /\ 0 <= py p < 10) sample_diffs) as Hb.
  { vm_compute. repeat constructor; discriminate. }
  assert (Z.of_nat (length sample_diffs) <= dfs_limit) as Hl.
  { vm_compute. discriminate. }
  split; [exact Hb|]. split; [exact Hl|].
  exact (findConnectedComponents_maximal 10 10 sample_diffs Hb Hl).
Defined.

End Segmenter.
