(* ===== verification/Sequencer.v ===== *)
(** * Sequencer: reading order and frame classification

    [generateAnimationFrames] of src/script.js (lines 193-242) with its
    helpers [getComponentCenter] (lines 340-353) and [isTransitionElement]
    (lines 356-397): the components found by the segmenter are sorted
    with the comparator of lines 208-218 (same row when the centroids'
    [y] differ by less than 30, then by [x], else by [y]), and each
    becomes a [Frame] carrying its pixels, centroid, size and whether it
    is a fast "transition" element.

    Centroids are exact rationals ([Q]).  [Array.prototype.sort] is an
    interface, [ArraySort]: a sort that returns a permutation, sorted
    whenever the comparator is consistent on the array (ECMA-262 leaves
    the order unspecified otherwise); [insertionSort] is an instance. *)

From S2P Require Import Prelude Canvas Segmenter.
From Stdlib Require Import Lqa.

Open Scope Z_scope.

Module Sequencer.

Import Segmenter.

(** [{x, y}] of [getComponentCenter]. *)
Record Center := mkCenter { cx : Q; cy : Q }.

(** [getComponentCenter(component)]: the sums of the coordinates divided
    by the number of pixels. *)
Definition getComponentCenter (component : list Pixel) : Center :=
  let sumX := fold_left (fun s p => s + px p) component 0 in
  let sumY := fold_left (fun s p => s + py p) component 0 in
  mkCenter (inject_Z sumX / inject_Z (Z.of_nat (length component)))
           (inject_Z sumY / inject_Z (Z.of_nat (length component))).

(** The comparator passed to [characters.sort]. *)
Definition compareComponents (a b : list Pixel) : Q :=
  let centerA := getComponentCenter a in
  let centerB := getComponentCenter b in
  if Qabs (cy centerA - cy centerB) <?Q 30 then (cx centerA - cx centerB)%Q
  else (cy centerA - cy centerB)%Q.

(** ** The sort interface *)

(** A comparator is consistent on [l] when [cmp a b <= 0] is a total
    preorder on the elements of [l]. *)
Definition consistent {A} (cmp : A -> A -> Q) (l : list A) : Prop :=
  (forall a b, a ∈ l -> b ∈ l -> (cmp a b <= 0)%Q \/ (cmp b a <= 0)%Q) /\
  (forall a b c, a ∈ l -> b ∈ l -> c ∈ l ->
     (cmp a b <= 0)%Q -> (cmp b c <= 0)%Q -> (cmp a c <= 0)%Q).

(** What [Array.prototype.sort(comparefn)] promises. *)
Class ArraySort := {
  sortBy : forall {A : Type}, (A -> A -> Q) -> list A -> list A;
  sortBy_perm : forall A (cmp : A -> A -> Q) l, Permutation (sortBy cmp l) l;
  sortBy_sorted : forall A (cmp : A -> A -> Q) l,
    consistent cmp l -> Sorted (fun a b => (cmp a b <= 0)%Q) (sortBy cmp l)
}.

(** A stable insertion sort: [x] goes after every [y] with [cmp y x <= 0]. *)
Fixpoint insertBy {A} (cmp : A -> A -> Q) (x : A) (l : list A) : list A :=
  match l with
  | [] => [x]
  | y :: l' => if cmp y x <=?Q 0 then y :: insertBy cmp x l' else x :: l
  end.

Definition insertionSortBy {A} (cmp : A -> A -> Q) (l : list A) : list A :=
  fold_left (fun acc x => insertBy cmp x acc) l [].

Section InsertionSort.

Context {A : Type} (cmp : A -> A -> Q).

Lemma insertBy_perm x l : Permutation (insertBy cmp x l) (x :: l).
Proof.
  induction l as [|y l IH]; simpl; [done|].
  destruct (cmp y x <=?Q 0); [|done].
  etransitivity; [apply perm_skip, IH|]. apply perm_swap.
Qed.

Lemma insertionSortBy_perm_acc l acc :
  Permutation (fold_left (fun acc x => insertBy cmp x acc) l acc) (acc ++ l).
Proof.
  revert acc. induction l as [|x l IH]; intros acc; simpl; [by rewrite app_nil_r|].
  etransitivity; [apply IH|]. rewrite insertBy_perm. simpl. apply Permutation_middle.
Qed.

(** The elements the comparator is consistent on. *)
Context (P : A -> Prop).
Hypothesis Htotal : forall a b, P a -> P b -> (cmp a b <= 0)%Q \/ (cmp b a <= 0)%Q.
Hypothesis Htrans : forall a b c, P a -> P b -> P c ->
  (cmp a b <= 0)%Q -> (cmp b c <= 0)%Q -> (cmp a c <= 0)%Q.

Let le a b := (cmp a b <= 0)%Q.

Lemma insertBy_sorted x l :
  P x -> Forall P l -> Sorted le l -> Sorted le (insertBy cmp x l).
Proof.
  induction l as [|y l IH]; intros Hx Hl Hs; simpl; [auto|].
  apply Forall_cons in Hl as [Hy Hl]. apply Sorted_inv in Hs as [Hs Hhd].
  destruct (cmp y x <=?Q 0) eqn:E.
  - apply Qle_bool_iff in E. constructor; [by apply IH|].
    destruct l as [|z l]; simpl; [by constructor|].
    destruct (cmp z x <=?Q 0); constructor; [by inversion Hhd | done].
  - assert (le x y) as Hxy.
    { destruct (Htotal x y Hx Hy) as [?|Hyx]; [done|]. apply Qle_bool_iff in Hyx. congruence. }
    constructor; [by constructor|]. by constructor.
Qed.

Lemma insertionSortBy_sorted_acc l acc :
  Forall P l -> Forall P acc -> Sorted le acc ->
  Sorted le (fold_left (fun acc x => insertBy cmp x acc) l acc).
Proof.
  revert acc. induction l as [|x l IH]; intros acc Hl Hacc Hs; simpl; [done|].
  apply Forall_cons in Hl as [Hx Hl]. apply IH; [done| |by apply insertBy_sorted].
  apply Forall_forall. intros y Hy. rewrite (insertBy_perm x acc) in Hy.
  apply elem_of_cons in Hy as [->|Hy]; [done|]. by eapply Forall_forall.
Qed.

End InsertionSort.

(** The insertion sort is a conforming [Array.prototype.sort]. *)
#[export] Instance insertionSort : ArraySort.
Proof.
  refine {| sortBy := @insertionSortBy |}.
  - intros A cmp l. unfold insertionSortBy. rewrite insertionSortBy_perm_acc. done.
  - intros A cmp l [Htot Htr]. unfold insertionSortBy.
    apply (insertionSortBy_sorted_acc cmp (fun a => a ∈ l)); auto.
    + apply Forall_forall. auto.
Defined.

(** ** Frames *)

(** The frame object built in the [characters.map] callback. *)
Record Frame := mkFrame {
  pixels : list Pixel;
  center : Center;
  isTransition : bool;
  size : nat
}.

(** [isTransitionElement(character, allCharacters, index)], its checks in
    the code's order. *)
Definition isTransitionElement (character : list Pixel) (allCharacters : list (list Pixel))
    (index : nat) : bool :=
  let center := getComponentCenter character in
  let size := length character in
  if (size <? 100)%nat then true
  else if (0 <? index)%nat &&
          match allCharacters !! (index - 1)%nat with
          | Some prev => 30 <?Q Qabs (cy center - cy (getComponentCenter prev))
          | None => false
          end then true
  else if (cx center <?Q 150) && (size <? 300)%nat then true
  else if (size <? 200)%nat then true
  else if (index <? length allCharacters - 1)%nat &&
          match allCharacters !! (index + 1)%nat with
          | Some next => 30 <?Q Qabs (cy (getComponentCenter next) - cy center)
          | None => false
          end then true
  else false.

(** [characters.map((character, index) => ({pixels, center, isTransition, size}))]. *)
Definition toFrames (characters : list (list Pixel)) : list Frame :=
  imap (fun index character =>
          mkFrame character (getComponentCenter character)
            (isTransitionElement character characters index) (length character))
       characters.

(** [generateAnimationFrames()]: segment, stop on no component, sort in
    place, then map to frames.  [None] is a traversal out of fuel, which
    the segmenter's termination theorem rules out. *)
Definition generateAnimationFrames `{ArraySort} (width height : Z)
    (differenceData : list Pixel) : option (list Frame) :=
  characters ← findConnectedComponents width height differenceData;
  match characters with
  | [] => Some []
  | _ => Some (toFrames (sortBy compareComponents characters))
  end.

(** ** Lemmas *)

(** A decision procedure for [consistent]. *)
Definition consistentb {A} (cmp : A -> A -> Q) (l : list A) : bool :=
  forallb (fun a => forallb (fun b => (cmp a b <=?Q 0) || (cmp b a <=?Q 0)) l) l &&
  forallb (fun a => forallb (fun b => forallb (fun c =>
    negb ((cmp a b <=?Q 0) && (cmp b c <=?Q 0)) || (cmp a c <=?Q 0)) l) l) l.

Lemma consistentb_sound {A} (cmp : A -> A -> Q) l :
  consistentb cmp l = true -> consistent cmp l.
Proof.
  unfold consistentb. rewrite andb_true_iff, !forallb_forall. intros [Htot Htr]. split.
  - intros a b Ha Hb. apply list_elem_of_In in Ha, Hb.
    specialize (Htot a Ha). rewrite forallb_forall in Htot. specialize (Htot b Hb).
    apply orb_true_iff in Htot as [H|H]; apply Qle_bool_iff in H; auto.
  - intros a b c Ha Hb Hc Hab Hbc. apply list_elem_of_In in Ha, Hb, Hc.
    specialize (Htr a Ha). rewrite forallb_forall in Htr. specialize (Htr b Hb).
    rewrite forallb_forall in Htr. specialize (Htr c Hc).
    apply Qle_bool_iff in Hab, Hbc. rewrite Hab, Hbc in Htr. simpl in Htr.
    by apply Qle_bool_iff.
Qed.

Lemma map_imap {A B C} (g : B -> C) (f : nat -> A -> B) (l : list A) (h : A -> C) :
  (forall i x, g (f i x) = h x) -> map g (imap f l) = map h l.
Proof.
  revert f. induction l as [|x l IH]; intros f Hf; simpl; [done|].
  rewrite Hf. f_equal. apply IH. intros. apply Hf.
Qed.

Lemma Forall_imap {A B} (P : B -> Prop) (f : nat -> A -> B) (l : list A) :
  (forall i x, x ∈ l -> P (f i x)) -> Forall P (imap f l).
Proof.
  revert f. induction l as [|x l IH]; intros f Hf; simpl; constructor.
  - apply Hf. apply elem_of_cons. by left.
  - apply IH. intros i y Hy. apply Hf. apply elem_of_cons. by right.
Qed.

Lemma Sorted_imap {A B} (RA : A -> A -> Prop) (RB : B -> B -> Prop) (f : nat -> A -> B) (l : list A) :
  (forall i j x y, RA x y -> RB (f i x) (f j y)) -> Sorted RA l -> Sorted RB (imap f l).
Proof.
  revert f. induction l as [|x l IH]; intros f Hf Hs; simpl; [constructor|].
  apply Sorted_inv in Hs as [Hs Hhd]. constructor; [apply IH; [intros; by apply Hf | done]|].
  destruct l as [|z l]; simpl; constructor. inversion Hhd. by apply Hf.
Qed.

(** The frames of a sorted component list: their pixels are the
    components, in order, and their size and centre are computed from
    them. *)
Lemma toFrames_pixels characters : map pixels (toFrames characters) = characters.
Proof. unfold toFrames. rewrite (map_imap _ _ _ id); [apply map_id | done]. Qed.

(** Reading order between two centres. *)
Definition readingBefore (a b : Center) : Prop :=
  ((Qabs (cy a - cy b) < 30)%Q /\ (cx a <= cx b)%Q) \/
  ((30 <= Qabs (cy a - cy b))%Q /\ (cy a <= cy b)%Q).

Lemma compare_readingBefore a b :
  (compareComponents a b <= 0)%Q -> readingBefore (getComponentCenter a) (getComponentCenter b).
Proof.
  unfold compareComponents, readingBefore.
  destruct (_ <?Q 30) eqn:E; intros H; [left | right].
  - apply Qltb_iff in E. split; [done | lra].
  - apply Qltb_false in E. split; [done | lra].
Qed.

(** The pixels of every generated frame are difference records. *)
Lemma generateAnimationFrames_records `{ArraySort} w h diffs fs :
  generateAnimationFrames w h diffs = Some fs ->
  forall f p, f ∈ fs -> p ∈ pixels f -> p ∈ diffs.
Proof.
  destruct (fcc_spec w h diffs) as (R0 & HR & Hi & _).
  unfold generateAnimationFrames. rewrite HR. simpl.
  destruct (List.filter _ R0) as [|c R'] eqn:HRe; intros [= <-] f p Hf Hp; [inversion Hf|].
  assert (pixels f ∈ List.filter (fun c => 5 <? length c)%nat R0) as Hc.
  { rewrite HRe, <- (sortBy_perm _ compareComponents (c :: R')), <- toFrames_pixels.
    by apply list_elem_of_fmap_2. }
  apply kept_component in Hc as [Hc _]. eapply component_records; eauto.
Qed.

(** A component of fewer than 100 pixels is a transition frame, wherever
    it stands. *)
Lemma isTransitionElement_small c l i :
  (length c < 100)%nat -> isTransitionElement c l i = true.
Proof. intros Hc. unfold isTransitionElement. by rewrite (proj2 (Nat.ltb_lt _ _) Hc). Qed.

(** One kept component gives one frame. *)
Lemma generateAnimationFrames_single `{ArraySort} w h d c :
  findConnectedComponents w h d = Some [c] ->
  generateAnimationFrames w h d =
    Some [mkFrame c (getComponentCenter c) (isTransitionElement c [c] 0) (length c)].
Proof.
  unfold generateAnimationFrames. intros ->. simpl.
  pose proof (sortBy_perm _ compareComponents [c]) as Hp. symmetry in Hp.
  apply Permutation_length_1_inv in Hp. by rewrite Hp.
Qed.

(** C13: the five ordered checks of [isTransitionElement] amount to one
    disjunction, in which [size < 100] is subsumed by [size < 200]. *)
Theorem isTransitionElement_spec c all i :
  isTransitionElement c all i =
    (length c <? 200)%nat
    || ((0 <? i)%nat &&
        match all !! (i - 1)%nat with
        | Some prev => 30 <?Q Qabs (cy (getComponentCenter c) - cy (getComponentCenter prev))
        | None => false
        end)
    || ((i <? length all - 1)%nat &&
        match all !! (i + 1)%nat with
        | Some next => 30 <?Q Qabs (cy (getComponentCenter next) - cy (getComponentCenter c))
        | None => false
        end)
    || ((cx (getComponentCenter c) <?Q 150) && (length c <? 300)%nat).
Proof.
  unfold isTransitionElement. cbv zeta.
  destruct (Nat.ltb_spec (length c) 100), (Nat.ltb_spec (length c) 200); try lia; simpl;
    repeat match goal with |- context [if ?b then _ else _] => destruct b end;
    rewrite ?orb_true_r; reflexivity.
Qed.

(** C14: [generateAnimationFrames] returns one frame per kept component:
    the frames' pixels are a permutation of the components, and each
    frame's size and centre are those of its pixels. *)
Theorem generateAnimationFrames_plan `{ArraySort} w h diffs :
  exists R fs, findConnectedComponents w h diffs = Some R /\
    generateAnimationFrames w h diffs = Some fs /\
    Permutation (map pixels fs) R /\
    Forall (fun f => size f = length (pixels f) /\
                     center f = getComponentCenter (pixels f) /\ (5 < size f)%nat) fs.
Proof.
  destruct (fcc_spec w h diffs) as (R0 & HR & _).
  set (R := List.filter (fun c => 5 <? length c)%nat R0) in *.
  unfold generateAnimationFrames. rewrite HR. simpl.
  exists R. destruct R as [|c R'] eqn:HRe.
  - exists []. split; [done|]. split; [done|]. split; constructor.
  - eexists. split; [done|]. split; [done|]. split.
    + rewrite toFrames_pixels. apply sortBy_perm.
    + apply Forall_imap. intros i x Hx. simpl. split; [done|]. split; [done|].
      rewrite (sortBy_perm _ compareComponents (c :: R')) in Hx. rewrite <- HRe in Hx.
      by apply kept_component in Hx as [_ ?].
Qed.

(** C15: when the comparator is consistent on the components, the frames
    come in reading order: consecutive frames are on one row (centres
    less than 30 apart vertically) from left to right, or the later one
    is lower. *)
Theorem generateAnimationFrames_reading_order `{ArraySort} w h diffs R :
  findConnectedComponents w h diffs = Some R -> consistent compareComponents R ->
  exists fs, generateAnimationFrames w h diffs = Some fs /\
    Sorted (fun f g => readingBefore (center f) (center g)) fs.
Proof.
  intros HR Hc. unfold generateAnimationFrames. rewrite HR. simpl.
  destruct R as [|c R']; [eexists; split; [done | constructor]|].
  eexists. split; [done|]. unfold toFrames. eapply Sorted_imap; [|apply sortBy_sorted, Hc].
  intros i j x y Hxy. simpl. by apply compare_readingBefore.
Qed.

(** The comparator is antisymmetric: swapping its arguments negates
    its result. *)
Theorem compareComponents_antisym a b :
  (compareComponents a b == - compareComponents b a)%Q.
Proof.
  unfold compareComponents.
  rewrite (Qabs_Qminus (cy (getComponentCenter b))).
  destruct (_ <?Q 30); lra.
Qed.

(** ** Concrete runs *)

(** Two 3x3 glyphs side by side on one row. *)
Definition sample_row : list Pixel := square 1 1 3 ++ square 5 1 3.

Example sample_row_frames :
  option_map (map (fun f => (px (hd (mkPixel 0 0 0 0 0 0) (pixels f)), isTransition f)))
    (generateAnimationFrames 10 10 sample_row) = Some [(1, true); (5, true)].
Proof. vm_compute. reflexivity. Qed.

(** C35: the comparator is not transitive across the row band.  For any
    three glyphs whose centres climb a staircase (each within 30 pixels
    of the next vertically, left to right, the first at least 30 below
    the last), it orders them in a cycle, so it is not consistent on
    them: the order [sort] produces then depends on the engine's
    algorithm, which the spec accepts. *)
Theorem compareComponents_cycle a b c :
  (Qabs (cy (getComponentCenter a) - cy (getComponentCenter b)) < 30)%Q ->
  (Qabs (cy (getComponentCenter b) - cy (getComponentCenter c)) < 30)%Q ->
  (cy (getComponentCenter c) + 30 <= cy (getComponentCenter a))%Q ->
  (cx (getComponentCenter a) < cx (getComponentCenter b))%Q ->
  (cx (getComponentCenter b) < cx (getComponentCenter c))%Q ->
  (compareComponents a b < 0)%Q /\ (compareComponents b c < 0)%Q /\
  (compareComponents c a < 0)%Q /\ ~ consistent compareComponents [a; b; c].
Proof.
  intros Hab Hbc Hca Hx1 Hx2.
  assert (compareComponents a b = cx (getComponentCenter a) - cx (getComponentCenter b))%Q as E1
    by (unfold compareComponents; by rewrite (proj2 (Qltb_iff _ _) Hab)).
  assert (compareComponents b c = cx (getComponentCenter b) - cx (getComponentCenter c))%Q as E2
    by (unfold compareComponents; by rewrite (proj2 (Qltb_iff _ _) Hbc)).
  assert (compareComponents c a = cy (getComponentCenter c) - cy (getComponentCenter a))%Q as E3.
  { unfold compareComponents. rewrite (proj2 (Qltb_false _ _)); [done|].
    rewrite Qabs_Qminus. eapply Qle_trans; [|apply Qle_Qabs]. lra. }
  assert (compareComponents a c = cy (getComponentCenter a) - cy (getComponentCenter c))%Q as E4.
  { unfold compareComponents. rewrite (proj2 (Qltb_false _ _)); [done|].
    eapply Qle_trans; [|apply Qle_Qabs]. lra. }
  rewrite E1, E2, E3. split; [lra|]. split; [lra|]. split; [lra|].
  intros [_ Htr]. specialize (Htr a b c ltac:(set_solver) ltac:(set_solver) ltac:(set_solver)).
  rewrite E1, E2, E4 in Htr. lra.
Qed.

(** The staircase of three 3x3 glyphs, 15 apart vertically. *)
Lemma compareComponents_cycle_witness :
  (Qabs (cy (getComponentCenter (square 0 30 3)) - cy (getComponentCenter (square 10 15 3))) < 30)%Q /\
  (compareComponents (square 20 0 3) (square 0 30 3) < 0)%Q.
Proof.
  assert (Qabs (cy (getComponentCenter (square 0 30 3)) - cy (getComponentCenter (square 10 15 3))) < 30)%Q
    as H1 by (apply Qltb_iff; vm_compute; reflexivity).
  split; [exact H1|].
  refine (proj1 (proj2 (proj2 (compareComponents_cycle _ _ _ H1 _ _ _ _))));
    first [apply Qltb_iff | apply Qle_bool_iff]; vm_compute; reflexivity.
Defined.

Lemma generateAnimationFrames_reading_order_witness :
  findConnectedComponents 10 10 sample_row =
    Some (default [] (findConnectedComponents 10 10 sample_row)) /\
  consistent compareComponents (default [] (findConnectedComponents 10 10 sample_row)) /\
  exists fs, generateAnimationFrames 10 10 sample_row = Some fs /\
    Sorted (fun f g => readingBefore (center f) (center g)) fs.
Proof.
  assert (findConnectedComponents 10 10 sample_row =
            Some (default [] (findConnectedComponents 10 10 sample_row))) as H1.
  { vm_compute. reflexivity. }
  assert (consistent compareComponents (default [] (findConnectedComponents 10 10 sample_row)))
    as H2.
  { apply consistentb_sound. vm_compute. reflexivity. }
  split; [exact H1|]. split; [exact H2|].
  exact (generateAnimationFrames_reading_order 10 10 sample_row _ H1 H2).
Defined.

End Sequencer.
