(* ===== verification/Scheduler.v ===== *)
(** * Scheduler: the playback state machine

    The animator's fields (the [AnswerAnimator] object of src/script.js,
    constructor lines 2-13) and the playback handlers: [startAnimation]
    (399-407), [animateFrame] (409-457), [pauseAnimation] (459-468),
    [resetAnimation] (470-485), [completeAnimation] (487-499) and the
    speed slider's input listener (46-53).  The page's buttons are
    [Controls] (their [disabled] flags), the progress bar's width is
    [progress] (percent, a rational), the status line is [status].

    [setTimeout] is modelled by the list [timers] of pending callbacks,
    each an id (the handle [setTimeout] returns, from [nextTimerId]) and
    its delay; [clearTimeout] removes the callback with that id.  A
    pending callback may fire at any time: [handle] is the page's reaction
    to one event (a click on an enabled button, the slider, or a pending
    timer firing), [None] when the event cannot happen. *)

From S2P Require Import Prelude Canvas Segmenter Sequencer.

Open Scope Z_scope.

Module Scheduler.

Import Segmenter Sequencer.

(** The [disabled] flags of the four buttons. *)
Record Controls := mkControls {
  processDisabled : bool;
  playDisabled : bool;
  pauseDisabled : bool;
  resetDisabled : bool
}.

Definition setProcessDisabled (b : bool) (c : Controls) : Controls :=
  mkControls b (playDisabled c) (pauseDisabled c) (resetDisabled c).
Definition setPlayDisabled (b : bool) (c : Controls) : Controls :=
  mkControls (processDisabled c) b (pauseDisabled c) (resetDisabled c).
Definition setPauseDisabled (b : bool) (c : Controls) : Controls :=
  mkControls (processDisabled c) (playDisabled c) b (resetDisabled c).
Definition setResetDisabled (b : bool) (c : Controls) : Controls :=
  mkControls (processDisabled c) (playDisabled c) (pauseDisabled c) b.

(** Why processing failed: the messages of the errors [processImages]
    throws. *)
Inductive ProcessError :=
| ImagesNotLoaded     (* '图片未正确加载' *)
| NoDifference        (* '未检测到图片差异，...' *)
| NoTextRegions       (* '未能识别到有效的文字区域' *)
| RecognitionFailed.  (* '文字识别失败: ...' *)

(** The status line's messages, by the code's strings. *)
Inductive Message :=
| MsgBlankLoaded | MsgAnswerLoaded | MsgReady | MsgProcessing | MsgProcessed
| MsgProcessError (e : ProcessError) | MsgReset | MsgComplete | MsgInitial.

(** [updateStatus(message, type = 'info')]: the class is [info] or [success]. *)
Inductive StatusKind := Info | Success.

Record Status := mkStatus { message : Message; kind : StatusKind }.

Record Animator := mkAnimator {
  canvas : ImageData;
  blankImage : option ImageData;
  answerImage : option ImageData;
  differenceData : list Pixel;
  animationFrames : list Frame;
  currentFrame : nat;
  isAnimating : bool;
  animationSpeed : Z;
  fastTransitionSpeed : Z;
  animationTimer : option nat;
  timers : list (nat * Z);
  nextTimerId : nat;
  progress : Q;
  controls : Controls;
  status : Status
}.

Definition set_canvas (v : ImageData) (s : Animator) : Animator :=
  mkAnimator v (blankImage s) (answerImage s) (differenceData s) (animationFrames s)
    (currentFrame s) (isAnimating s) (animationSpeed s) (fastTransitionSpeed s)
    (animationTimer s) (timers s) (nextTimerId s) (progress s) (controls s) (status s).
Definition set_blankImage (v : option ImageData) (s : Animator) : Animator :=
  mkAnimator (canvas s) v (answerImage s) (differenceData s) (animationFrames s)
    (currentFrame s) (isAnimating s) (animationSpeed s) (fastTransitionSpeed s)
    (animationTimer s) (timers s) (nextTimerId s) (progress s) (controls s) (status s).
Definition set_answerImage (v : option ImageData) (s : Animator) : Animator :=
  mkAnimator (canvas s) (blankImage s) v (differenceData s) (animationFrames s)
    (currentFrame s) (isAnimating s) (animationSpeed s) (fastTransitionSpeed s)
    (animationTimer s) (timers s) (nextTimerId s) (progress s) (controls s) (status s).
Definition set_differenceData (v : list Pixel) (s : Animator) : Animator :=
  mkAnimator (canvas s) (blankImage s) (answerImage s) v (animationFrames s)
    (currentFrame s) (isAnimating s) (animationSpeed s) (fastTransitionSpeed s)
    (animationTimer s) (timers s) (nextTimerId s) (progress s) (controls s) (status s).
Definition set_animationFrames (v : list Frame) (s : Animator) : Animator :=
  mkAnimator (canvas s) (blankImage s) (answerImage s) (differenceData s) v
    (currentFrame s) (isAnimating s) (animationSpeed s) (fastTransitionSpeed s)
    (animationTimer s) (timers s) (nextTimerId s) (progress s) (controls s) (status s).
Definition set_currentFrame (v : nat) (s : Animator) : Animator :=
  mkAnimator (canvas s) (blankImage s) (answerImage s) (differenceData s)
    (animationFrames s) v (isAnimating s) (animationSpeed s) (fastTransitionSpeed s)
    (animationTimer s) (timers s) (nextTimerId s) (progress s) (controls s) (status s).
Definition set_isAnimating (v : bool) (s : Animator) : Animator :=
  mkAnimator (canvas s) (blankImage s) (answerImage s) (differenceData s)
    (animationFrames s) (currentFrame s) v (animationSpeed s) (fastTransitionSpeed s)
    (animationTimer s) (timers s) (nextTimerId s) (progress s) (controls s) (status s).
Definition set_animationSpeed (v : Z) (s : Animator) : Animator :=
  mkAnimator (canvas s) (blankImage s) (answerImage s) (differenceData s)
    (animationFrames s) (currentFrame s) (isAnimating s) v (fastTransitionSpeed s)
    (animationTimer s) (timers s) (nextTimerId s) (progress s) (controls s) (status s).
Definition set_fastTransitionSpeed (v : Z) (s : Animator) : Animator :=
  mkAnimator (canvas s) (blankImage s) (answerImage s) (differenceData s)
    (animationFrames s) (currentFrame s) (isAnimating s) (animationSpeed s) v
    (animationTimer s) (timers s) (nextTimerId s) (progress s) (controls s) (status s).
Definition set_animationTimer (v : option nat) (s : Animator) : Animator :=
  mkAnimator (canvas s) (blankImage s) (answerImage s) (differenceData s)
    (animationFrames s) (currentFrame s) (isAnimating s) (animationSpeed s)
    (fastTransitionSpeed s) v (timers s) (nextTimerId s) (progress s) (controls s)
    (status s).
Definition set_timers (v : list (nat * Z)) (s : Animator) : Animator :=
  mkAnimator (canvas s) (blankImage s) (answerImage s) (differenceData s)
    (animationFrames s) (currentFrame s) (isAnimating s) (animationSpeed s)
    (fastTransitionSpeed s) (animationTimer s) v (nextTimerId s) (progress s) (controls
    s) (status s).
Definition set_nextTimerId (v : nat) (s : Animator) : Animator :=
  mkAnimator (canvas s) (blankImage s) (answerImage s) (differenceData s)
    (animationFrames s) (currentFrame s) (isAnimating s) (animationSpeed s)
    (fastTransitionSpeed s) (animationTimer s) (timers s) v (progress s) (controls s)
    (status s).
Definition set_progress (v : Q) (s : Animator) : Animator :=
  mkAnimator (canvas s) (blankImage s) (answerImage s) (differenceData s)
    (animationFrames s) (currentFrame s) (isAnimating s) (animationSpeed s)
    (fastTransitionSpeed s) (animationTimer s) (timers s) (nextTimerId s) v (controls s)
    (status s).
Definition set_controls (v : Controls) (s : Animator) : Animator :=
  mkAnimator (canvas s) (blankImage s) (answerImage s) (differenceData s)
    (animationFrames s) (currentFrame s) (isAnimating s) (animationSpeed s)
    (fastTransitionSpeed s) (animationTimer s) (timers s) (nextTimerId s) (progress s) v
    (status s).
Definition set_status (v : Status) (s : Animator) : Animator :=
  mkAnimator (canvas s) (blankImage s) (answerImage s) (differenceData s)
    (animationFrames s) (currentFrame s) (isAnimating s) (animationSpeed s)
    (fastTransitionSpeed s) (animationTimer s) (timers s) (nextTimerId s) (progress s)
    (controls s) v.

(** The page as the constructor leaves it, on the canvas element [cv]:
    [currentFrame = 0], not animating, [animationSpeed = 14],
    [fastTransitionSpeed = 1], no timer.  Timer handles start at 1. *)
Definition AnswerAnimator (cv : ImageData) (ctl : Controls) : Animator :=
  mkAnimator cv None None [] [] 0 false 14 1 None [] 1 0 ctl (mkStatus MsgInitial Info).

(** The buttons as index.html declares them: all four disabled. *)
Definition initialControls : Controls := mkControls true true true true.

(** [clearTimeout(id)]: the pending callback with that handle is dropped. *)
Definition clearTimeout (id : nat) (tms : list (nat * Z)) : list (nat * Z) :=
  List.filter (fun t => negb (Nat.eqb t.1 id)) tms.

(** [this.animationTimer = setTimeout(() => this.animateFrame(), delay)]. *)
Definition setTimeout (delay : Z) (s : Animator) : Animator :=
  let id := nextTimerId s in
  set_nextTimerId (S id) (set_animationTimer (Some id) (set_timers (timers s ++ [(id, delay)]) s)).

(** [completeAnimation()]: stop, re-enable play, fill the progress bar,
    then [clearRect] and [drawImage(this.answerImage, 0, 0)]; a missing
    answer image makes [drawImage] throw after the [clearRect], skipping
    the status update. *)
Definition completeAnimation (s : Animator) : Animator :=
  let s := set_isAnimating false s in
  let s := set_controls (setPauseDisabled true (setPlayDisabled false (controls s))) s in
  let s := set_progress 100 s in
  let w := width (canvas s) in
  let h := height (canvas s) in
  match answerImage s with
  | None => set_canvas (cleared w h) s
  | Some img => set_status (mkStatus MsgComplete Success) (set_canvas (clearAndDraw w h img) s)
  end.

(** The progress bar's width after frame [currentFrame]:
    [((currentFrame + 1) / animationFrames.length) * 100]. *)
Definition progressAfter (currentFrame total : nat) : Q :=
  (inject_Z (Z.of_nat (currentFrame + 1)) / inject_Z (Z.of_nat total) * 100)%Q.

(** [animateFrame()]: complete when stopped or past the last frame;
    otherwise write every pixel of the current frame, advance the
    progress and the index, and schedule the next call after the fast
    delay for a transition frame, the content delay otherwise. *)
Definition animateFrame (s : Animator) : Animator :=
  if negb (isAnimating s) || (length (animationFrames s) <=? currentFrame s)%nat
  then completeAnimation s
  else
    match animationFrames s !! currentFrame s with
    | None => s
    | Some frame =>
        let s := set_canvas (fold_left putImageData1 (pixels frame) (canvas s)) s in
        let s := set_progress (progressAfter (currentFrame s) (length (animationFrames s))) s in
        let s := set_currentFrame (S (currentFrame s)) s in
        let nextDelay := if isTransition frame then fastTransitionSpeed s else animationSpeed s in
        setTimeout nextDelay s
    end.

(** [startAnimation()]: nothing without frames; otherwise start, swap
    the buttons and draw the first frame at once. *)
Definition startAnimation (s : Animator) : Animator :=
  match animationFrames s with
  | [] => s
  | _ =>
      let s := set_isAnimating true s in
      let s := set_controls (setPauseDisabled false (setPlayDisabled true (controls s))) s in
      animateFrame s
  end.

(** [pauseAnimation()]: stop and cancel the last scheduled callback. *)
Definition pauseAnimation (s : Animator) : Animator :=
  let s := set_isAnimating false s in
  let s := match animationTimer s with
           | Some id => set_animationTimer None (set_timers (clearTimeout id (timers s)) s)
           | None => s
           end in
  set_controls (setPauseDisabled true (setPlayDisabled false (controls s))) s.

(** [resetAnimation()]: pause, rewind, repaint the blank image, empty the
    progress bar; a missing blank image throws after the [clearRect]. *)
Definition resetAnimation (s : Animator) : Animator :=
  let s := pauseAnimation s in
  let s := set_currentFrame 0 s in
  let w := width (canvas s) in
  let h := height (canvas s) in
  match blankImage s with
  | None => set_canvas (cleared w h) s
  | Some img =>
      let s := set_canvas (clearAndDraw w h img) s in
      let s := set_progress 0 s in
      let s := set_controls (setResetDisabled false (setPlayDisabled false (controls s))) s in
      set_status (mkStatus MsgReset Info) s
  end.

(** The slider mapping [50 - speed * 4]. *)
Definition speedToDelay (speed : Z) : Z := 50 - speed * 4.

(** The [input] listener of the speed slider. *)
Definition onSpeedInput (speed : Z) (s : Animator) : Animator :=
  set_fastTransitionSpeed 1 (set_animationSpeed (speedToDelay speed) s).

(** A pending callback with handle [id] runs [animateFrame()]. *)
Definition fireTimer (id : nat) (s : Animator) : option Animator :=
  match List.find (fun t => Nat.eqb t.1 id) (timers s) with
  | Some _ => Some (animateFrame (set_timers (clearTimeout id (timers s)) s))
  | None => None
  end.

(** The events of playback. *)
Inductive PlaybackEvent :=
| ClickPlay | ClickPause | ClickReset | SpeedInput (speed : Z) | TimerFires (id : nat).

(** The page's reaction to one event; a click on a disabled button, a
    slider value outside its range 0..10, or a timer that is not pending
    cannot happen. *)
Definition handlePlayback (e : PlaybackEvent) (s : Animator) : option Animator :=
  match e with
  | ClickPlay => if playDisabled (controls s) then None else Some (startAnimation s)
  | ClickPause => if pauseDisabled (controls s) then None else Some (pauseAnimation s)
  | ClickReset => if resetDisabled (controls s) then None else Some (resetAnimation s)
  | SpeedInput speed =>
      if (0 <=? speed) && (speed <=? 10) then Some (onSpeedInput speed s) else None
  | TimerFires id => fireTimer id s
  end.

(** ** Playing the frames *)

(** Let the first pending callback fire, [n] times. *)
Fixpoint runTicks (n : nat) (s : Animator) : Animator :=
  match n with
  | O => s
  | S n' =>
      match timers s with
      | (id, _) :: _ => match fireTimer id s with Some s' => runTicks n' s' | None => s end
      | [] => s
      end
  end.

(** A state ready to play the frames [fs] from the start. *)
Definition ready (fs : list Frame) (s : Animator) : Prop :=
  animationFrames s = fs /\ fs <> [] /\ currentFrame s = 0%nat /\ timers s = [].

(** Playback of the frames of [s0] after [k] frames. *)
Definition running (s0 : Animator) (k : nat) (t : Animator) : Prop :=
  animationFrames t = animationFrames s0 /\ answerImage t = answerImage s0 /\
  currentFrame t = k /\ isAnimating t = true /\ (exists id d, timers t = [(id, d)]) /\
  canvas t = fold_left putImageData1 (concat (map pixels (take k (animationFrames s0))))
               (canvas s0) /\
  progress t = progressAfter (k - 1) (length (animationFrames s0)).

(** ** The playback invariant *)

(** One step of playback. *)
Definition pstep (s s' : Animator) : Prop := exists e, handlePlayback e s = Some s'.

(** At most one callback is pending, and then it is the one
    [animationTimer] holds, playback runs and the play button is
    disabled; with none pending, playback is stopped. *)
Definition playback_inv (s : Animator) : Prop :=
  (timers s = [] /\ isAnimating s = false) \/
  (exists id d, timers s = [(id, d)] /\ animationTimer s = Some id /\
     isAnimating s = true /\ playDisabled (controls s) = true).

Lemma completeAnimation_stops s :
  timers (completeAnimation s) = timers s /\ isAnimating (completeAnimation s) = false /\
  animationTimer (completeAnimation s) = animationTimer s.
Proof. unfold completeAnimation. simpl. destruct (answerImage s); simpl; auto. Qed.

(** A tick from a state with nothing pending either completes or leaves
    exactly its own callback pending. *)
Lemma animateFrame_inv s :
  timers s = [] -> playDisabled (controls s) = true -> playback_inv (animateFrame s).
Proof.
  intros Ht Hp. unfold animateFrame.
  destruct (negb (isAnimating s) || _) eqn:E.
  - left. destruct (completeAnimation_stops s) as (-> & -> & _). auto.
  - apply orb_false_iff in E as [Ea Ei]. apply negb_false_iff in Ea. bool_to_prop.
    destruct (lookup_lt_is_Some_2 (animationFrames s) (currentFrame s)) as [fr Hfr]; [lia|].
    rewrite Hfr. right. simpl. rewrite Ht. eauto 10.
Qed.

Lemma pauseAnimation_inv s :
  playback_inv s -> timers (pauseAnimation s) = [] /\ isAnimating (pauseAnimation s) = false.
Proof.
  intros [[Ht _]|(id & d & Ht & Hid & _)]; unfold pauseAnimation; simpl.
  - destruct (animationTimer s); simpl; rewrite ?Ht; auto.
  - rewrite Hid. simpl. rewrite Ht. simpl. rewrite Nat.eqb_refl. auto.
Qed.

Lemma resetAnimation_timers s :
  timers (resetAnimation s) = timers (pauseAnimation s) /\
  isAnimating (resetAnimation s) = isAnimating (pauseAnimation s).
Proof.
  unfold resetAnimation.
  cbn [blankImage canvas set_currentFrame set_canvas set_progress set_controls set_status
       timers isAnimating].
  destruct (blankImage (pauseAnimation s)); auto.
Qed.

(** Every playback event keeps the invariant. *)
Lemma handlePlayback_inv e s s' :
  playback_inv s -> handlePlayback e s = Some s' -> playback_inv s'.
Proof.
  intros Hi He. destruct e as [| | |speed|id]; simpl in He.
  - destruct (playDisabled (controls s)) eqn:Hp; [done|]. injection He as <-.
    destruct Hi as [[Ht Ha]|(? & ? & _ & _ & _ & Hp')]; [|congruence].
    unfold startAnimation. destruct (animationFrames s); [left; auto|].
    apply animateFrame_inv; simpl; done.
  - destruct (pauseDisabled _); [done|]. injection He as <-. left. by apply pauseAnimation_inv.
  - destruct (resetDisabled _); [done|]. injection He as <-. left.
    rewrite (proj1 (resetAnimation_timers s)), (proj2 (resetAnimation_timers s)).
    by apply pauseAnimation_inv.
  - destruct (_ && _); [|done]. injection He as <-. exact Hi.
  - unfold fireTimer in He. destruct (List.find _ _) as [[id' d']|] eqn:Hf; [|done].
    injection He as <-. apply List.find_some in Hf as [Hin Heq]. apply Nat.eqb_eq in Heq.
    simpl in Heq. subst id'.
    destruct Hi as [[Ht _]|(id'' & d & Ht & Hid & Ha & Hp)]; [by rewrite Ht in Hin|].
    rewrite Ht in Hin. destruct Hin as [[= <- <-]|[]].
    apply animateFrame_inv; simpl; [rewrite Ht; simpl; by rewrite Nat.eqb_refl | done].
Qed.

(** C17: from any state with at most the animation timer pending, every
    sequence of playback events (clicks on enabled buttons, slider
    moves, timer callbacks) keeps at most one callback pending, and a
    pending callback means playback is running. *)
Theorem playback_single_timer s0 s :
  playback_inv s0 -> rtc pstep s0 s ->
  (length (timers s) <= 1)%nat /\ (timers s <> [] -> isAnimating s = true).
Proof.
  intros H0 Hr. assert (playback_inv s) as Hi.
  { induction Hr as [|x y z [e He] _ IH]; [done|]. apply IH. eapply handlePlayback_inv; eauto. }
  destruct Hi as [[-> _]|(id & d & -> & _ & -> & _)]; simpl; split; auto with lia.
Qed.

(** C18: a click on pause cancels the pending callback: afterwards no
    timer can fire, so no frame is drawn until play is clicked again. *)
Theorem pause_stops_ticks s :
  playback_inv s ->
  timers (pauseAnimation s) = [] /\ isAnimating (pauseAnimation s) = false /\
  forall id, handlePlayback (TimerFires id) (pauseAnimation s) = None.
Proof.
  intros Hi. destruct (pauseAnimation_inv s Hi) as [Ht Ha].
  split; [done|]. split; [done|]. intros id. simpl. unfold fireTimer. by rewrite Ht.
Qed.

(** C19: reset, on a page whose blank image has loaded: playback stops
    at index 0 with an empty progress bar, the canvas is cleared and the
    blank image drawn on it at the canvas's size, the callback held in
    [animationTimer] is cancelled, play and reset are enabled and pause
    disabled, and the status says "reset"; resetting again changes
    nothing. *)
Theorem resetAnimation_idempotent s b :
  blankImage s = Some b ->
  isAnimating (resetAnimation s) = false /\ currentFrame (resetAnimation s) = 0%nat /\
  progress (resetAnimation s) = 0%Q /\
  canvas (resetAnimation s) = clearAndDraw (width (canvas s)) (height (canvas s)) b /\
  timers (resetAnimation s) =
    match animationTimer s with Some id => clearTimeout id (timers s) | None => timers s end /\
  animationTimer (resetAnimation s) = None /\
  playDisabled (controls (resetAnimation s)) = false /\
  pauseDisabled (controls (resetAnimation s)) = true /\
  resetDisabled (controls (resetAnimation s)) = false /\
  status (resetAnimation s) = mkStatus MsgReset Info /\
  resetAnimation (resetAnimation s) = resetAnimation s.
Proof.
  intros Hb.
  assert (resetAnimation (resetAnimation s) = resetAnimation s) as Hi.
  { destruct s as [cv bi ai dd fr cf ia sp fsp tm tms nid pg [c1 c2 c3 c4] st].
    unfold resetAnimation, pauseAnimation. destruct tm; destruct bi; lazy; reflexivity. }
  rewrite Hi. destruct s as [cv bi ai dd fr cf ia sp fsp tm tms nid pg [c1 c2 c3 c4] st].
  simpl in Hb. subst bi. unfold resetAnimation, pauseAnimation.
  destruct tm; cbn -[clearAndDraw clearTimeout]; repeat split.
Qed.


(** A tick of a running animation, field by field. *)
Lemma animateFrame_draw s frame :
  isAnimating s = true -> animationFrames s !! currentFrame s = Some frame ->
  canvas (animateFrame s) = fold_left putImageData1 (pixels frame) (canvas s) /\
  currentFrame (animateFrame s) = S (currentFrame s) /\
  progress (animateFrame s) = progressAfter (currentFrame s) (length (animationFrames s)) /\
  timers (animateFrame s) =
    timers s ++ [(nextTimerId s,
                  if isTransition frame then fastTransitionSpeed s else animationSpeed s)] /\
  animationTimer (animateFrame s) = Some (nextTimerId s) /\
  isAnimating (animateFrame s) = true /\
  animationFrames (animateFrame s) = animationFrames s /\
  answerImage (animateFrame s) = answerImage s /\
  blankImage (animateFrame s) = blankImage s /\ controls (animateFrame s) = controls s.
Proof.
  intros Ha Hf. pose proof (lookup_lt_Some _ _ _ Hf) as Hlt.
  unfold animateFrame. rewrite Ha. simpl.
  replace (length (animationFrames s) <=? currentFrame s)%nat with false
    by (symmetry; apply Nat.leb_gt; lia).
  rewrite Hf. repeat split. exact Ha.
Qed.

(** C22: a tick of a running animation draws the current frame, advances
    the index and the progress bar, and schedules exactly one callback,
    after the transition delay for a transition frame and the content
    delay otherwise. *)
Theorem animateFrame_tick s frame :
  isAnimating s = true -> animationFrames s !! currentFrame s = Some frame ->
  canvas (animateFrame s) = fold_left putImageData1 (pixels frame) (canvas s) /\
  currentFrame (animateFrame s) = S (currentFrame s) /\
  progress (animateFrame s) = progressAfter (currentFrame s) (length (animationFrames s)) /\
  timers (animateFrame s) =
    timers s ++ [(nextTimerId s,
                  if isTransition frame then fastTransitionSpeed s else animationSpeed s)] /\
  animationTimer (animateFrame s) = Some (nextTimerId s) /\
  isAnimating (animateFrame s) = true /\
  animationFrames (animateFrame s) = animationFrames s /\
  answerImage (animateFrame s) = answerImage s.
Proof.
  intros Ha Hf. destruct (animateFrame_draw s frame Ha Hf) as (? & ? & ? & ? & ? & ? & ? & ? & _).
  auto 10.
Qed.

(** With one callback pending, a tick fires it. *)
Lemma runTicks_S_single n t id d :
  timers t = [(id, d)] -> runTicks (S n) t = runTicks n (animateFrame (set_timers [] t)).
Proof.
  intros Ht. simpl. rewrite Ht. unfold fireTimer. rewrite Ht. simpl.
  rewrite Nat.eqb_refl. simpl. rewrite ?Nat.eqb_refl. done.
Qed.

(** One tick of a running animation. *)
Lemma tick_running s0 k t :
  running s0 k t -> (k < length (animationFrames s0))%nat ->
  running s0 (S k) (runTicks 1 t).
Proof.
  intros (Hfr & Han & Hcf & Ha & (id & d & Ht) & Hcv & _) Hk.
  destruct (lookup_lt_is_Some_2 (animationFrames s0) k Hk) as [frame Hf].
  rewrite (runTicks_S_single 0 t id d Ht). simpl.
  set (u := set_timers [] t).
  assert (animationFrames u !! currentFrame u = Some frame) as Hfu.
  { simpl. by rewrite Hfr, Hcf. }
  destruct (animateFrame_draw u frame Ha Hfu) as (Hc & Hcf' & Hp & Ht' & _ & Ha' & Hfr' & Han' & _).
  simpl in *. repeat split.
  - by rewrite Hfr', Hfr.
  - by rewrite Han', Han.
  - by rewrite Hcf', Hcf.
  - done.
  - rewrite Ht'. eauto.
  - rewrite Hc, Hcv, <- fold_left_app, (take_S_r _ _ frame Hf), map_app, concat_app.
    simpl. by rewrite app_nil_r.
  - rewrite Hp, Hcf, Hfr. simpl. by rewrite Nat.sub_0_r.
Qed.

(** Play starts the animation on the first frame. *)
(** Play, when the index points at a frame: that frame drawn, the index
    advanced, one more callback scheduled and held in [animationTimer]. *)
Lemma startAnimation_draw s fr :
  animationFrames s !! currentFrame s = Some fr ->
  canvas (startAnimation s) = fold_left putImageData1 (pixels fr) (canvas s) /\
  currentFrame (startAnimation s) = S (currentFrame s) /\
  timers (startAnimation s) =
    timers s ++ [(nextTimerId s, if isTransition fr then fastTransitionSpeed s else animationSpeed s)] /\
  animationTimer (startAnimation s) = Some (nextTimerId s) /\
  isAnimating (startAnimation s) = true.
Proof.
  intros Hf. unfold startAnimation. destruct (animationFrames s) as [|f0 fs] eqn:Hfr; [done|].
  destruct (animateFrame_draw (set_controls (setPauseDisabled false (setPlayDisabled true
      (controls (set_isAnimating true s)))) (set_isAnimating true s)) fr eq_refl)
    as (Hc & Hcf & _ & Ht & Hat & Ha & _); [cbn; by rewrite Hfr|].
  rewrite Hc, Hcf, Ht, Hat, Ha. auto.
Qed.

Lemma start_running fs s0 :
  ready fs s0 -> running s0 1 (startAnimation s0).
Proof.
  intros (Hfr & Hne & Hcf & Ht).
  destruct fs as [|frame fs']; [done|].
  unfold startAnimation. rewrite Hfr.
  set (u := set_controls _ (set_isAnimating true s0)).
  assert (animationFrames u !! currentFrame u = Some frame) as Hfu.
  { simpl. by rewrite Hfr, Hcf. }
  destruct (animateFrame_draw u frame eq_refl Hfu) as (Hc & Hcf' & Hp & Ht' & _ & Ha' & Hfr' & Han' & _).
  simpl in *. repeat split.
  - done.
  - done.
  - by rewrite Hcf', Hcf.
  - done.
  - rewrite Ht', Ht. eauto.
  - rewrite Hc, Hfr. simpl. by rewrite app_nil_r.
  - rewrite Hp, Hcf, Hfr. done.
Qed.

Lemma runTicks_running s0 n k t :
  running s0 k t -> (k + n <= length (animationFrames s0))%nat ->
  running s0 (k + n) (runTicks n t).
Proof.
  revert k t. induction n as [|n IH]; intros k t Hr Hle; [by rewrite Nat.add_0_r|].
  pose proof (tick_running s0 k t Hr ltac:(lia)) as Hr1.
  replace (k + S n)%nat with (S k + n)%nat by lia.
  pose proof Hr as (_ & _ & _ & _ & (id & d & Ht) & _).
  rewrite (runTicks_S_single n t id d Ht). rewrite (runTicks_S_single 0 t id d Ht) in Hr1.
  apply IH; [exact Hr1 | lia].
Qed.

(** When the first firing fails, no later one happens. *)
Lemma runTicks_stuck m t :
  match timers t with
  | (id, _) :: _ => fireTimer id t = None
  | [] => True
  end -> runTicks m t = t.
Proof.
  destruct m as [|m]; simpl; [done|].
  destruct (timers t) as [|[id d] tl]; [done|]. intros ->. done.
Qed.

Lemma runTicks_add n m t : runTicks (n + m) t = runTicks m (runTicks n t).
Proof.
  revert t. induction n as [|n IH]; intros t; [done|]. simpl.
  destruct (timers t) as [|[id d] tl] eqn:Ht; [symmetry; apply runTicks_stuck; by rewrite Ht|].
  destruct (fireTimer id t) eqn:Hf; [apply IH|].
  symmetry. apply runTicks_stuck. by rewrite Ht.
Qed.

(** After the last frame, the next tick completes. *)
Lemma complete_after_running s0 a t :
  running s0 (length (animationFrames s0)) t -> answerImage s0 = Some a ->
  isAnimating (runTicks 1 t) = false /\ timers (runTicks 1 t) = [] /\
  canvas (runTicks 1 t) = clearAndDraw (width (canvas s0)) (height (canvas s0)) a /\
  progress (runTicks 1 t) = 100%Q /\
  currentFrame (runTicks 1 t) = length (animationFrames s0).
Proof.
  intros (Hfr & Han & Hcf & Ha & (id & d & Ht) & Hcv & _) Ha0.
  rewrite (runTicks_S_single 0 t id d Ht). simpl. unfold animateFrame. simpl.
  rewrite Hfr, Hcf, Nat.leb_refl, orb_true_r. unfold completeAnimation. simpl.
  rewrite Han, Ha0. simpl. rewrite Hcv. destruct (fold_put_dims (concat (map pixels (take (length (animationFrames s0)) (animationFrames s0)))) (canvas s0)) as (-> & -> & _).
  auto.
Qed.

(** C23: after play and [k] ticks (for [k] below the number of frames),
    the canvas is the initial canvas with the pixels of the first [k + 1]
    frames written in order, the index is [k + 1] and the progress bar
    shows [(k + 1) / n] of the frames. *)
Theorem playback_reveals fs s0 k :
  ready fs s0 -> (k < length fs)%nat ->
  canvas (runTicks k (startAnimation s0)) =
    fold_left putImageData1 (concat (map pixels (take (S k) fs))) (canvas s0) /\
  currentFrame (runTicks k (startAnimation s0)) = S k /\
  isAnimating (runTicks k (startAnimation s0)) = true /\
  progress (runTicks k (startAnimation s0)) = progressAfter k (length fs).
Proof.
  intros Hr Hk. pose proof Hr as (Hfr & _).
  assert (1 + k <= length (animationFrames s0))%nat as Hb by (rewrite Hfr; lia).
  destruct (runTicks_running s0 k 1 _ (start_running fs s0 Hr) Hb)
    as (_ & _ & Hcf & Ha & _ & Hcv & Hp).
  rewrite Hfr in Hcv, Hp. simpl in *. rewrite Nat.sub_0_r in Hp. auto.
Qed.

(** Play and one tick fewer than there are frames draw every frame. *)
Lemma ready_all_drawn fs s0 :
  ready fs s0 ->
  runTicks (length fs) (startAnimation s0) = runTicks 1 (runTicks (length fs - 1) (startAnimation s0)) /\
  running s0 (length (animationFrames s0)) (runTicks (length fs - 1) (startAnimation s0)).
Proof.
  intros Hr. pose proof Hr as (Hfr & Hne & _).
  assert (length fs = (length fs - 1) + 1)%nat as E
    by (destruct fs; [done | simpl; lia]).
  split; [by rewrite E, runTicks_add, <- E|].
  pose proof (runTicks_running s0 (length fs - 1) 1 _ (start_running fs s0 Hr)) as Hrun.
  rewrite Hfr in Hrun |- *. replace (1 + (length fs - 1))%nat with (length fs) in Hrun by lia.
  apply Hrun. lia.
Qed.

(** C24: play followed by as many ticks as there are frames ends in the
    complete state: stopped, no callback pending, the full answer image
    on the canvas and the progress bar at 100%. *)
Theorem playback_completes fs s0 a :
  ready fs s0 -> answerImage s0 = Some a ->
  isAnimating (runTicks (length fs) (startAnimation s0)) = false /\
  timers (runTicks (length fs) (startAnimation s0)) = [] /\
  canvas (runTicks (length fs) (startAnimation s0)) =
    clearAndDraw (width (canvas s0)) (height (canvas s0)) a /\
  progress (runTicks (length fs) (startAnimation s0)) = 100%Q /\
  currentFrame (runTicks (length fs) (startAnimation s0)) = length fs.
Proof.
  intros Hr Ha. destruct (ready_all_drawn fs s0 Hr) as [-> Hrun].
  pose proof Hr as (<- & _). by apply complete_after_running.
Qed.

(** C25: reveal is monotone and exact: after play and [k] ticks, every
    pixel of the first [k + 1] frames shows its recorded colour, and every
    other pixel still shows the canvas as it was, provided the frames'
    pixels have distinct keys (as the segmenter guarantees). *)
Theorem playback_reveal_colors fs s0 k :
  ready fs s0 -> wf_image (canvas s0) -> NoDup (map key (concat (map pixels fs))) ->
  (k < length fs)%nat ->
  (forall p, p ∈ concat (map pixels (take (S k) fs)) -> onCanvas (canvas s0) (px p) (py p) = true ->
     rgbaAt (canvas (runTicks k (startAnimation s0))) (px p) (py p) = color p) /\
  (forall x y, onCanvas (canvas s0) x y = true ->
     (x, y) ∉ map key (concat (map pixels (take (S k) fs))) ->
     rgbaAt (canvas (runTicks k (startAnimation s0))) x y = rgbaAt (canvas s0) x y).
Proof.
  intros Hr Hwf Hnd Hk. pose proof Hr as (Hfr & _).
  assert (1 + k <= length (animationFrames s0))%nat as Hb by (rewrite Hfr; lia).
  destruct (runTicks_running s0 k 1 _ (start_running fs s0 Hr) Hb)
    as (_ & _ & _ & _ & _ & Hcv & _).
  rewrite Hfr in Hcv. simpl in Hcv. rewrite Hcv.
  assert (NoDup (map key (concat (map pixels (take (S k) fs))))) as Hnd'.
  { rewrite <- (take_drop (S k) fs), map_app, concat_app, map_app in Hnd.
    by apply NoDup_app in Hnd as [? _]. }
  split.
  - intros p Hp Hon. by apply fold_put_color.
  - intros x y Hon Hnot. by apply fold_put_other.
Qed.

(** ** Concrete runs *)

(** The frames of one 3x3 glyph, and a page ready to play them. *)
Definition sample_frames : list Frame :=
  default [] (generateAnimationFrames 10 10 (square 1 1 3)).

Definition sample_state : Animator :=
  mkAnimator (cleared 10 10) (Some (cleared 10 10)) (Some (cleared 10 10)) (square 1 1 3)
    sample_frames 0 false 14 1 None [] 1 0 (mkControls true false true false)
    (mkStatus MsgProcessed Success).

Lemma sample_ready : ready sample_frames sample_state.
Proof.
  split; [done|]. split; [|done]. intros H. vm_compute in H. discriminate.
Qed.

Lemma sample_inv : playback_inv sample_state.
Proof. left. done. Qed.

Example sample_play :
  let t := runTicks 1 (startAnimation sample_state) in
  isAnimating t = false /\ progress t = 100%Q /\ timers t = [].
Proof. vm_compute. repeat split. Qed.

Lemma playback_single_timer_witness :
  playback_inv sample_state /\ rtc pstep sample_state (startAnimation sample_state) /\
  (length (timers (startAnimation sample_state)) <= 1)%nat.
Proof.
  assert (rtc pstep sample_state (startAnimation sample_state)) as Hr.
  { apply rtc_once. exists ClickPlay. reflexivity. }
  split; [exact sample_inv|]. split; [exact Hr|].
  exact (proj1 (playback_single_timer sample_state _ sample_inv Hr)).
Defined.

Lemma pause_stops_ticks_witness :
  playback_inv sample_state /\ timers (pauseAnimation sample_state) = [].
Proof.
  split; [exact sample_inv|]. exact (proj1 (pause_stops_ticks sample_state sample_inv)).
Defined.

(** Reset while the first tick of the sample is pending. *)
Lemma resetAnimation_idempotent_witness :
  blankImage (startAnimation sample_state) = Some (cleared 10 10) /\
  timers (resetAnimation (startAnimation sample_state)) = [].
Proof.
  assert (blankImage (startAnimation sample_state) = Some (cleared 10 10)) as Hb by reflexivity.
  split; [exact Hb|].
  destruct (resetAnimation_idempotent _ _ Hb) as (_ & _ & _ & _ & -> & _).
  vm_compute. reflexivity.
Defined.


Lemma animateFrame_tick_witness :
  isAnimating (set_isAnimating true sample_state) = true /\
  animationFrames (set_isAnimating true sample_state) !!
    currentFrame (set_isAnimating true sample_state) = Some (nth 0 sample_frames
      (mkFrame [] (mkCenter 0 0) false 0)) /\
  currentFrame (animateFrame (set_isAnimating true sample_state)) = 1%nat.
Proof.
  assert (animationFrames (set_isAnimating true sample_state) !!
    currentFrame (set_isAnimating true sample_state) = Some (nth 0 sample_frames
      (mkFrame [] (mkCenter 0 0) false 0))) as Hf by (vm_compute; reflexivity).
  split; [reflexivity|]. split; [exact Hf|].
  exact (proj1 (proj2 (animateFrame_tick (set_isAnimating true sample_state) _ eq_refl Hf))).
Defined.

Lemma playback_reveals_witness :
  ready sample_frames sample_state /\ (0 < length sample_frames)%nat /\
  currentFrame (runTicks 0 (startAnimation sample_state)) = 1%nat.
Proof.
  assert (0 < length sample_frames)%nat as Hl by (vm_compute; lia).
  split; [exact sample_ready|]. split; [exact Hl|].
  exact (proj1 (proj2 (playback_reveals _ _ 0 sample_ready Hl))).
Defined.

Lemma playback_completes_witness :
  ready sample_frames sample_state /\ answerImage sample_state = Some (cleared 10 10) /\
  progress (runTicks (length sample_frames) (startAnimation sample_state)) = 100%Q.
Proof.
  split; [exact sample_ready|]. split; [reflexivity|].
  exact (proj1 (proj2 (proj2 (proj2 (playback_completes _ _ _ sample_ready eq_refl))))).
Defined.

Lemma playback_reveal_colors_witness :
  ready sample_frames sample_state /\ wf_image (canvas sample_state) /\
  NoDup (map key (concat (map pixels sample_frames))) /\ (0 < length sample_frames)%nat /\
  rgbaAt (canvas (runTicks 0 (startAnimation sample_state))) 1 1 = (0, 0, 0, 255).
Proof.
  assert (wf_image (canvas sample_state)) as Hwf.
  { unfold wf_image. vm_compute. repeat split; discriminate. }
  assert (NoDup (map key (concat (map pixels sample_frames)))) as Hnd.
  { apply (bool_decide_unpack (NoDup (map key (concat (map pixels sample_frames))))).
    vm_compute. exact I. }
  assert (0 < length sample_frames)%nat as Hl by (vm_compute; lia).
  split; [exact sample_ready|]. split; [exact Hwf|]. split; [exact Hnd|]. split; [exact Hl|].
  apply (proj1 (playback_reveal_colors _ _ 0 sample_ready Hwf Hnd Hl)
           (mkPixel 1 1 0 0 0 255)); vm_compute; [left | reflexivity].
Defined.

End Scheduler.
