(* ===== verification/App.v ===== *)
(** * App: loading, processing and the whole page

    The rest of [AnswerAnimator] (src/script.js): the [onload] handler
    of [loadImage] (56-76), [checkImagesReady] (78-84), [setupCanvas]
    (86-97) and [processImages] (99-161), which runs the pipeline
    [calculateDifferences] (Differ) then [generateAnimationFrames]
    (Sequencer, over the Segmenter), and the listeners of
    [initializeEventListeners] (18-54) as one event type [Event] whose
    reaction [handle] extends the playback reaction of the Scheduler.

    [processImages] is [async] but awaits nothing: it runs to completion
    in one event.  Reading a file ([FileReader], [Image]) is not
    modelled: the event [LoadImage] is the image's [onload] firing with
    the decoded image, or the [change] event without a file.  The sort
    of [generateAnimationFrames] is any [ArraySort]. *)

From S2P Require Import Prelude Canvas Differ Segmenter Sequencer Scheduler.

Open Scope Z_scope.

Module App.

Import Differ Segmenter Sequencer Scheduler.

(** The [type] argument of [loadImage]. *)
Inductive ImageKind := Blank | Answer.

(** [setupCanvas()]: the canvas takes the larger width and height of
    the two images (resizing clears it) and shows the blank image. *)
Definition setupCanvas (s : Animator) : Animator :=
  match blankImage s, answerImage s with
  | Some b, Some a =>
      let w := Z.max (width b) (width a) in
      let h := Z.max (height b) (height a) in
      set_canvas (clearAndDraw w h b) s
  | _, _ => s
  end.

(** [checkImagesReady()]: with both images, enable processing, report
    readiness and set the canvas up. *)
Definition checkImagesReady (s : Animator) : Animator :=
  match blankImage s, answerImage s with
  | Some _, Some _ =>
      let s := set_controls (setProcessDisabled false (controls s)) s in
      let s := set_status (mkStatus MsgReady Success) s in
      setupCanvas s
  | _, _ => s
  end.

(** [loadImage(file, type)]: nothing without a file; otherwise, once the
    image has loaded, store it, report it and check readiness. *)
Definition loadImage (file : option ImageData) (type : ImageKind) (s : Animator) : Animator :=
  match file with
  | None => s
  | Some img =>
      let s := match type with
               | Blank => set_status (mkStatus MsgBlankLoaded Info) (set_blankImage (Some img) s)
               | Answer => set_status (mkStatus MsgAnswerLoaded Info) (set_answerImage (Some img) s)
               end in
      checkImagesReady s
  end.

(** The [catch] block: report the error with the default [info] class
    and re-enable the process button. *)
Definition processFailed (e : ProcessError) (s : Animator) : Animator :=
  let s := set_status (mkStatus (MsgProcessError e) Info) s in
  set_controls (setProcessDisabled false (controls s)) s.

Section Processing.

Context `{ArraySort}.

(** [processImages()].  Both buffers are read back from a temporary
    canvas of the main canvas's size ([getImageData] after [drawImage]
    on a cleared canvas).  [calculateDifferences] assigns
    [differenceData] and [generateAnimationFrames] first empties
    [animationFrames] before the checks that may throw.  A [None] from
    the frame generator (the traversal out of fuel, which the Segmenter
    proves cannot happen) is the generator's own [catch]. *)
Definition processImages (s : Animator) : Animator :=
  let s := set_status (mkStatus MsgProcessing Info) s in
  let s := set_controls (setProcessDisabled true (controls s)) s in
  match blankImage s, answerImage s with
  | Some b, Some a =>
      let w := width (canvas s) in
      let h := height (canvas s) in
      let blankData := clearAndDraw w h b in
      let answerData := clearAndDraw w h a in
      let s := set_differenceData (calculateDifferences w blankData answerData) s in
      match differenceData s with
      | [] => processFailed NoDifference s
      | _ =>
          let s := set_animationFrames [] s in
          match generateAnimationFrames w h (differenceData s) with
          | None => processFailed RecognitionFailed s
          | Some frames =>
              let s := set_animationFrames frames s in
              match frames with
              | [] => processFailed NoTextRegions s
              | _ =>
                  let s := set_controls (setPlayDisabled false (controls s)) s in
                  let s := set_controls (setResetDisabled false (controls s)) s in
                  set_status (mkStatus MsgProcessed Success) s
              end
          end
      end
  | _, _ => processFailed ImagesNotLoaded s
  end.

(** The page's events: an image's [change]/[onload], a click on the
    process button, or a playback event. *)
Inductive Event :=
| LoadImage (type : ImageKind) (file : option ImageData)
| ClickProcess
| Playback (e : PlaybackEvent).

(** The page's reaction to one event ([None]: it cannot happen). *)
Definition handle (e : Event) (s : Animator) : option Animator :=
  match e with
  | LoadImage type file => Some (loadImage file type s)
  | ClickProcess => if processDisabled (controls s) then None else Some (processImages s)
  | Playback e => handlePlayback e s
  end.

(** A sequence of events, stopping at one that cannot happen. *)
Fixpoint run (es : list Event) (s : Animator) : option Animator :=
  match es with
  | [] => Some s
  | e :: es => s' ← handle e s; run es s'
  end.

(** One step of the page. *)
Definition step (s s' : Animator) : Prop := exists e, handle e s = Some s'.

End Processing.

(** The page after [DOMContentLoaded], on the canvas element [cv]. *)
Definition initialPage (cv : ImageData) : Animator := AnswerAnimator cv initialControls.

(** The page once the blank image, then the answer image, have loaded. *)
Definition loadBoth (cv b a : ImageData) : Animator :=
  loadImage (Some a) Answer (loadImage (Some b) Blank (initialPage cv)).

(** The same two loads on any page. *)
Definition loadPair (s : Animator) (b a : ImageData) : Animator :=
  loadImage (Some a) Answer (loadImage (Some b) Blank s).

(** ** Concrete pages *)

(** A [w] x [h] image whose pixel [(x, y)] has the bytes [f x y]. *)
Definition imageOf (w h : Z) (f : Z -> Z -> list Z) : ImageData :=
  mkImageData w h
    (flat_map (fun y => flat_map (fun x => f x y) (map Z.of_nat (seq 0 (Z.to_nat w))))
              (map Z.of_nat (seq 0 (Z.to_nat h)))).

Definition white : list Z := [255; 255; 255; 255].
Definition ink : list Z := [0; 0; 0; 255].

(** Whether [(x, y)] lies in the [n] x [n] block at [(x0, y0)]. *)
Definition inBlock (x0 y0 n x y : Z) : bool :=
  (x0 <=? x) && (x <? x0 + n) && (y0 <=? y) && (y <? y0 + n).

(** A blank 10x10 page, and answers: one 3x3 block of ink, two of
    them, and a single stray dot. *)
Definition paper : ImageData := imageOf 10 10 (fun _ _ => white).
Definition oneBlock : ImageData :=
  imageOf 10 10 (fun x y => if inBlock 3 3 3 x y then ink else white).
Definition twoBlocks : ImageData :=
  imageOf 10 10 (fun x y => if inBlock 1 1 3 x y || inBlock 6 6 3 x y then ink else white).
Definition dot : ImageData :=
  imageOf 10 10 (fun x y => if inBlock 5 5 1 x y then ink else white).

(** The [<canvas>] element before any image: 300 x 150, transparent. *)
Definition canvas0 : ImageData := cleared 300 150.

(** Load the blank page and an answer, then press "process". *)
Definition loadAndProcess (answer : ImageData) : list Event :=
  [LoadImage Blank (Some paper); LoadImage Answer (Some answer); ClickProcess].

(** Reduce projections of the page's setters. *)
Ltac page_simpl :=
  cbn [canvas blankImage answerImage differenceData animationFrames currentFrame
       isAnimating animationSpeed fastTransitionSpeed animationTimer timers nextTimerId
       progress controls status set_canvas set_blankImage set_answerImage
       set_differenceData set_animationFrames set_currentFrame set_isAnimating
       set_animationSpeed set_fastTransitionSpeed set_animationTimer set_timers
       set_nextTimerId set_progress set_controls set_status processDisabled playDisabled
       pauseDisabled resetDisabled setProcessDisabled setPlayDisabled setPauseDisabled
       setResetDisabled processFailed] in *.

(** Case analysis on every [match] of a handler, reducing as it goes. *)
Ltac page_cases :=
  repeat (progress page_simpl ||
          match goal with |- context [match ?x with _ => _ end] => destruct x eqn:? end).

(** ** Processing *)

Section ProcessingLemmas.

Context `{ArraySort}.

(** The frame generator always returns: the Segmenter's traversal has
    enough fuel. *)
Lemma generateAnimationFrames_some w h diffs :
  exists frames, generateAnimationFrames w h diffs = Some frames.
Proof.
  unfold generateAnimationFrames. destruct (fcc_spec w h diffs) as (R0 & -> & _).
  simpl. destruct (List.filter _ R0); eauto.
Qed.

(** [processImages] touches neither the canvas, the images, the
    playback position, the timers nor the speeds. *)
Lemma processImages_keeps s :
  canvas (processImages s) = canvas s /\ blankImage (processImages s) = blankImage s /\
  answerImage (processImages s) = answerImage s /\
  currentFrame (processImages s) = currentFrame s /\
  isAnimating (processImages s) = isAnimating s /\
  animationSpeed (processImages s) = animationSpeed s /\
  fastTransitionSpeed (processImages s) = fastTransitionSpeed s /\
  animationTimer (processImages s) = animationTimer s /\
  timers (processImages s) = timers s /\ nextTimerId (processImages s) = nextTimerId s.
Proof. unfold processImages. page_cases; auto 20. Qed.

(** A plan left after processing is the previous one, or a new one with
    the play button enabled. *)
Lemma processImages_plan s :
  animationFrames (processImages s) <> [] ->
  animationFrames (processImages s) = animationFrames s \/
  playDisabled (controls (processImages s)) = false.
Proof.
  unfold processImages. page_cases; intros Hn; (left; done) || (right; done) || by exfalso.
Qed.

(** C27: [processImages] on every branch.  Without both images it fails
    with "images not loaded"; otherwise the differences of the two
    buffers replace [differenceData]; with none it fails with "no
    difference"; otherwise the frame generator returns a plan that
    replaces [animationFrames], fails with "no text regions" when it is
    empty and enables play and reset otherwise.  Every failure is
    reported with the [info] class and re-enables "process"; no branch
    rewinds the frame index, touches the canvas or cancels a tick. *)
Theorem processImages_outcome s :
  currentFrame (processImages s) = currentFrame s /\ timers (processImages s) = timers s /\
  canvas (processImages s) = canvas s /\
  match blankImage s, answerImage s with
  | Some b, Some a =>
      let w := width (canvas s) in
      let h := height (canvas s) in
      let diffs := calculateDifferences w (clearAndDraw w h b) (clearAndDraw w h a) in
      differenceData (processImages s) = diffs /\
      match diffs with
      | [] => status (processImages s) = mkStatus (MsgProcessError NoDifference) Info /\
              animationFrames (processImages s) = animationFrames s /\
              controls (processImages s) = setProcessDisabled false (controls s)
      | _ => exists frames, generateAnimationFrames w h diffs = Some frames /\
              animationFrames (processImages s) = frames /\
              match frames with
              | [] => status (processImages s) = mkStatus (MsgProcessError NoTextRegions) Info /\
                      controls (processImages s) = setProcessDisabled false (controls s)
              | _ => status (processImages s) = mkStatus MsgProcessed Success /\
                     controls (processImages s) =
                       setResetDisabled false (setPlayDisabled false (setProcessDisabled true (controls s)))
              end
      end
  | _, _ => status (processImages s) = mkStatus (MsgProcessError ImagesNotLoaded) Info /\
            differenceData (processImages s) = differenceData s /\
            animationFrames (processImages s) = animationFrames s /\
            controls (processImages s) = setProcessDisabled false (controls s)
  end.
Proof.
  destruct (processImages_keeps s) as (-> & _ & _ & -> & _ & _ & _ & _ & -> & _).
  do 3 (split; [done|]). unfold processImages. page_simpl.
  destruct (blankImage s) as [b|], (answerImage s) as [a|]; page_simpl; try done.
  cbv zeta. destruct (calculateDifferences _ _ _) as [|p ps]; page_simpl; [done|].
  destruct (generateAnimationFrames_some (width (canvas s)) (height (canvas s)) (p :: ps))
    as [frames Hf].
  rewrite Hf. destruct frames; page_simpl;
    (split; [done|]); eexists; (split; [reflexivity|]); (split; [reflexivity|]); split; reflexivity.
Qed.

(** Loading both images enables processing and paints the blank image
    on a canvas of the larger width and height. *)
Lemma loadBoth_page cv b a :
  processDisabled (controls (loadBoth cv b a)) = false /\
  canvas (loadBoth cv b a) =
    clearAndDraw (Z.max (width b) (width a)) (Z.max (height b) (height a)) b /\
  blankImage (loadBoth cv b a) = Some b /\ answerImage (loadBoth cv b a) = Some a /\
  animationFrames (loadBoth cv b a) = [] /\ currentFrame (loadBoth cv b a) = 0%nat /\
  timers (loadBoth cv b a) = [].
Proof. repeat split. Qed.

Lemma run_cons e es s s' : handle e s = Some s' -> run (e :: es) s = run es s'.
Proof. intros He. cbn [run]. by rewrite He. Qed.

(** What the two loads do to any page: both images stored, the canvas
    set up with the blank image, "process" enabled, nothing else of
    playback touched. *)
Lemma loadPair_page s b a :
  processDisabled (controls (loadPair s b a)) = false /\
  blankImage (loadPair s b a) = Some b /\ answerImage (loadPair s b a) = Some a /\
  canvas (loadPair s b a) =
    clearAndDraw (Z.max (width b) (width a)) (Z.max (height b) (height a)) b /\
  playDisabled (controls (loadPair s b a)) = playDisabled (controls s) /\
  pauseDisabled (controls (loadPair s b a)) = pauseDisabled (controls s) /\
  resetDisabled (controls (loadPair s b a)) = resetDisabled (controls s) /\
  differenceData (loadPair s b a) = differenceData s /\
  animationFrames (loadPair s b a) = animationFrames s /\
  currentFrame (loadPair s b a) = currentFrame s /\ isAnimating (loadPair s b a) = isAnimating s /\
  timers (loadPair s b a) = timers s /\ animationTimer (loadPair s b a) = animationTimer s /\
  nextTimerId (loadPair s b a) = nextTimerId s /\
  animationSpeed (loadPair s b a) = animationSpeed s /\
  fastTransitionSpeed (loadPair s b a) = fastTransitionSpeed s.
Proof.
  unfold loadPair, loadImage, checkImagesReady, setupCanvas. page_cases; simplify_eq; repeat split.
Qed.

Lemma run_loadPair s b a :
  run [LoadImage Blank (Some b); LoadImage Answer (Some a); ClickProcess] s =
  Some (processImages (loadPair s b a)).
Proof.
  rewrite (run_cons (LoadImage Blank (Some b)) _ _ (loadImage (Some b) Blank s) eq_refl).
  rewrite (run_cons (LoadImage Answer (Some a)) _ _ (loadPair s b a) eq_refl).
  rewrite (run_cons ClickProcess [] _ (processImages (loadPair s b a))); [done|].
  unfold handle. by rewrite (proj1 (loadPair_page s b a)).
Qed.

Lemma run_loadBoth cv b a :
  run [LoadImage Blank (Some b); LoadImage Answer (Some a); ClickProcess] (initialPage cv) =
  Some (processImages (loadBoth cv b a)).
Proof.
  rewrite (run_cons (LoadImage Blank (Some b)) _ _ (loadImage (Some b) Blank (initialPage cv))
             eq_refl).
  rewrite (run_cons (LoadImage Answer (Some a)) _ _ (loadBoth cv b a) eq_refl).
  rewrite (run_cons ClickProcess [] _ (processImages (loadBoth cv b a))); [done|].
  unfold handle. by rewrite (proj1 (loadBoth_page cv b a)).
Qed.

(** C26: end to end: after the blank and the answer image have loaded
    and processing has built a plan, play is enabled and play followed by
    as many ticks as there are frames leaves exactly the answer image on
    the canvas (sized to the larger of the two images), stopped and with
    no callback pending. *)
Theorem session_shows_answer cv b a s :
  run [LoadImage Blank (Some b); LoadImage Answer (Some a); ClickProcess] (initialPage cv) =
    Some s ->
  animationFrames s <> [] ->
  playDisabled (controls s) = false /\
  canvas (runTicks (length (animationFrames s)) (startAnimation s)) =
    clearAndDraw (Z.max (width b) (width a)) (Z.max (height b) (height a)) a /\
  isAnimating (runTicks (length (animationFrames s)) (startAnimation s)) = false /\
  timers (runTicks (length (animationFrames s)) (startAnimation s)) = [].
Proof.
  rewrite run_loadBoth. intros [= <-] Hne.
  destruct (loadBoth_page cv b a) as (_ & Hcv & _ & Ha & Hfr & Hcf & Ht).
  destruct (processImages_keeps (loadBoth cv b a)) as (Hcv' & _ & Ha' & Hcf' & _ & _ & _ & _ & Ht' & _).
  assert (ready (animationFrames (processImages (loadBoth cv b a))) (processImages (loadBoth cv b a)))
    as Hr by (repeat split; congruence).
  destruct (ready_all_drawn _ _ Hr) as [-> Hrun].
  destruct (complete_after_running _ a _ Hrun ltac:(congruence)) as (Hs & Htm & Hc & _).
  split; [destruct (processImages_plan (loadBoth cv b a) Hne); congruence|].
  rewrite Hc, Hcv', Hcv. auto.
Qed.

(** The "no difference" branch of [processImages], on any page. *)
Lemma processImages_no_difference t b a :
  blankImage t = Some b -> answerImage t = Some a ->
  calculateDifferences (width (canvas t)) (clearAndDraw (width (canvas t)) (height (canvas t)) b)
    (clearAndDraw (width (canvas t)) (height (canvas t)) a) = [] ->
  status (processImages t) = mkStatus (MsgProcessError NoDifference) Info /\
  differenceData (processImages t) = [] /\ animationFrames (processImages t) = animationFrames t /\
  processDisabled (controls (processImages t)) = false /\
  playDisabled (controls (processImages t)) = playDisabled (controls t) /\
  resetDisabled (controls (processImages t)) = resetDisabled (controls t).
Proof.
  intros Hb Ha Hd. unfold processImages. page_simpl. rewrite Hb, Ha. page_simpl.
  rewrite Hd. page_simpl. auto 10.
Qed.

(** C28: identical images never enable playback.  From any page,
    loading one image as both the blank and the answer page and
    processing reports that no difference was found (with the [info]
    class), empties [differenceData], re-enables "process", and leaves
    the frames and the play and reset buttons as they were: from the
    freshly loaded page, playback stays disabled. *)
Theorem scenario_identical s b :
  exists s',
    run [LoadImage Blank (Some b); LoadImage Answer (Some b); ClickProcess] s = Some s' /\
    status s' = mkStatus (MsgProcessError NoDifference) Info /\
    differenceData s' = [] /\ animationFrames s' = animationFrames s /\
    processDisabled (controls s') = false /\
    playDisabled (controls s') = playDisabled (controls s) /\
    resetDisabled (controls s') = resetDisabled (controls s).
Proof.
  exists (processImages (loadPair s b b)). rewrite run_loadPair. split; [done|].
  destruct (loadPair_page s b b) as (_ & Hb & Ha & _ & Hp & _ & Hr & _ & Hf & _).
  rewrite <- Hp, <- Hr, <- Hf. apply (processImages_no_difference _ b b Hb Ha).
  unfold calculateDifferences. apply scan_same.
Qed.

(** The success branch of [processImages] when the differences form one
    kept component. *)
Lemma processImages_single t b a c :
  blankImage t = Some b -> answerImage t = Some a ->
  findConnectedComponents (width (canvas t)) (height (canvas t))
    (calculateDifferences (width (canvas t))
       (clearAndDraw (width (canvas t)) (height (canvas t)) b)
       (clearAndDraw (width (canvas t)) (height (canvas t)) a)) = Some [c] ->
  animationFrames (processImages t) =
    [mkFrame c (getComponentCenter c) (isTransitionElement c [c] 0) (length c)] /\
  playDisabled (controls (processImages t)) = false.
Proof.
  intros Hb Ha Hc. unfold processImages. page_simpl. rewrite Hb, Ha. page_simpl.
  destruct (calculateDifferences _ _ _) as [|p l] eqn:Ed; [discriminate|].
  page_simpl. rewrite (generateAnimationFrames_single _ _ _ c Hc). page_simpl. auto.
Qed.

(** C29: the spec's one-block scenario, for any page and images whose
    differences form a single kept component of fewer than 100 pixels
    (the spec's 3x3 block has 9): processing builds one frame, that
    component, marked as a transition; play draws it and schedules the
    next tick after the transition delay; that tick completes, stopped
    with nothing pending and exactly the answer image on the canvas. *)
Theorem scenario_block s b a c :
  blankImage s = Some b -> answerImage s = Some a ->
  findConnectedComponents (width (canvas s)) (height (canvas s))
    (calculateDifferences (width (canvas s))
       (clearAndDraw (width (canvas s)) (height (canvas s)) b)
       (clearAndDraw (width (canvas s)) (height (canvas s)) a)) = Some [c] ->
  (length c < 100)%nat -> currentFrame s = 0%nat -> timers s = [] ->
  map (fun f => (pixels f, isTransition f, size f)) (animationFrames (processImages s)) =
    [(c, true, length c)] /\
  playDisabled (controls (processImages s)) = false /\
  timers (startAnimation (processImages s)) = [(nextTimerId s, fastTransitionSpeed s)] /\
  isAnimating (runTicks 1 (startAnimation (processImages s))) = false /\
  timers (runTicks 1 (startAnimation (processImages s))) = [] /\
  canvas (runTicks 1 (startAnimation (processImages s))) =
    clearAndDraw (width (canvas s)) (height (canvas s)) a.
Proof.
  intros Hb Ha Hc Hl Hcf Ht.
  destruct (processImages_single s b a c Hb Ha Hc) as [Hfr Hp].
  rewrite isTransitionElement_small in Hfr by done.
  destruct (processImages_keeps s) as (Hcv & _ & Ha' & Hcf' & _ & _ & Hfs & _ & Ht' & Hn).
  assert (ready (animationFrames (processImages s)) (processImages s)) as Hr
    by (repeat split; [rewrite Hfr; discriminate | congruence | congruence]).
  destruct (ready_all_drawn _ _ Hr) as [_ Hrunning].
  destruct (complete_after_running _ a _ Hrunning ltac:(congruence)) as (Hs & Htm & Hcnv & _).
  rewrite Hfr. split; [done|]. split; [done|]. split.
  - unfold startAnimation. rewrite Hfr.
    destruct (animateFrame_draw (set_controls (setPauseDisabled false (setPlayDisabled true
       (controls (set_isAnimating true (processImages s))))) (set_isAnimating true (processImages s)))
       (mkFrame c (getComponentCenter c) true (length c)))
      as (_ & _ & _ & -> & _); [done | page_simpl; by rewrite Hfr, Hcf', Hcf |].
    page_simpl. by rewrite Ht', Ht, Hn, Hfs.
  - rewrite Hfr in Hs, Htm, Hcnv. rewrite Hcv in Hcnv. auto.
Qed.

(** A click on "process" that succeeds, then a click on play: the
    index, pending callbacks and handles survive processing, so play
    draws the frame of the new plan at the old index and schedules one
    more callback. *)
Lemma process_then_play s fr :
  processDisabled (controls s) = false ->
  playDisabled (controls (processImages s)) = false ->
  animationFrames (processImages s) !! currentFrame s = Some fr ->
  exists s1 s2, handle ClickProcess s = Some s1 /\ handle (Playback ClickPlay) s1 = Some s2 /\
    currentFrame s1 = currentFrame s /\
    canvas s2 = fold_left putImageData1 (pixels fr) (canvas s) /\
    currentFrame s2 = S (currentFrame s) /\
    (exists d', timers s2 = timers s ++ [(nextTimerId s, d')]) /\
    animationTimer s2 = Some (nextTimerId s) /\ isAnimating s2 = true.
Proof.
  intros Hpr Hpl Hf.
  destruct (processImages_keeps s) as (Hcv & _ & _ & Hcf & _ & _ & _ & _ & Ht & Hn).
  rewrite <- Hcf in Hf.
  destruct (startAnimation_draw _ _ Hf) as (Hc & Hcf' & Ht' & Hat & Ha).
  exists (processImages s), (startAnimation (processImages s)).
  unfold handle, handlePlayback. rewrite Hpr, Hpl.
  rewrite Hc, Hcf', Ht', Hat, Ha, Hcv, Hcf, Ht, Hn. eauto 10.
Qed.

Lemma elem_of_clearTimeout (id : nat) (d : Z) (id' : nat) (tms : list (nat * Z)) :
  (id, d) ∈ tms -> id <> id' -> (id, d) ∈ clearTimeout id' tms.
Proof.
  intros Hin Hne. unfold clearTimeout. apply list_elem_of_In, filter_In. split.
  - by apply list_elem_of_In.
  - simpl. by rewrite (proj2 (Nat.eqb_neq _ _) Hne).
Qed.

Lemma find_pending (id : nat) (d : Z) (tms : list (nat * Z)) :
  (id, d) ∈ tms -> exists t, List.find (fun t => Nat.eqb t.1 id) tms = Some t.
Proof.
  intros Hin. destruct (List.find _ tms) as [t|] eqn:Hf; [eauto|].
  apply list_elem_of_In in Hin. apply (List.find_none _ _ Hf) in Hin.
  simpl in Hin. by rewrite Nat.eqb_refl in Hin.
Qed.

(** C30: a run is not rejected while one is outstanding.  On any page
    where a callback [id] is pending (with an already issued handle), a
    click on "process" whose run succeeds re-enables play, and a click
    on play then schedules a second callback: [id] is still pending next
    to the new one, and [animationTimer] holds only the new handle. *)
Theorem reprocess_two_ticks_pending s id d :
  (id, d) ∈ timers s -> (id < nextTimerId s)%nat ->
  processDisabled (controls s) = false ->
  playDisabled (controls (processImages s)) = false ->
  (currentFrame s < length (animationFrames (processImages s)))%nat ->
  exists s1 s2 d',
    handle ClickProcess s = Some s1 /\ handle (Playback ClickPlay) s1 = Some s2 /\
    (id, d) ∈ timers s2 /\ (nextTimerId s, d') ∈ timers s2 /\ id <> nextTimerId s /\
    animationTimer s2 = Some (nextTimerId s) /\ isAnimating s2 = true.
Proof.
  intros Hin Hlt Hpr Hpl Hl.
  destruct (lookup_lt_is_Some_2 _ _ Hl) as [fr Hf].
  destruct (process_then_play s fr Hpr Hpl Hf)
    as (s1 & s2 & H1 & H2 & _ & _ & _ & (d' & Ht) & Hat & Ha).
  exists s1, s2, d'. rewrite Ht. repeat split; try done.
  - apply elem_of_app. by left.
  - apply elem_of_app. right. by apply list_elem_of_singleton.
  - lia.
Qed.

(** C31: pause does not stop a second pending callback.  On any page
    with the answer image loaded where a callback [id] is pending that
    is not the one [animationTimer] holds, pause stops the animation but
    leaves [id] pending; when it fires, the paused page runs
    [completeAnimation]: it clears the canvas and draws the answer image
    on it, and reports completion. *)
Theorem stale_tick_after_pause s id d id' a :
  (id, d) ∈ timers s -> animationTimer s = Some id' -> id <> id' ->
  pauseDisabled (controls s) = false -> answerImage s = Some a ->
  exists s1 s2,
    handle (Playback ClickPause) s = Some s1 /\ isAnimating s1 = false /\ (id, d) ∈ timers s1 /\
    handle (Playback (TimerFires id)) s1 = Some s2 /\
    canvas s2 = clearAndDraw (width (canvas s)) (height (canvas s)) a /\
    status s2 = mkStatus MsgComplete Success.
Proof.
  intros Hin Hat Hne Hp Ha.
  assert ((id, d) ∈ timers (pauseAnimation s)) as Hin'.
  { unfold pauseAnimation. page_simpl. rewrite Hat. page_simpl. by apply elem_of_clearTimeout. }
  destruct (find_pending _ _ _ Hin') as [t Hfind].
  exists (pauseAnimation s), (animateFrame (set_timers (clearTimeout id (timers (pauseAnimation s)))
                                             (pauseAnimation s))).
  unfold handle, handlePlayback. rewrite Hp. split; [done|].
  split; [unfold pauseAnimation; page_cases; done|]. split; [done|].
  split; [unfold fireTimer; by rewrite Hfind|].
  unfold animateFrame, completeAnimation, pauseAnimation. page_simpl. rewrite Hat. page_simpl.
  rewrite Ha. page_simpl. auto.
Qed.

(** C32: a new plan does not rewind playback.  On any page, processing
    that succeeds keeps the frame index, so the next play draws the
    frame of the new plan at the old index (not its first frame) and
    moves on from there: the frames before it are never drawn one by
    one. *)
Theorem reprocess_keeps_index s fr :
  processDisabled (controls s) = false ->
  playDisabled (controls (processImages s)) = false ->
  animationFrames (processImages s) !! currentFrame s = Some fr ->
  exists s1 s2, handle ClickProcess s = Some s1 /\ handle (Playback ClickPlay) s1 = Some s2 /\
    currentFrame s1 = currentFrame s /\
    canvas s2 = fold_left putImageData1 (pixels fr) (canvas s) /\
    currentFrame s2 = S (currentFrame s).
Proof.
  intros Hpr Hpl Hf.
  destruct (process_then_play s fr Hpr Hpl Hf) as (s1 & s2 & H1 & H2 & Hc1 & Hc & Hcf & _).
  eauto 10.
Qed.

End ProcessingLemmas.

(** Process two blocks and play; while the first tick is pending, load
    the answer again (which re-enables "process"), process, and play. *)
(** ** Concrete traces *)

(** The page after the events [es], from the blank canvas. *)
Definition pageAfter (es : list Event) : Animator := default (initialPage canvas0) (run es (initialPage canvas0)).

(** Both images of the one-block scenario loaded, and its component. *)
Definition blockPage : Animator := loadBoth canvas0 paper oneBlock.

Definition blockComponent : list Pixel :=
  hd [] (default [] (findConnectedComponents (width (canvas blockPage)) (height (canvas blockPage))
    (calculateDifferences (width (canvas blockPage))
       (clearAndDraw (width (canvas blockPage)) (height (canvas blockPage)) paper)
       (clearAndDraw (width (canvas blockPage)) (height (canvas blockPage)) oneBlock)))).

(** Two blocks processed and playing, and the answer loaded again, which
    re-enables "process" while the first tick is pending. *)
Definition midPlay : Animator :=
  pageAfter (loadAndProcess twoBlocks ++ [Playback ClickPlay; LoadImage Answer (Some twoBlocks)]).

(** Then processed and played again: two tick chains. *)
Definition doubleStart : list Event :=
  loadAndProcess twoBlocks ++
  [Playback ClickPlay; LoadImage Answer (Some twoBlocks); ClickProcess; Playback ClickPlay].

(** One block played to completion (index 1), then a two-block answer
    loaded. *)
Definition afterOne : Animator :=
  pageAfter (loadAndProcess oneBlock ++
             [Playback ClickPlay; Playback (TimerFires 1); LoadImage Answer (Some twoBlocks)]).

(** The frame of [processImages afterOne] at its old index. *)
Definition afterOneFrame : Frame :=
  default (mkFrame [] (mkCenter 0 0) false 0)
    (animationFrames (processImages afterOne) !! currentFrame afterOne).

Lemma session_shows_answer_witness :
  run [LoadImage Blank (Some paper); LoadImage Answer (Some oneBlock); ClickProcess]
    (initialPage canvas0) = Some (processImages (loadBoth canvas0 paper oneBlock)) /\
  animationFrames (processImages (loadBoth canvas0 paper oneBlock)) <> [] /\
  playDisabled (controls (processImages (loadBoth canvas0 paper oneBlock))) = false.
Proof.
  assert (run [LoadImage Blank (Some paper); LoadImage Answer (Some oneBlock); ClickProcess]
    (initialPage canvas0) = Some (processImages (loadBoth canvas0 paper oneBlock))) as Hr
    by (vm_compute; reflexivity).
  assert (animationFrames (processImages (loadBoth canvas0 paper oneBlock)) <> []) as Hn
    by (vm_compute; discriminate).
  split; [exact Hr|]. split; [exact Hn|].
  exact (proj1 (session_shows_answer _ _ _ _ Hr Hn)).
Defined.

Lemma scenario_block_witness :
  blankImage blockPage = Some paper /\ answerImage blockPage = Some oneBlock /\
  length blockComponent = 9%nat /\
  canvas (runTicks 1 (startAnimation (processImages blockPage))) =
    clearAndDraw (width (canvas blockPage)) (height (canvas blockPage)) oneBlock.
Proof.
  assert (blankImage blockPage = Some paper) as Hb by reflexivity.
  assert (answerImage blockPage = Some oneBlock) as Ha by reflexivity.
  assert (findConnectedComponents (width (canvas blockPage)) (height (canvas blockPage))
    (calculateDifferences (width (canvas blockPage))
       (clearAndDraw (width (canvas blockPage)) (height (canvas blockPage)) paper)
       (clearAndDraw (width (canvas blockPage)) (height (canvas blockPage)) oneBlock)) =
    Some [blockComponent]) as Hc by (vm_compute; reflexivity).
  assert (length blockComponent = 9%nat) as Hl by (vm_compute; reflexivity).
  split; [exact Hb|]. split; [exact Ha|]. split; [exact Hl|].
  refine (proj2 (proj2 (proj2 (proj2 (proj2 (scenario_block _ _ _ _ Hb Ha Hc _ _ _))))));
    [lia | reflexivity | reflexivity].
Defined.

Lemma reprocess_two_ticks_pending_witness :
  (1%nat, 1) ∈ timers midPlay /\
  exists s1 s2, handle ClickProcess midPlay = Some s1 /\ handle (Playback ClickPlay) s1 = Some s2 /\
    (1%nat, 1) ∈ timers s2 /\ animationTimer s2 = Some (nextTimerId midPlay).
Proof.
  assert ((1%nat, 1) ∈ timers midPlay) as Hin
    by (apply (bool_decide_unpack _); vm_compute; reflexivity).
  split; [exact Hin|].
  destruct (reprocess_two_ticks_pending midPlay 1 1 Hin)
    as (s1 & s2 & d' & H1 & H2 & Hi & _ & _ & Hat & _);
    [vm_compute; lia | vm_compute; reflexivity | vm_compute; reflexivity | vm_compute; lia |].
  eauto 10.
Defined.

Lemma stale_tick_after_pause_witness :
  (1%nat, 1) ∈ timers (pageAfter doubleStart) /\
  animationTimer (pageAfter doubleStart) = Some 2%nat /\
  exists s1 s2,
    handle (Playback ClickPause) (pageAfter doubleStart) = Some s1 /\
    handle (Playback (TimerFires 1)) s1 = Some s2 /\ status s2 = mkStatus MsgComplete Success.
Proof.
  assert ((1%nat, 1) ∈ timers (pageAfter doubleStart)) as Hin
    by (apply (bool_decide_unpack _); vm_compute; reflexivity).
  assert (animationTimer (pageAfter doubleStart) = Some 2%nat) as Hat by (vm_compute; reflexivity).
  split; [exact Hin|]. split; [exact Hat|].
  destruct (stale_tick_after_pause _ 1 1 2 twoBlocks Hin Hat) as (s1 & s2 & H1 & _ & _ & H2 & _ & Hs);
    [lia | vm_compute; reflexivity | vm_compute; reflexivity |].
  eauto.
Defined.

Lemma reprocess_keeps_index_witness :
  currentFrame afterOne = 1%nat /\
  animationFrames (processImages afterOne) !! currentFrame afterOne = Some afterOneFrame /\
  exists s1 s2, handle ClickProcess afterOne = Some s1 /\ handle (Playback ClickPlay) s1 = Some s2 /\
    currentFrame s2 = 2%nat.
Proof.
  assert (currentFrame afterOne = 1%nat) as Hcf by (vm_compute; reflexivity).
  assert (animationFrames (processImages afterOne) !! currentFrame afterOne = Some afterOneFrame)
    as Hf by (vm_compute; reflexivity).
  split; [exact Hcf|]. split; [exact Hf|].
  destruct (reprocess_keeps_index afterOne afterOneFrame) as (s1 & s2 & H1 & H2 & _ & _ & Hc2);
    [vm_compute; reflexivity | vm_compute; reflexivity | exact Hf |].
  exists s1, s2. rewrite Hc2, Hcf. auto.
Defined.

End App.
