(* ===== verification/Invariants.v ===== *)
(** * Invariants of the whole page

    What holds of every page reachable from [initialPage] by the events
    of [App.handle], for any canvas element that is a well-formed buffer
    and images of non-negative size: the pending ticks have distinct
    handles, each below [nextTimerId], and delays that the slider or the
    fast transition allow (1 ms, or 10..50 ms); the content delay stays
    in 10..50 ms and the transition delay at 1 ms (the constructor,
    lines 11-12, and the slider listener, lines 46-53); the canvas is a
    well-formed [width] x [height] buffer.

    The playback handlers leave the speeds and the images alone and move
    the other fields in ways [evolves] records; loading and processing
    are checked directly.

    The type invariant [page_bytes]: an [ImageData] holds a
    [Uint8ClampedArray], so the model's [Z] channels must stay in
    0..255.  Every event whose image holds bytes keeps the canvas, the
    images, the difference records and the frame pixels within bytes:
    the scan copies the answer's bytes, [clearAndDraw] copies bytes or
    writes 0, and [putImageData1] writes a record's bytes. *)

From Stdlib Require Import Lqa.
From S2P Require Import Prelude Canvas Differ Segmenter Sequencer Scheduler App.

Open Scope Z_scope.

Module Invariants.

Import Differ Sequencer Scheduler App.

(** A delay a tick may be scheduled with. *)
Definition delay_ok (d : Z) : Prop := d = 1 \/ 10 <= d <= 50.

(** Pending callbacks: distinct handles, each already issued, with
    allowed delays. *)
Definition tmsOk (tms : list (nat * Z)) (next : nat) : Prop :=
  NoDup (map fst tms) /\ Forall (fun t => (t.1 < next)%nat /\ delay_ok t.2) tms.

(** The two delays. *)
Definition speedsOk (animationSpeed fastTransitionSpeed : Z) : Prop :=
  10 <= animationSpeed <= 50 /\ fastTransitionSpeed = 1.

(** An image of non-negative size. *)
Definition image_ok (img : ImageData) : Prop := 0 <= width img /\ 0 <= height img.

Definition loaded_ok (o : option ImageData) : Prop :=
  match o with Some img => image_ok img | None => True end.

(** The invariant of a page. *)
Record page_ok (s : Animator) : Prop := {
  ok_speeds : speedsOk (animationSpeed s) (fastTransitionSpeed s);
  ok_timers : tmsOk (timers s) (nextTimerId s);
  ok_canvas : wf_image (canvas s);
  ok_blank : loaded_ok (blankImage s);
  ok_answer : loaded_ok (answerImage s)
}.

(** How a playback handler may move a page: speeds and images unchanged,
    timers and canvas kept well formed. *)
Definition evolves (s s' : Animator) : Prop :=
  animationSpeed s' = animationSpeed s /\ fastTransitionSpeed s' = fastTransitionSpeed s /\
  blankImage s' = blankImage s /\ answerImage s' = answerImage s /\
  (speedsOk (animationSpeed s) (fastTransitionSpeed s) ->
   tmsOk (timers s) (nextTimerId s) -> tmsOk (timers s') (nextTimerId s')) /\
  (wf_image (canvas s) -> wf_image (canvas s')).

(** Events the page can receive: loaded images have a non-negative size. *)
Definition event_ok (e : Event) : Prop :=
  match e with LoadImage _ (Some img) => image_ok img | _ => True end.

Section Reach.

Context `{ArraySort}.

Definition okStep (s s' : Animator) : Prop := exists e, event_ok e /\ handle e s = Some s'.

(** The pages reachable from the freshly constructed one. *)
Definition reachable (cv : ImageData) (s : Animator) : Prop := rtc okStep (initialPage cv) s.

End Reach.

(** ** Bytes

    The Canvas API keeps every channel of an [ImageData] in a
    [Uint8ClampedArray]: 0..255.  The model keeps bytes as [Z]; the type
    invariant says they stay bytes. *)

Definition byte (z : Z) : Prop := 0 <= z < 256.

Definition bytes (l : list Z) : Prop := Forall byte l.

Definition pixel_bytes (p : Pixel) : Prop :=
  byte (pr p) /\ byte (pg p) /\ byte (pb p) /\ byte (pa p).

Definition loaded_bytes (o : option ImageData) : Prop :=
  match o with Some img => bytes (data img) | None => True end.

(** The type invariant of a page: every buffer, every record and every
    frame pixel holds bytes. *)
Record page_bytes (s : Animator) : Prop := {
  pb_canvas : bytes (data (canvas s));
  pb_blank : loaded_bytes (blankImage s);
  pb_answer : loaded_bytes (answerImage s);
  pb_diffs : Forall pixel_bytes (differenceData s);
  pb_frames : Forall (fun f => Forall pixel_bytes (pixels f)) (animationFrames s)
}.

(** Events whose images are byte buffers. *)
Definition event_bytes (e : Event) : Prop :=
  match e with LoadImage _ (Some img) => bytes (data img) | _ => True end.

Section ReachBytes.

Context `{ArraySort}.

Definition byteStep (s s' : Animator) : Prop := exists e, event_bytes e /\ handle e s = Some s'.

End ReachBytes.

(** ** The progress bar

    [progressFill.style.width] is set to [progress%]: the bar stays
    between empty and full. *)
Definition progress_ok (s : Animator) : Prop := (0 <= progress s <= 100)%Q.

(** ** Lemmas *)

Create HintDb page.

Lemma tmsOk_push tms n d : tmsOk tms n -> delay_ok d -> tmsOk (tms ++ [(n, d)]) (S n).
Proof.
  intros [Hnd Hf] Hd. split.
  - rewrite map_app. apply NoDup_app. split; [done|]. split; [|apply NoDup_singleton].
    intros i Hi Hin. apply list_elem_of_singleton in Hin as ->.
    apply list_elem_of_fmap in Hi as ([j dj] & Hj & Hin). simpl in Hj. subst j.
    rewrite Forall_forall in Hf. apply Hf in Hin. simpl in Hin. lia.
  - apply Forall_app. split; [|apply Forall_singleton; simpl; split; [lia|done]].
    eapply Forall_impl; [exact Hf|]. intros t [? ?]. split; [lia|done].
Qed.

Lemma tmsOk_clear tms n id : tmsOk tms n -> tmsOk (clearTimeout id tms) n.
Proof.
  unfold clearTimeout. intros [Hnd Hf]. split.
  - induction tms as [|t tms IH]; simpl in *; [done|].
    apply NoDup_cons in Hnd as [Hn Hnd]. apply Forall_cons in Hf as [_ Hf].
    destruct (negb _); simpl; [|by apply IH].
    constructor; [|by apply IH]. intros Hin. apply Hn.
    apply list_elem_of_fmap in Hin as (u & -> & Hu). apply list_elem_of_fmap.
    exists u. split; [done|]. apply list_elem_of_In in Hu. apply filter_In in Hu as [Hu _].
    by apply list_elem_of_In.
  - apply Forall_forall. intros t Ht. apply list_elem_of_In, filter_In in Ht as [Ht _].
    rewrite Forall_forall in Hf. apply Hf. by apply list_elem_of_In.
Qed.

Lemma speeds_fast a f : speedsOk a f -> delay_ok f.
Proof. intros [_ ->]. by left. Qed.

Lemma speeds_content a f : speedsOk a f -> delay_ok a.
Proof. intros [? _]. by right. Qed.

Lemma clearAndDraw_canvas_wf c img : wf_image c -> wf_image (clearAndDraw (width c) (height c) img).
Proof. intros (? & ? & _). by apply clearAndDraw_wf. Qed.

Lemma cleared_canvas_wf c : wf_image c -> wf_image (cleared (width c) (height c)).
Proof. intros (? & ? & _). by apply cleared_wf. Qed.

#[export] Hint Resolve tmsOk_push tmsOk_clear speeds_fast speeds_content wf_fold
  clearAndDraw_canvas_wf cleared_canvas_wf : page.

Ltac evolve_tac :=
  unfold evolves; page_cases;
  refine (conj _ (conj _ (conj _ (conj _ (conj _ _))))); auto; intros; eauto with page.

Lemma completeAnimation_evolves s : evolves s (completeAnimation s).
Proof. unfold completeAnimation. evolve_tac. Qed.

Lemma animateFrame_evolves s : evolves s (animateFrame s).
Proof. unfold animateFrame, completeAnimation, setTimeout. evolve_tac. Qed.

Lemma startAnimation_evolves s : evolves s (startAnimation s).
Proof. unfold startAnimation, animateFrame, completeAnimation, setTimeout. evolve_tac. Qed.

Lemma pauseAnimation_evolves s : evolves s (pauseAnimation s).
Proof. unfold pauseAnimation. evolve_tac. Qed.

Lemma resetAnimation_evolves s : evolves s (resetAnimation s).
Proof. unfold resetAnimation, pauseAnimation. evolve_tac. Qed.

Lemma fireTimer_evolves id s s' : fireTimer id s = Some s' -> evolves s s'.
Proof.
  unfold fireTimer. destruct (List.find _ _); intros [= <-].
  pose proof (animateFrame_evolves (set_timers (clearTimeout id (timers s)) s)) as
    (E1 & E2 & E3 & E4 & Et & Ec).
  unfold evolves. page_simpl. rewrite E1, E2, E3, E4. do 4 (split; [done|]). split; eauto with page.
Qed.

Lemma evolves_page_ok s s' : evolves s s' -> page_ok s -> page_ok s'.
Proof.
  intros (E1 & E2 & E3 & E4 & Et & Ec) [Hs Ht Hc Hb Ha].
  split; rewrite ?E1, ?E2, ?E3, ?E4; auto.
Qed.

Section Steps.

Context `{ArraySort}.

(** Every event keeps the invariant. *)
Lemma handle_ok e s s' : event_ok e -> page_ok s -> handle e s = Some s' -> page_ok s'.
Proof.
  intros He Hs Hh. destruct e as [type [img|] | | [ | | | speed | id]]; simpl in Hh.
  - injection Hh as <-. destruct Hs as [Hs Ht Hc Hb Ha].
    simpl in He. unfold loadImage, checkImagesReady, setupCanvas. destruct type; page_cases;
      split; page_simpl; auto;
      repeat match goal with
             | E : blankImage _ = _ |- _ => rewrite E in *; clear E
             | E : answerImage _ = _ |- _ => rewrite E in *; clear E
             end;
      unfold loaded_ok, image_ok in *; first [done | apply clearAndDraw_wf; lia].
  - by injection Hh as <-.
  - destruct (processDisabled _); [done|]. injection Hh as <-.
    destruct (processImages_keeps s) as (Hc & Hb & Ha & _ & _ & Hsp & Hf & _ & Ht & Hn).
    destruct Hs. split; congruence.
  - destruct (playDisabled _); [done|]. injection Hh as <-.
    exact (evolves_page_ok _ _ (startAnimation_evolves s) Hs).
  - destruct (pauseDisabled _); [done|]. injection Hh as <-.
    exact (evolves_page_ok _ _ (pauseAnimation_evolves s) Hs).
  - destruct (resetDisabled _); [done|]. injection Hh as <-.
    exact (evolves_page_ok _ _ (resetAnimation_evolves s) Hs).
  - destruct (_ && _) eqn:Hr; [|done]. injection Hh as <-. bool_to_prop.
    destruct Hs as [Hs Ht Hc Hb Ha]. unfold onSpeedInput, speedToDelay.
    split; page_simpl; auto. split; [lia|done].
  - exact (evolves_page_ok _ _ (fireTimer_evolves id s s' Hh) Hs).
Qed.

Lemma rtc_page_ok s s' : rtc okStep s s' -> page_ok s -> page_ok s'.
Proof.
  induction 1 as [|x y z (e & He & Hh) _ IH]; [done|].
  intros Hx. apply IH. exact (handle_ok e x y He Hx Hh).
Qed.

Lemma initialPage_ok cv : wf_image cv -> page_ok (initialPage cv).
Proof.
  intros Hcv. split; simpl; try done. split; [constructor|done].
Qed.

(** C34: in every page reachable from a well-formed canvas element, the
    content delay is within 10..50 ms and the transition delay is 1 ms;
    the pending ticks have distinct handles, all already issued by
    [setTimeout], each scheduled with 1 ms or 10..50 ms; and the canvas
    is a well-formed [width] x [height] RGBA buffer. *)
Theorem reachable_invariant cv s :
  wf_image cv -> reachable cv s ->
  (10 <= animationSpeed s <= 50 /\ fastTransitionSpeed s = 1) /\
  NoDup (map fst (timers s)) /\
  Forall (fun t => (t.1 < nextTimerId s)%nat /\ (t.2 = 1 \/ 10 <= t.2 <= 50)) (timers s) /\
  wf_image (canvas s).
Proof.
  intros Hcv Hr. destruct (rtc_page_ok _ _ Hr (initialPage_ok cv Hcv)) as [Hs [Hn Hf] Hc _ _].
  auto.
Qed.

End Steps.

(** A page reached by loading, processing and playing. *)
Lemma reachable_invariant_witness :
  wf_image canvas0 /\
  reachable canvas0 (startAnimation (processImages (loadBoth canvas0 paper oneBlock))) /\
  wf_image (canvas (startAnimation (processImages (loadBoth canvas0 paper oneBlock)))).
Proof.
  assert (wf_image canvas0) as Hcv by (vm_compute; repeat split; discriminate).
  assert (reachable canvas0 (startAnimation (processImages (loadBoth canvas0 paper oneBlock))))
    as Hr.
  { eapply rtc_l; [exists (LoadImage Blank (Some paper)); split; [vm_compute; split; discriminate | reflexivity]|].
    eapply rtc_l; [exists (LoadImage Answer (Some oneBlock)); split; [vm_compute; split; discriminate | reflexivity]|].
    eapply rtc_l; [exists ClickProcess; split; [done | vm_compute; reflexivity]|].
    eapply rtc_l; [exists (Playback ClickPlay); split; [done | vm_compute; reflexivity]|].
    apply rtc_refl. }
  split; [exact Hcv|]. split; [exact Hr|].
  exact (proj2 (proj2 (proj2 (reachable_invariant _ _ Hcv Hr)))).
Defined.

(** ** The byte invariant *)

Create HintDb bytes.

Lemma putImageData1_bytes c p : bytes (data c) -> pixel_bytes p -> bytes (data (putImageData1 c p)).
Proof.
  intros Hc (? & ? & ? & ?). unfold putImageData1. destruct (onCanvas _ _ _); [|done].
  simpl. by repeat apply Forall_insert.
Qed.

Lemma fold_put_bytes ps c :
  Forall pixel_bytes ps -> bytes (data c) -> bytes (data (fold_left putImageData1 ps c)).
Proof.
  revert c. induction ps as [|p ps IH]; intros c Hps Hc; simpl; [done|].
  apply Forall_cons in Hps as [Hp Hps]. by apply IH, putImageData1_bytes.
Qed.

Lemma clearAndDraw_bytes w h img : bytes (data img) -> bytes (data (clearAndDraw w h img)).
Proof.
  intros Hi. unfold clearAndDraw. cbn [data]. apply Forall_forall. intros z Hz.
  apply list_elem_of_In, in_flat_map in Hz as (y & _ & Hz).
  apply in_flat_map in Hz as (x & _ & Hz). apply in_map_iff in Hz as (k & <- & _).
  unfold drawnByte. destruct (_ && _); [|unfold byte; lia].
  destruct (nth_in_or_default (offset (width img) x y + Z.to_nat k) (data img) 0) as [Hin | ->].
  - unfold bytes in Hi. rewrite Forall_forall in Hi. apply Hi. by apply list_elem_of_In.
  - unfold byte; lia.
Qed.

Lemma cleared_bytes w h : bytes (data (cleared w h)).
Proof. unfold cleared. simpl. apply Forall_forall. intros z Hz. apply list_elem_of_In, repeat_spec in Hz as ->. unfold byte; lia. Qed.

(** The records of the difference scan carry the answer's bytes. *)
Lemma scan_bytes w i blank answer : bytes answer -> Forall pixel_bytes (scan w i blank answer).
Proof.
  revert i blank.
  induction answer as [answer IH] using (well_founded_induction (Wf_nat.well_founded_ltof _ (@length Z))).
  intros i blank Hb. destruct blank as [|br [|bg [|bb [|b3 blank']]]]; try (simpl; constructor).
  destruct answer as [|ar [|ag [|ab [|aa answer']]]]; try (simpl; constructor).
  unfold bytes in Hb. repeat (apply Forall_cons in Hb as [? Hb]). simpl. apply Forall_app. split.
  - destruct (_ <? _); [apply Forall_singleton; unfold pixel_bytes; simpl; tauto | apply Forall_nil; done].
  - apply IH; [unfold Wf_nat.ltof; simpl; lia | done].
Qed.

Lemma frame_bytes fs i f :
  Forall (fun f => Forall pixel_bytes (pixels f)) fs -> fs !! i = Some f -> Forall pixel_bytes (pixels f).
Proof. intros Hf Hi. rewrite Forall_lookup in Hf. eauto. Qed.

Lemma loaded_some_bytes o img : loaded_bytes o -> o = Some img -> bytes (data img).
Proof. by intros Ho ->. Qed.

Lemma calculateDifferences_bytes w b a d :
  bytes (data a) -> calculateDifferences w b a = d -> Forall pixel_bytes d.
Proof. intros Ha <-. by apply scan_bytes. Qed.

Lemma generateAnimationFrames_bytes `{ArraySort} w h d fs :
  Forall pixel_bytes d -> generateAnimationFrames w h d = Some fs ->
  Forall (fun f => Forall pixel_bytes (pixels f)) fs.
Proof.
  intros Hd Hg. apply Forall_forall. intros f Hf. apply Forall_forall. intros p Hp.
  rewrite Forall_forall in Hd. apply Hd. eapply generateAnimationFrames_records; eauto.
Qed.

#[export] Hint Resolve putImageData1_bytes fold_put_bytes clearAndDraw_bytes cleared_bytes
  scan_bytes frame_bytes loaded_some_bytes calculateDifferences_bytes
  generateAnimationFrames_bytes : bytes.

Ltac bytes_tac :=
  let Hc := fresh "Hc" in let Hb := fresh "Hb" in let Ha := fresh "Ha" in
  let Hd := fresh "Hd" in let Hf := fresh "Hf" in
  intros [Hc Hb Ha Hd Hf]; page_cases; split; page_simpl;
  repeat match goal with
         | E : blankImage _ = _ |- _ => rewrite E in *; clear E
         | E : answerImage _ = _ |- _ => rewrite E in *; clear E
         | E : animationFrames _ = _ |- _ => rewrite E in *; clear E
         | E : Some _ = Some _ |- _ => injection E as E; subst
         end;
  eauto with bytes.

Lemma completeAnimation_bytes s : page_bytes s -> page_bytes (completeAnimation s).
Proof. unfold completeAnimation. bytes_tac. Qed.

Lemma animateFrame_bytes s : page_bytes s -> page_bytes (animateFrame s).
Proof. unfold animateFrame, completeAnimation, setTimeout. bytes_tac. Qed.

Lemma startAnimation_bytes s : page_bytes s -> page_bytes (startAnimation s).
Proof. unfold startAnimation, animateFrame, completeAnimation, setTimeout. bytes_tac. Qed.

Lemma pauseAnimation_bytes s : page_bytes s -> page_bytes (pauseAnimation s).
Proof. unfold pauseAnimation. bytes_tac. Qed.

Lemma resetAnimation_bytes s : page_bytes s -> page_bytes (resetAnimation s).
Proof. unfold resetAnimation, pauseAnimation. bytes_tac. Qed.

Lemma fireTimer_bytes id s s' : fireTimer id s = Some s' -> page_bytes s -> page_bytes s'.
Proof.
  unfold fireTimer. destruct (List.find _ _); intros [= <-] Hs. apply animateFrame_bytes.
  destruct Hs. by split.
Qed.

Lemma onSpeedInput_bytes speed s : page_bytes s -> page_bytes (onSpeedInput speed s).
Proof. unfold onSpeedInput. bytes_tac. Qed.

Lemma loadImage_bytes file type s :
  event_bytes (LoadImage type file) -> page_bytes s -> page_bytes (loadImage file type s).
Proof. simpl. unfold loadImage, checkImagesReady, setupCanvas. intros He. bytes_tac. Qed.

Section StepBytes.

Context `{ArraySort}.

Lemma processImages_bytes s : page_bytes s -> page_bytes (processImages s).
Proof. unfold processImages. bytes_tac. Qed.

(** Every event whose image is a byte buffer keeps the type invariant. *)
Lemma handle_bytes e s s' : event_bytes e -> handle e s = Some s' -> page_bytes s -> page_bytes s'.
Proof.
  intros He Hh. destruct e as [type file | | [ | | | speed | id]]; simpl in Hh;
    repeat match type of Hh with context [if ?b then _ else _] => destruct b end;
    try discriminate; try (injection Hh as <-).
  - by apply loadImage_bytes.
  - apply processImages_bytes.
  - apply startAnimation_bytes.
  - apply pauseAnimation_bytes.
  - apply resetAnimation_bytes.
  - apply onSpeedInput_bytes.
  - exact (fireTimer_bytes id s s' Hh).
Qed.

Lemma rtc_bytes s s' : rtc byteStep s s' -> page_bytes s -> page_bytes s'.
Proof.
  induction 1 as [|x y z (e & He & Hh) _ IH]; [done|].
  intros Hx. apply IH. exact (handle_bytes e x y He Hh Hx).
Qed.

Lemma initialPage_bytes cv : bytes (data cv) -> page_bytes (initialPage cv).
Proof. intros Hcv. by split. Qed.

(** C21: the type invariant.  In every page reached from a canvas
    element whose buffer holds bytes, by events whose images hold bytes
    (a [Uint8ClampedArray] holds nothing else), the canvas buffer and
    both loaded images hold bytes, and so do the four channels of every
    difference record and of every pixel of every frame: no channel the
    page writes with [putImageData] leaves 0..255. *)
Theorem reachable_bytes cv s :
  bytes (data cv) -> rtc byteStep (initialPage cv) s ->
  bytes (data (canvas s)) /\ loaded_bytes (blankImage s) /\ loaded_bytes (answerImage s) /\
  Forall pixel_bytes (differenceData s) /\
  Forall (fun f => Forall pixel_bytes (pixels f)) (animationFrames s).
Proof.
  intros Hcv Hr. destruct (rtc_bytes _ _ Hr (initialPage_bytes cv Hcv)) as [Hc Hb Ha Hd Hf].
  auto.
Qed.

End StepBytes.

#[export] Instance bytes_dec l : Decision (bytes l).
Proof. unfold bytes, byte. apply _. Defined.

Lemma progressAfter_bounds i n : (i < n)%nat -> (0 <= progressAfter i n <= 100)%Q.
Proof.
  intros Hi. unfold progressAfter.
  assert (0 < inject_Z (Z.of_nat n))%Q as Hn by (change 0%Q with (inject_Z 0); rewrite <- Zlt_Qlt; lia).
  assert (0 <= inject_Z (Z.of_nat (i + 1)) / inject_Z (Z.of_nat n))%Q as H0.
  { apply Qle_shift_div_l; [done|]. rewrite Qmult_0_l. change 0%Q with (inject_Z 0). rewrite <- Zle_Qle. lia. }
  assert (inject_Z (Z.of_nat (i + 1)) / inject_Z (Z.of_nat n) <= 1)%Q as H1.
  { apply Qle_shift_div_r; [done|]. rewrite Qmult_1_l. rewrite <- Zle_Qle. lia. }
  lra.
Qed.

Lemma animateFrame_guard (a : bool) n i : (negb a || (n <=? i)%nat) = false -> (i < n)%nat.
Proof. intros H. apply orb_false_iff in H as [_ H]. by apply Nat.leb_gt. Qed.

Create HintDb progress.

#[export] Hint Resolve progressAfter_bounds animateFrame_guard : progress.

Ltac progress_tac :=
  intros; unfold progress_ok in *; page_cases; first [done | lra | eauto with progress].

Lemma completeAnimation_progress s : progress_ok (completeAnimation s).
Proof. unfold completeAnimation. progress_tac. Qed.

Lemma animateFrame_progress s : progress_ok s -> progress_ok (animateFrame s).
Proof. unfold animateFrame, completeAnimation, setTimeout. progress_tac. Qed.

Lemma startAnimation_progress s : progress_ok s -> progress_ok (startAnimation s).
Proof. unfold startAnimation. intros Hs. destruct (animationFrames s); [done|]. by apply animateFrame_progress. Qed.

Lemma resetAnimation_progress s : progress_ok s -> progress_ok (resetAnimation s).
Proof. unfold resetAnimation, pauseAnimation. progress_tac. Qed.

Section StepProgress.

Context `{ArraySort}.

(** Every event keeps the progress bar within its bounds. *)
Lemma handle_progress e s s' : handle e s = Some s' -> progress_ok s -> progress_ok s'.
Proof.
  intros Hh Hs. destruct e as [type file | | [ | | | speed | id]]; simpl in Hh;
    repeat match type of Hh with context [if ?b then _ else _] => destruct b end;
    try discriminate; try (injection Hh as <-).
  - unfold loadImage, checkImagesReady, setupCanvas in *. revert Hs. progress_tac.
  - revert Hs. unfold processImages. progress_tac.
  - by apply startAnimation_progress.
  - revert Hs. unfold pauseAnimation. progress_tac.
  - by apply resetAnimation_progress.
  - done.
  - unfold fireTimer in Hh. destruct (List.find _ _); [|done]. injection Hh as <-.
    by apply animateFrame_progress.
Qed.

Lemma rtc_progress s s' : rtc step s s' -> progress_ok s -> progress_ok s'.
Proof.
  induction 1 as [|x y z (e & Hh) _ IH]; [done|].
  intros Hx. apply IH. exact (handle_progress e x y Hh Hx).
Qed.

(** C33: in every page reached from the freshly constructed one, by any
    events, the progress bar's width is between 0% and 100%: a tick sets
    it to [(index + 1) / total * 100] only while [index < total]. *)
Theorem reachable_progress cv s :
  rtc step (initialPage cv) s -> (0 <= progress s <= 100)%Q.
Proof. intros Hr. apply (rtc_progress _ _ Hr). unfold progress_ok. simpl. lra. Qed.

End StepProgress.

(** The same session, from the blank canvas, loading two byte buffers. *)
Lemma reachable_bytes_witness :
  bytes (data canvas0) /\
  rtc byteStep (initialPage canvas0) (startAnimation (processImages (loadBoth canvas0 paper oneBlock))) /\
  Forall (fun f => Forall pixel_bytes (pixels f))
    (animationFrames (startAnimation (processImages (loadBoth canvas0 paper oneBlock)))).
Proof.
  assert (bytes (data canvas0)) as Hcv by (apply (bool_decide_unpack _); vm_compute; reflexivity).
  assert (rtc byteStep (initialPage canvas0) (startAnimation (processImages (loadBoth canvas0 paper oneBlock))))
    as Hr.
  { eapply rtc_l; [exists (LoadImage Blank (Some paper)); split;
      [apply (bool_decide_unpack _); vm_compute; reflexivity | reflexivity]|].
    eapply rtc_l; [exists (LoadImage Answer (Some oneBlock)); split;
      [apply (bool_decide_unpack _); vm_compute; reflexivity | reflexivity]|].
    eapply rtc_l; [exists ClickProcess; split; [done | vm_compute; reflexivity]|].
    eapply rtc_l; [exists (Playback ClickPlay); split; [done | vm_compute; reflexivity]|].
    apply rtc_refl. }
  split; [exact Hcv|]. split; [exact Hr|].
  exact (proj2 (proj2 (proj2 (proj2 (reachable_bytes _ _ Hcv Hr))))).
Defined.

(** The session of the one-block page, played. *)
Lemma reachable_progress_witness :
  rtc step (initialPage canvas0) (startAnimation (processImages (loadBoth canvas0 paper oneBlock))) /\
  (progress (startAnimation (processImages (loadBoth canvas0 paper oneBlock))) <= 100)%Q.
Proof.
  assert (rtc step (initialPage canvas0) (startAnimation (processImages (loadBoth canvas0 paper oneBlock))))
    as Hr.
  { eapply rtc_l; [exists (LoadImage Blank (Some paper)); reflexivity|].
    eapply rtc_l; [exists (LoadImage Answer (Some oneBlock)); reflexivity|].
    eapply rtc_l; [exists ClickProcess; vm_compute; reflexivity|].
    eapply rtc_l; [exists (Playback ClickPlay); vm_compute; reflexivity|].
    apply rtc_refl. }
  split; [exact Hr|]. exact (proj2 (reachable_progress _ _ Hr)).
Defined.

End Invariants.
