(* ===== verification/ChunkingV1.v ===== *)
(** * ChunkingV1: the frames of the earlier version

    src/script_v1.js is an earlier version of the same class.  Its
    [generateAnimationFrames] (lines 172-193) does not segment: it sorts
    [this.differenceData] in place by a row-band comparator (rows are
    pixels less than 10 apart vertically) and cuts the sorted array into
    consecutive slices of [groupSize = max(1, floor(n / 100))] pixels,
    aiming at about 100 frames.  The page that plays them is AppV1. *)

From S2P Require Import Prelude Canvas Sequencer.

Open Scope Z_scope.

Module ChunkingV1.

Import Sequencer.

(** The comparator of [this.differenceData.sort]. *)
Definition comparePixels (a b : Pixel) : Z :=
  if Z.abs (py a - py b) <? 10 then px a - px b else py a - py b.

(** [Math.max(1, Math.floor(this.differenceData.length / 100))]. *)
Definition groupSize (n : nat) : nat := Nat.max 1 (n / 100).

(** [this.differenceData.slice(i, i + groupSize)]. *)
Definition slice (i j : nat) (l : list Pixel) : list Pixel := take (j - i) (drop i l).

(** [for (let i = 0; i < n; i += groupSize) frames.push(slice(i, i + groupSize))],
    from index [i], with [fuel] iterations. *)
Fixpoint chunkLoop (fuel g i : nat) (l : list Pixel) : list (list Pixel) :=
  match fuel with
  | O => []
  | S fuel' => if (i <? length l)%nat then slice i (i + g) l :: chunkLoop fuel' g (i + g) l else []
  end.

(** The loop runs at most [n] times: [groupSize] is at least 1. *)
Definition chunks (g : nat) (l : list Pixel) : list (list Pixel) := chunkLoop (length l) g 0 l.

(** [generateAnimationFrames()] of v1: the sorted differences (the sort
    is in place, so [this.differenceData] becomes this array) and the
    frames. *)
Definition generateAnimationFramesV1 `{ArraySort} (differenceData : list Pixel) :
    list Pixel * list (list Pixel) :=
  let sorted := sortBy (fun a b => inject_Z (comparePixels a b)) differenceData in
  (sorted, chunks (groupSize (length sorted)) sorted).

(** ** Lemmas *)

Lemma concat_chunkLoop fuel g i l :
  (1 <= g)%nat -> (length l - i <= fuel * g)%nat -> concat (chunkLoop fuel g i l) = drop i l.
Proof.
  intros Hg. revert i. induction fuel as [|fuel IH]; intros i Hf; simpl.
  - rewrite drop_ge; [done|lia].
  - destruct (Nat.ltb_spec i (length l)) as [Hi|Hi]; simpl; [|by rewrite drop_ge].
    rewrite IH by lia. unfold slice. replace (i + g - i)%nat with g by lia.
    by rewrite <- drop_drop, take_drop.
Qed.

Lemma length_chunkLoop fuel g i l :
  (1 <= g)%nat -> (length l - i <= fuel * g)%nat ->
  length (chunkLoop fuel g i l) = ((length l - i + g - 1) / g)%nat.
Proof.
  intros Hg. revert i. induction fuel as [|fuel IH]; intros i Hf; simpl.
  - replace (length l - i)%nat with 0%nat by lia. rewrite Nat.div_small; lia.
  - destruct (Nat.ltb_spec i (length l)) as [Hi|Hi]; simpl.
    + rewrite IH by lia.
      destruct (Nat.le_gt_cases g (length l - i)).
      * replace (length l - i + g - 1)%nat with ((length l - (i + g) + g - 1) + 1 * g)%nat by lia.
        rewrite Nat.div_add; lia.
      * replace (length l - (i + g) + g - 1)%nat with (g - 1)%nat by lia.
        rewrite Nat.div_small by lia. apply Nat.div_unique with (length l - i - 1)%nat; lia.
    + replace (length l - i)%nat with 0%nat by lia. rewrite Nat.div_small; lia.
Qed.

Lemma chunkLoop_sizes fuel g i l c :
  (1 <= g)%nat -> c ∈ chunkLoop fuel g i l -> (1 <= length c <= g)%nat.
Proof.
  intros Hg. revert i. induction fuel as [|fuel IH]; intros i Hc; simpl in Hc; [inversion Hc|].
  destruct (Nat.ltb_spec i (length l)); [|inversion Hc].
  apply elem_of_cons in Hc as [->|Hc]; [|by eapply IH].
  unfold slice. rewrite length_take, length_drop. lia.
Qed.

Lemma groupSize_pos n : (1 <= groupSize n)%nat.
Proof. unfold groupSize. lia. Qed.

Section Claims.

Context `{ArraySort}.

Lemma generateV1_frames d :
  concat (generateAnimationFramesV1 d).2 = (generateAnimationFramesV1 d).1 /\
  Permutation (generateAnimationFramesV1 d).1 d.
Proof.
  unfold generateAnimationFramesV1, chunks. simpl. split; [|apply sortBy_perm].
  rewrite concat_chunkLoop; [done | apply groupSize_pos |].
  pose proof (groupSize_pos (length (sortBy (λ a b, inject_Z (comparePixels a b)) d))). nia.
Qed.

Lemma generateAnimationFramesV1_nil : generateAnimationFramesV1 [] = ([], []).
Proof.
  unfold generateAnimationFramesV1.
  pose proof (sortBy_perm _ (fun a b => inject_Z (comparePixels a b)) []) as Hp.
  symmetry in Hp. apply Permutation_nil in Hp. by rewrite Hp.
Qed.

(** C36: the v1 frames cut the sorted differences into consecutive
    slices: joined back they are the sorted array, which is a
    permutation of the differences. *)
Theorem framesV1_roundtrip d :
  concat (generateAnimationFramesV1 d).2 = (generateAnimationFramesV1 d).1 /\
  Permutation (generateAnimationFramesV1 d).1 d.
Proof.
  unfold generateAnimationFramesV1, chunks. simpl. split; [|apply sortBy_perm].
  set (l := sortBy _ d). pose proof (groupSize_pos (length l)).
  rewrite concat_chunkLoop; [done | done | nia].
Qed.

(** C37: with [n] differences and [g = groupSize n], v1 builds
    [ceil(n / g)] frames of 1 to [g] pixels: [n] frames when [n < 200],
    and from 100 up to 199 frames when [n >= 100] (the comment's "about
    100 frames"). *)
Theorem framesV1_count d :
  length (generateAnimationFramesV1 d).2 =
    ((length d + groupSize (length d) - 1) / groupSize (length d))%nat /\
  (forall f, f ∈ (generateAnimationFramesV1 d).2 -> (1 <= length f <= groupSize (length d))%nat) /\
  ((length d < 200)%nat -> length (generateAnimationFramesV1 d).2 = length d) /\
  ((100 <= length d)%nat -> (100 <= length (generateAnimationFramesV1 d).2 <= 199)%nat).
Proof.
  assert (length (generateAnimationFramesV1 d).1 = length d) as Hl
    by apply Permutation_length, generateV1_frames.
  assert (length (generateAnimationFramesV1 d).2 =
    ((length d + groupSize (length d) - 1) / groupSize (length d))%nat) as Hn.
  { unfold generateAnimationFramesV1, chunks in *. simpl in *. rewrite Hl.
    rewrite length_chunkLoop, Hl, Nat.sub_0_r; [done | apply groupSize_pos |].
    pose proof (groupSize_pos (length d)). rewrite Hl. nia. }
  split; [done|]. split.
  - intros f Hf. unfold generateAnimationFramesV1, chunks in *. simpl in *.
    rewrite <- Hl. eapply chunkLoop_sizes; [apply groupSize_pos | exact Hf].
  - rewrite Hn. unfold groupSize.
    pose proof (Nat.div_mod (length d) 100 ltac:(lia)).
    pose proof (Nat.mod_upper_bound (length d) 100 ltac:(lia)).
    split; intros Hd.
    + replace (Nat.max 1 (length d / 100)) with 1%nat by lia.
      rewrite Nat.div_1_r. lia.
    + replace (Nat.max 1 (length d / 100)) with (length d / 100)%nat by lia. split.
      * apply Nat.div_le_lower_bound; lia.
      * apply Nat.lt_succ_r, Nat.Div0.div_lt_upper_bound; lia.
Qed.

End Claims.

End ChunkingV1.
