(* ===== verification/PlaybackSpec.v ===== *)
(** * PlaybackSpec: the playback state machine of the design, and the
      code's playback as a refinement of it

    The design describes playback as a machine [Idle -> Running <->
    Paused -> Complete] with a [Reset] back to [Idle] at index 0: [start]
    from [Idle] or [Paused] when frames exist, a [tick] that reveals the
    frame at the index and advances it, or completes once the index has
    reached the end, and [pause] from [Running].  The abstract state is
    the phase and the index ([AState]); [astep] is the machine; [render]
    is what the canvas shows in each abstract state: the blank page with
    the first [index] frames written, or the full answer page once
    complete.

    The refinement theorem relates the Scheduler's [handlePlayback] to
    [astep]: from a page ready to play, every sequence of playback events
    is matched by a sequence of abstract steps whose final state has the
    same index, is running exactly when the page is, and renders exactly
    the page's canvas.  A click on play is a [start] and a [tick] (the
    code draws the first frame at once); play on a completed page and
    the slider are stuttering steps. *)

From S2P Require Import Prelude Canvas Sequencer Scheduler.

Open Scope Z_scope.

Module PlaybackSpec.

Import Sequencer Scheduler.

Inductive Phase := Idle | Running | Paused | Complete.

#[export] Instance Phase_eq_dec : EqDecision Phase.
Proof. solve_decision. Defined.

Record AState := mkA { phase : Phase; index : nat }.

Section Machine.

(** The number of frames. *)
Context (N : nat).

Inductive astep : AState -> AState -> Prop :=
| AStart p i : (p = Idle \/ p = Paused) -> (0 < N)%nat -> astep (mkA p i) (mkA Running i)
| ATick i : (i < N)%nat -> astep (mkA Running i) (mkA Running (S i))
| AFinish i : (N <= i)%nat -> astep (mkA Running i) (mkA Complete i)
| APause i : astep (mkA Running i) (mkA Paused i)
| AReset st : astep st (mkA Idle 0).

End Machine.

(** The canvas in an abstract state, over the page [base] and the
    answer page [answerC]. *)
Definition render (fs : list Frame) (base answerC : ImageData) (st : AState) : ImageData :=
  match phase st with
  | Complete => answerC
  | _ => fold_left putImageData1 (concat (map pixels (take (index st) fs))) base
  end.

Section Refinement.

(** The plan, the two images and the canvas size. *)
Context (fs : list Frame) (b a : ImageData) (W H : Z).

Definition base : ImageData := clearAndDraw W H b.
Definition answerC : ImageData := clearAndDraw W H a.

(** What playback never changes: the plan, the images and the canvas
    size. *)
Definition fixed (s : Animator) : Prop :=
  animationFrames s = fs /\ blankImage s = Some b /\ answerImage s = Some a /\
  width (canvas s) = W /\ height (canvas s) = H.

(** What playback keeps: one pending callback at most, and the play and
    pause buttons enabled exactly when they should be. *)
Definition pinv (s : Animator) : Prop :=
  playback_inv s /\ playDisabled (controls s) = isAnimating s /\
  pauseDisabled (controls s) = negb (isAnimating s) /\ fixed s.

(** A page and an abstract state agree. *)
Definition refines (s : Animator) (st : AState) : Prop :=
  currentFrame s = index st /\ isAnimating s = bool_decide (phase st = Running) /\
  canvas s = render fs base answerC st /\
  (phase st = Complete -> length fs <= index st)%nat.

End Refinement.

(** ** Lemmas *)

Lemma animateFrame_done s :
  (length (animationFrames s) <= currentFrame s)%nat -> animateFrame s = completeAnimation s.
Proof. intros Hle. unfold animateFrame. apply Nat.leb_le in Hle. by rewrite Hle, orb_true_r. Qed.

Lemma completeAnimation_fields s img :
  answerImage s = Some img ->
  canvas (completeAnimation s) = clearAndDraw (width (canvas s)) (height (canvas s)) img /\
  isAnimating (completeAnimation s) = false /\
  currentFrame (completeAnimation s) = currentFrame s /\
  playDisabled (controls (completeAnimation s)) = false /\
  pauseDisabled (controls (completeAnimation s)) = true /\
  animationFrames (completeAnimation s) = animationFrames s /\
  blankImage (completeAnimation s) = blankImage s /\
  answerImage (completeAnimation s) = answerImage s /\
  timers (completeAnimation s) = timers s.
Proof. intros Ha. unfold completeAnimation. simpl. rewrite Ha. simpl. auto 10. Qed.

Lemma resetAnimation_fields s img :
  blankImage s = Some img ->
  canvas (resetAnimation s) = clearAndDraw (width (canvas s)) (height (canvas s)) img /\
  isAnimating (resetAnimation s) = false /\ currentFrame (resetAnimation s) = 0%nat /\
  playDisabled (controls (resetAnimation s)) = false /\
  pauseDisabled (controls (resetAnimation s)) = true /\
  animationFrames (resetAnimation s) = animationFrames s /\
  blankImage (resetAnimation s) = blankImage s /\
  answerImage (resetAnimation s) = answerImage s /\
  timers (resetAnimation s) = timers (pauseAnimation s).
Proof.
  intros Hb. unfold resetAnimation, pauseAnimation.
  cbn zeta. simpl. destruct (animationTimer s); simpl; rewrite Hb; simpl; auto 10.
Qed.

Lemma pauseAnimation_fields s :
  canvas (pauseAnimation s) = canvas s /\ currentFrame (pauseAnimation s) = currentFrame s /\
  playDisabled (controls (pauseAnimation s)) = false /\
  pauseDisabled (controls (pauseAnimation s)) = true /\
  animationFrames (pauseAnimation s) = animationFrames s /\
  blankImage (pauseAnimation s) = blankImage s /\ answerImage (pauseAnimation s) = answerImage s.
Proof. unfold pauseAnimation. cbn zeta. simpl. destruct (animationTimer s); simpl; auto 10. Qed.

Lemma render_prefix fs base ans p i :
  p <> Complete ->
  render fs base ans (mkA p i) = fold_left putImageData1 (concat (map pixels (take i fs))) base.
Proof. by destruct p. Qed.

Lemma fold_take_frame fs i f c :
  fs !! i = Some f ->
  fold_left putImageData1 (concat (map pixels (take (S i) fs))) c =
  fold_left putImageData1 (pixels f) (fold_left putImageData1 (concat (map pixels (take i fs))) c).
Proof.
  intros Hf. rewrite <- fold_left_app, (take_S_r _ _ f Hf), map_app, concat_app.
  simpl. by rewrite app_nil_r.
Qed.

Lemma not_running st : bool_decide (phase st = Running) = false -> phase st <> Running.
Proof. by rewrite bool_decide_eq_false. Qed.

Lemma is_running st : bool_decide (phase st = Running) = true -> phase st = Running.
Proof. by rewrite bool_decide_eq_true. Qed.

Section Simulation.

Context (fs : list Frame) (b a : ImageData) (W H : Z).

(** The frame at the index of a running page is drawn: the abstract
    state ticks from [(p, i)] to [(Running, i + 1)]. *)
Lemma draw_refines u p i f :
  fixed fs b a W H u -> currentFrame u = i ->
  canvas u = render fs (base b W H) (answerC a W H) (mkA p i) ->
  p <> Complete -> isAnimating u = true -> fs !! i = Some f ->
  timers u = [] -> playDisabled (controls u) = true -> pauseDisabled (controls u) = false ->
  refines fs b a W H (animateFrame u) (mkA Running (S i)) /\ pinv fs b a W H (animateFrame u).
Proof.
  intros (Hfs & Hb & Ha & HW & HH) Hcf Hcv Hp Han Hf Ht Hpd Hpa.
  assert (animationFrames u !! currentFrame u = Some f) as Hfu by (by rewrite Hfs, Hcf).
  destruct (animateFrame_draw u f Han Hfu)
    as (Hc & Hcf' & _ & _ & _ & Ha' & Hfs' & Han' & Hb' & Hct').
  destruct (fold_put_dims (pixels f) (canvas u)) as (HW' & HH' & _).
  split.
  - split; [by rewrite Hcf', Hcf|]. split; [by rewrite Ha'|]. split; [|done].
    rewrite Hc, Hcv, !render_prefix by done. by rewrite (fold_take_frame _ _ _ _ Hf).
  - split; [by apply animateFrame_inv|].
    rewrite Hct', Ha', Hpd, Hpa. split; [done|]. split; [done|].
    unfold fixed. rewrite Hfs', Han', Hb', Hc, HW', HH'. auto.
Qed.

(** Past the last frame, the page completes: the abstract state is
    [(Complete, i)]. *)
Lemma complete_refines u i :
  fixed fs b a W H u -> currentFrame u = i -> (length fs <= i)%nat -> timers u = [] ->
  refines fs b a W H (completeAnimation u) (mkA Complete i) /\
  pinv fs b a W H (completeAnimation u).
Proof.
  intros (Hfs & Hb & Ha & HW & HH) Hcf Hle Ht.
  destruct (completeAnimation_fields u a Ha)
    as (Hc & Han & Hcf' & Hpd & Hpa & Hfs' & Hb' & Ha' & Ht').
  split.
  - split; [by rewrite Hcf'|]. split; [by rewrite Han|]. split; [|done].
    rewrite Hc, HW, HH. done.
  - split; [left; by rewrite Ht', Ht, Han|].
    rewrite Hpd, Hpa, Han. split; [done|]. split; [done|].
    unfold fixed. rewrite Hfs', Hb', Ha', Hc. simpl. auto.
Qed.

(** The abstract state of a stopped page is not running; of a running
    page, running. *)
Lemma stopped_phase s st :
  refines fs b a W H s st -> isAnimating s = false -> phase st <> Running.
Proof. intros (_ & Han & _) Hs. apply not_running. by rewrite <- Han. Qed.

Lemma running_phase s st :
  refines fs b a W H s st -> isAnimating s = true -> phase st = Running.
Proof. intros (_ & Han & _) Hs. apply is_running. by rewrite <- Han. Qed.

(** A running page at index [i]: the tick draws or completes. *)
Lemma tick_refines u p i :
  fixed fs b a W H u -> currentFrame u = i ->
  canvas u = render fs (base b W H) (answerC a W H) (mkA p i) ->
  (p = Complete -> length fs <= i)%nat -> isAnimating u = true ->
  timers u = [] -> playDisabled (controls u) = true -> pauseDisabled (controls u) = false ->
  ((i < length fs)%nat /\ p <> Complete /\
   refines fs b a W H (animateFrame u) (mkA Running (S i)) /\ pinv fs b a W H (animateFrame u)) \/
  ((length fs <= i)%nat /\
   refines fs b a W H (animateFrame u) (mkA Complete i) /\ pinv fs b a W H (animateFrame u)).
Proof.
  intros Hx Hcf Hcv Hc Han Ht Hpd Hpa. pose proof Hx as (Hfs & _).
  destruct (Nat.lt_ge_cases i (length fs)) as [Hi|Hi].
  - left. assert (p <> Complete) as Hp by (intros ->; specialize (Hc eq_refl); lia).
    destruct (lookup_lt_is_Some_2 fs i Hi) as [f Hf].
    split; [done|]. split; [done|]. by apply (draw_refines u p i f).
  - right. rewrite animateFrame_done by (rewrite Hfs; lia). split; [done|].
    by apply complete_refines.
Qed.

Lemma play_refines s st :
  pinv fs b a W H s -> refines fs b a W H s st -> playDisabled (controls s) = false ->
  exists st', rtc (astep (length fs)) st st' /\
    refines fs b a W H (startAnimation s) st' /\ pinv fs b a W H (startAnimation s).
Proof.
  intros Hi0 Hr Hp0. pose proof Hi0 as (Hinv & Hpd & Hpa & Hx).
  pose proof Hx as (Hfs & Hb & Ha & HW & HH).
  assert (isAnimating s = false) as Hs by congruence.
  assert (timers s = []) as Ht by (destruct Hinv as [[? _]|(? & ? & _ & _ & ? & _)]; congruence).
  pose proof (stopped_phase s st Hr Hs) as Hnr.
  destruct (decide (fs = [])) as [E|Efs].
  { assert (startAnimation s = s) as -> by (unfold startAnimation; by rewrite Hfs, E).
    exists st. split; [apply rtc_refl | by split]. }
  destruct st as [p i]. destruct Hr as (Hcf & _ & Hcv & Hc). simpl in *.
  assert (0 < length fs)%nat as HN by (destruct fs; [done | simpl; lia]).
  set (u := set_controls (setPauseDisabled false (setPlayDisabled true (controls s)))
              (set_isAnimating true s)).
  assert (startAnimation s = animateFrame u) as ->
    by (unfold startAnimation; rewrite Hfs; by destruct fs).
  destruct (tick_refines u p i) as [(Hi & Hpc & Hr' & Hp')|(Hi & Hr' & Hp')]; try done.
  - exists (mkA Running (S i)). split; [|done].
    eapply rtc_l; [apply AStart; [destruct p; naive_solver | done]|].
    apply rtc_once, ATick, Hi.
  - destruct (decide (p = Complete)) as [->|Hpc].
    + exists (mkA Complete i). split; [apply rtc_refl | done].
    + exists (mkA Complete i). split; [|done].
      eapply rtc_l; [apply AStart; [destruct p; naive_solver | done]|].
      apply rtc_once, AFinish, Hi.
Qed.

Lemma pause_refines s st :
  pinv fs b a W H s -> refines fs b a W H s st -> pauseDisabled (controls s) = false ->
  rtc (astep (length fs)) st (mkA Paused (index st)) /\
  refines fs b a W H (pauseAnimation s) (mkA Paused (index st)) /\
  pinv fs b a W H (pauseAnimation s).
Proof.
  intros (Hinv & Hpd & Hpa & Hx) Hr Hp0. pose proof Hx as (Hfs & Hb & Ha & HW & HH).
  assert (isAnimating s = true) as Hs by (destruct (isAnimating s); [done|by rewrite Hpa in Hp0]).
  pose proof (running_phase s st Hr Hs) as Hrun. destruct st as [p i]. simpl in *. subst p.
  destruct Hr as (Hcf & _ & Hcv & _).
  destruct (pauseAnimation_fields s) as (Hc & Hcf' & Hpd' & Hpa' & Hfs' & Hb' & Ha').
  destruct (pauseAnimation_inv s Hinv) as [Ht' Han'].
  split; [apply rtc_once, APause|]. split.
  - split; [by rewrite Hcf'|]. split; [by rewrite Han'|]. split; [|done].
    by rewrite Hc, Hcv.
  - split; [left; auto|]. rewrite Hpd', Hpa', Han'. split; [done|]. split; [done|].
    unfold fixed. rewrite Hfs', Hb', Ha', Hc. auto.
Qed.

Lemma reset_refines s st :
  pinv fs b a W H s -> refines fs b a W H s st ->
  rtc (astep (length fs)) st (mkA Idle 0) /\
  refines fs b a W H (resetAnimation s) (mkA Idle 0) /\ pinv fs b a W H (resetAnimation s).
Proof.
  intros (Hinv & Hpd & Hpa & Hx) Hr. pose proof Hx as (Hfs & Hb & Ha & HW & HH).
  destruct (resetAnimation_fields s b Hb) as (Hc & Han & Hcf & Hpd' & Hpa' & Hfs' & Hb' & Ha' & Ht).
  destruct (pauseAnimation_inv s Hinv) as [Ht' _].
  split; [apply rtc_once, AReset|]. split.
  - split; [done|]. split; [by rewrite Han|]. split; [|done].
    rewrite Hc, HW, HH. done.
  - split; [left; by rewrite Ht, Ht'|]. rewrite Hpd', Hpa', Han. split; [done|]. split; [done|].
    unfold fixed. rewrite Hfs', Hb', Ha', Hc. simpl. auto.
Qed.

Lemma timer_refines s st id s' :
  pinv fs b a W H s -> refines fs b a W H s st -> fireTimer id s = Some s' ->
  exists st', rtc (astep (length fs)) st st' /\ refines fs b a W H s' st' /\ pinv fs b a W H s'.
Proof.
  intros (Hinv & Hpd & Hpa & Hx) Hr Hf. pose proof Hx as (Hfs & Hb & Ha & HW & HH).
  unfold fireTimer in Hf. destruct (List.find _ _) as [[id' d']|] eqn:Hfind; [|done].
  injection Hf as <-. apply List.find_some in Hfind as [Hin Heq].
  apply Nat.eqb_eq in Heq. simpl in Heq. subst id'.
  destruct Hinv as [[Ht _]|(id0 & d & Ht & _ & Hs & Hp)]; [by rewrite Ht in Hin|].
  rewrite Ht in Hin. destruct Hin as [[= -> ->]|[]].
  assert (clearTimeout id [(id, d')] = []) as Hcl by (simpl; by rewrite Nat.eqb_refl).
  rewrite Ht, Hcl.
  pose proof (running_phase s st Hr Hs) as Hrun. destruct st as [p i]. simpl in *. subst p.
  destruct Hr as (Hcf & _ & Hcv & Hc).
  assert (pauseDisabled (controls (set_timers [] s)) = false) as Hpa' by (simpl; by rewrite Hpa, Hs).
  destruct (tick_refines (set_timers [] s) Running i Hx Hcf Hcv Hc Hs eq_refl Hp Hpa')
    as [(Hi & _ & Hr' & Hp')|(Hi & Hr' & Hp')].
  - exists (mkA Running (S i)). split; [apply rtc_once, ATick, Hi | done].
  - exists (mkA Complete i). split; [apply rtc_once, AFinish, Hi | done].
Qed.

(** Every playback event is matched by abstract steps. *)
Lemma step_refines e s s' st :
  pinv fs b a W H s -> refines fs b a W H s st -> handlePlayback e s = Some s' ->
  exists st', rtc (astep (length fs)) st st' /\ refines fs b a W H s' st' /\ pinv fs b a W H s'.
Proof.
  intros Hi Hr He. destruct e as [| | |speed|id]; simpl in He.
  - destruct (playDisabled _) eqn:Hp; [done|]. injection He as <-. by apply play_refines.
  - destruct (pauseDisabled _) eqn:Hp; [done|]. injection He as <-.
    exists (mkA Paused (index st)). by apply pause_refines.
  - destruct (resetDisabled _); [done|]. injection He as <-.
    exists (mkA Idle 0). by apply reset_refines.
  - destruct (_ && _); [|done]. injection He as <-. exists st. split; [apply rtc_refl|].
    destruct Hr as (? & ? & ? & ?), Hi as (Hinv & ? & ? & ? & ? & ? & ? & ?).
    repeat split; auto.
  - by eapply timer_refines.
Qed.

Lemma steps_refine s s' st :
  pinv fs b a W H s -> refines fs b a W H s st -> rtc pstep s s' ->
  exists st', rtc (astep (length fs)) st st' /\ refines fs b a W H s' st'.
Proof.
  intros Hi Hr Hs. revert st Hi Hr.
  induction Hs as [s|s s1 s2 [e He] _ IH]; intros st Hi Hr; [by exists st|].
  destruct (step_refines e s s1 st Hi Hr He) as (st1 & Hst1 & Hr1 & Hi1).
  destruct (IH st1 Hi1 Hr1) as (st2 & Hst2 & Hr2). exists st2. split; [|done].
  by transitivity st1.
Qed.

End Simulation.

(** C40: the code's playback refines the design's machine.  From a page
    ready to play a plan (the blank image on the canvas, index 0,
    stopped, nothing pending, play enabled and pause disabled), every
    sequence of playback events leads to a page that an abstract run
    from [(Idle, 0)] also reaches: same index, running exactly when the
    abstract state is [Running], and the canvas is the abstract state's
    rendering: the blank page with the first [index] frames written, or
    the answer page once complete. *)
Theorem playback_refines fs b a s0 s :
  animationFrames s0 = fs -> blankImage s0 = Some b -> answerImage s0 = Some a ->
  canvas s0 = clearAndDraw (width (canvas s0)) (height (canvas s0)) b ->
  currentFrame s0 = 0%nat -> isAnimating s0 = false -> timers s0 = [] ->
  playDisabled (controls s0) = false -> pauseDisabled (controls s0) = true ->
  rtc pstep s0 s ->
  exists st, rtc (astep (length fs)) (mkA Idle 0) st /\
    currentFrame s = index st /\ isAnimating s = bool_decide (phase st = Running) /\
    canvas s = render fs (clearAndDraw (width (canvas s0)) (height (canvas s0)) b)
                 (clearAndDraw (width (canvas s0)) (height (canvas s0)) a) st.
Proof.
  intros Hfs Hb Ha Hc Hcf Han Ht Hpd Hpa Hs.
  set (W := width (canvas s0)). set (H := height (canvas s0)).
  assert (pinv fs b a W H s0) as Hi.
  { split; [left; auto|]. rewrite Hpd, Hpa, Han. repeat split; auto. }
  assert (refines fs b a W H s0 (mkA Idle 0)) as Hr.
  { split; [done|]. split; [by rewrite Han|]. split; [exact Hc|done]. }
  destruct (steps_refine fs b a W H s0 s _ Hi Hr Hs) as (st & Hst & Hcf' & Han' & Hc' & _).
  exists st. auto.
Qed.

(** The ready page of the Scheduler's samples, played once. *)
Lemma playback_refines_witness :
  animationFrames sample_state = sample_frames /\
  canvas sample_state = clearAndDraw 10 10 (cleared 10 10) /\
  currentFrame (startAnimation sample_state) = 1%nat.
Proof.
  assert (canvas sample_state =
          clearAndDraw (width (canvas sample_state)) (height (canvas sample_state)) (cleared 10 10))
    as Hc by (vm_compute; reflexivity).
  assert (rtc pstep sample_state (startAnimation sample_state)) as Hs.
  { apply rtc_once. exists ClickPlay. reflexivity. }
  destruct (playback_refines sample_frames (cleared 10 10) (cleared 10 10) sample_state _
              eq_refl eq_refl eq_refl Hc eq_refl eq_refl eq_refl eq_refl eq_refl Hs)
    as (st & _ & Hcf & _).
  split; [reflexivity|]. split; [exact Hc|]. vm_compute. reflexivity.
Defined.

End PlaybackSpec.
