(* ===== verification/AppV1.v ===== *)
(** * AppV1: the page of the earlier version

    src/script_v1.js is an earlier version of the same [AnswerAnimator]
    class.  Its fields (constructor, lines 2-15) lack
    [fastTransitionSpeed]; its frames are the slices of ChunkingV1; its
    [processImages] (99-140) has none of the checks of src/script.js and
    reports every failure with one message; [animateFrame] (205-234)
    always waits [animationSpeed]; [completeAnimation] (264-271) does not
    repaint the answer image.  Loading ([loadImage], [checkImagesReady],
    [setupCanvas], 56-97), [pauseAnimation] (236-245), [resetAnimation]
    (247-262) and the listeners (17-54) are those of src/script.js up to
    the status messages and the slider, which sets only
    [animationSpeed].

    The state is the record [AnimatorV1] with one setter per field; the
    events are those of [App.Event], and [handleV1] is the v1 page's
    reaction to one of them. *)

From S2P Require Import Prelude Canvas Differ Segmenter Sequencer Scheduler App ChunkingV1.

Open Scope Z_scope.

Module AppV1.

Import Differ Sequencer ChunkingV1.

(** The status line's messages of v1. *)
Inductive MessageV1 :=
| V1BlankLoaded | V1AnswerLoaded | V1Ready | V1Processing | V1Processed
| V1ProcessFailed | V1Reset | V1Complete | V1Initial.

Definition StatusV1 : Type := MessageV1 * Scheduler.StatusKind.

Record AnimatorV1 := mkAnimatorV1 {
  canvas : ImageData;
  blankImage : option ImageData;
  answerImage : option ImageData;
  differenceData : list Pixel;
  animationFrames : list (list Pixel);
  currentFrame : nat;
  isAnimating : bool;
  animationSpeed : Z;
  animationTimer : option nat;
  timers : list (nat * Z);
  nextTimerId : nat;
  progress : Q;
  controls : Scheduler.Controls;
  status : StatusV1
}.

Definition set_canvas (v : ImageData) (s : AnimatorV1) : AnimatorV1 :=
  mkAnimatorV1 v (blankImage s) (answerImage s) (differenceData s) (animationFrames s)
    (currentFrame s) (isAnimating s) (animationSpeed s) (animationTimer s) (timers s) (nextTimerId
    s) (progress s) (controls s) (status s).
Definition set_blankImage (v : option ImageData) (s : AnimatorV1) : AnimatorV1 :=
  mkAnimatorV1 (canvas s) v (answerImage s) (differenceData s) (animationFrames s) (currentFrame
    s) (isAnimating s) (animationSpeed s) (animationTimer s) (timers s) (nextTimerId s) (progress s)
    (controls s) (status s).
Definition set_answerImage (v : option ImageData) (s : AnimatorV1) : AnimatorV1 :=
  mkAnimatorV1 (canvas s) (blankImage s) v (differenceData s) (animationFrames s) (currentFrame s)
    (isAnimating s) (animationSpeed s) (animationTimer s) (timers s) (nextTimerId s) (progress s)
    (controls s) (status s).
Definition set_differenceData (v : list Pixel) (s : AnimatorV1) : AnimatorV1 :=
  mkAnimatorV1 (canvas s) (blankImage s) (answerImage s) v (animationFrames s) (currentFrame s)
    (isAnimating s) (animationSpeed s) (animationTimer s) (timers s) (nextTimerId s) (progress s)
    (controls s) (status s).
Definition set_animationFrames (v : list (list Pixel)) (s : AnimatorV1) : AnimatorV1 :=
  mkAnimatorV1 (canvas s) (blankImage s) (answerImage s) (differenceData s) v (currentFrame s)
    (isAnimating s) (animationSpeed s) (animationTimer s) (timers s) (nextTimerId s) (progress s)
    (controls s) (status s).
Definition set_currentFrame (v : nat) (s : AnimatorV1) : AnimatorV1 :=
  mkAnimatorV1 (canvas s) (blankImage s) (answerImage s) (differenceData s) (animationFrames s) v
    (isAnimating s) (animationSpeed s) (animationTimer s) (timers s) (nextTimerId s) (progress s)
    (controls s) (status s).
Definition set_isAnimating (v : bool) (s : AnimatorV1) : AnimatorV1 :=
  mkAnimatorV1 (canvas s) (blankImage s) (answerImage s) (differenceData s) (animationFrames s)
    (currentFrame s) v (animationSpeed s) (animationTimer s) (timers s) (nextTimerId s) (progress s)
    (controls s) (status s).
Definition set_animationSpeed (v : Z) (s : AnimatorV1) : AnimatorV1 :=
  mkAnimatorV1 (canvas s) (blankImage s) (answerImage s) (differenceData s) (animationFrames s)
    (currentFrame s) (isAnimating s) v (animationTimer s) (timers s) (nextTimerId s) (progress s)
    (controls s) (status s).
Definition set_animationTimer (v : option nat) (s : AnimatorV1) : AnimatorV1 :=
  mkAnimatorV1 (canvas s) (blankImage s) (answerImage s) (differenceData s) (animationFrames s)
    (currentFrame s) (isAnimating s) (animationSpeed s) v (timers s) (nextTimerId s) (progress s)
    (controls s) (status s).
Definition set_timers (v : list (nat * Z)) (s : AnimatorV1) : AnimatorV1 :=
  mkAnimatorV1 (canvas s) (blankImage s) (answerImage s) (differenceData s) (animationFrames s)
    (currentFrame s) (isAnimating s) (animationSpeed s) (animationTimer s) v (nextTimerId s)
    (progress s) (controls s) (status s).
Definition set_nextTimerId (v : nat) (s : AnimatorV1) : AnimatorV1 :=
  mkAnimatorV1 (canvas s) (blankImage s) (answerImage s) (differenceData s) (animationFrames s)
    (currentFrame s) (isAnimating s) (animationSpeed s) (animationTimer s) (timers s) v (progress s)
    (controls s) (status s).
Definition set_progress (v : Q) (s : AnimatorV1) : AnimatorV1 :=
  mkAnimatorV1 (canvas s) (blankImage s) (answerImage s) (differenceData s) (animationFrames s)
    (currentFrame s) (isAnimating s) (animationSpeed s) (animationTimer s) (timers s) (nextTimerId
    s) v (controls s) (status s).
Definition set_controls (v : Scheduler.Controls) (s : AnimatorV1) : AnimatorV1 :=
  mkAnimatorV1 (canvas s) (blankImage s) (answerImage s) (differenceData s) (animationFrames s)
    (currentFrame s) (isAnimating s) (animationSpeed s) (animationTimer s) (timers s) (nextTimerId
    s) (progress s) v (status s).
Definition set_status (v : StatusV1) (s : AnimatorV1) : AnimatorV1 :=
  mkAnimatorV1 (canvas s) (blankImage s) (answerImage s) (differenceData s) (animationFrames s)
    (currentFrame s) (isAnimating s) (animationSpeed s) (animationTimer s) (timers s) (nextTimerId
    s) (progress s) (controls s) v.

(** The page after [DOMContentLoaded], on the canvas element [cv], with
    the buttons as the page declares them. *)
Definition initialPageV1 (cv : ImageData) : AnimatorV1 :=
  mkAnimatorV1 cv None None [] [] 0 false 14 None [] 1 0 Scheduler.initialControls
    (V1Initial, Scheduler.Info).

(** [this.animationTimer = setTimeout(() => this.animateFrame(), delay)]. *)
Definition setTimeout (delay : Z) (s : AnimatorV1) : AnimatorV1 :=
  let id := nextTimerId s in
  set_nextTimerId (S id) (set_animationTimer (Some id) (set_timers (timers s ++ [(id, delay)]) s)).

(** [completeAnimation()] of v1: stop, swap the buttons, fill the
    progress bar and report; the canvas is left as it is. *)
Definition completeAnimation (s : AnimatorV1) : AnimatorV1 :=
  let s := set_isAnimating false s in
  let s := set_controls (Scheduler.setPauseDisabled true
                           (Scheduler.setPlayDisabled false (controls s))) s in
  let s := set_progress 100 s in
  set_status (V1Complete, Scheduler.Success) s.

(** [animateFrame()] of v1: complete when stopped or past the end;
    otherwise write the slice at the index, update the progress, advance
    and schedule the next call after [animationSpeed]. *)
Definition animateFrame (s : AnimatorV1) : AnimatorV1 :=
  if negb (isAnimating s) || (length (animationFrames s) <=? currentFrame s)%nat
  then completeAnimation s
  else
    let frame := nth (currentFrame s) (animationFrames s) [] in
    let s := set_canvas (fold_left putImageData1 frame (canvas s)) s in
    let s := set_progress (Scheduler.progressAfter (currentFrame s)
                             (length (animationFrames s))) s in
    let s := set_currentFrame (S (currentFrame s)) s in
    setTimeout (animationSpeed s) s.

(** [startAnimation()] of v1. *)
Definition startAnimation (s : AnimatorV1) : AnimatorV1 :=
  match animationFrames s with
  | [] => s
  | _ =>
      let s := set_isAnimating true s in
      let s := set_controls (Scheduler.setPauseDisabled false
                               (Scheduler.setPlayDisabled true (controls s))) s in
      animateFrame s
  end.

(** [pauseAnimation()] of v1. *)
Definition pauseAnimation (s : AnimatorV1) : AnimatorV1 :=
  let s := set_isAnimating false s in
  let s := match animationTimer s with
           | Some id => set_animationTimer None (set_timers (Scheduler.clearTimeout id (timers s)) s)
           | None => s
           end in
  set_controls (Scheduler.setPauseDisabled true (Scheduler.setPlayDisabled false (controls s))) s.

(** [resetAnimation()] of v1; a missing blank image throws after the
    [clearRect]. *)
Definition resetAnimation (s : AnimatorV1) : AnimatorV1 :=
  let s := pauseAnimation s in
  let s := set_currentFrame 0 s in
  let w := width (canvas s) in
  let h := height (canvas s) in
  match blankImage s with
  | None => set_canvas (cleared w h) s
  | Some img =>
      let s := set_canvas (clearAndDraw w h img) s in
      let s := set_progress 0 s in
      let s := set_controls (Scheduler.setResetDisabled false
                               (Scheduler.setPlayDisabled false (controls s))) s in
      set_status (V1Reset, Scheduler.Info) s
  end.

(** The slider of v1: only the content delay. *)
Definition onSpeedInput (speed : Z) (s : AnimatorV1) : AnimatorV1 :=
  set_animationSpeed (Scheduler.speedToDelay speed) s.

(** A pending callback with handle [id] runs [animateFrame()]. *)
Definition fireTimer (id : nat) (s : AnimatorV1) : option AnimatorV1 :=
  match List.find (fun t => Nat.eqb t.1 id) (timers s) with
  | Some _ => Some (animateFrame (set_timers (Scheduler.clearTimeout id (timers s)) s))
  | None => None
  end.

(** [setupCanvas()]. *)
Definition setupCanvas (s : AnimatorV1) : AnimatorV1 :=
  match blankImage s, answerImage s with
  | Some b, Some a =>
      set_canvas (clearAndDraw (Z.max (width b) (width a)) (Z.max (height b) (height a)) b) s
  | _, _ => s
  end.

(** [checkImagesReady()]. *)
Definition checkImagesReady (s : AnimatorV1) : AnimatorV1 :=
  match blankImage s, answerImage s with
  | Some _, Some _ =>
      let s := set_controls (Scheduler.setProcessDisabled false (controls s)) s in
      let s := set_status (V1Ready, Scheduler.Success) s in
      setupCanvas s
  | _, _ => s
  end.

(** [loadImage(file, type)]'s [onload]. *)
Definition loadImage (file : option ImageData) (type : App.ImageKind) (s : AnimatorV1) : AnimatorV1 :=
  match file with
  | None => s
  | Some img =>
      let s := match type with
               | App.Blank => set_status (V1BlankLoaded, Scheduler.Info) (set_blankImage (Some img) s)
               | App.Answer => set_status (V1AnswerLoaded, Scheduler.Info) (set_answerImage (Some img) s)
               end in
      checkImagesReady s
  end.

(** [calculateDifferences(blankData, answerData)] of v1 (lines 142-170),
    line for line the scan of src/script.js: [Differ.scan] over the two
    buffers from pixel 0, with [this.canvas.width]. *)
Definition calculateDifferencesV1 (width : Z) (blankData answerData : ImageData) : list Pixel :=
  scan width 0 (data blankData) (data answerData).

Section Processing.

Context `{ArraySort}.

(** [processImages()] of v1: no check of the result; a missing image
    makes [drawImage] throw, which the [catch] reports. *)
Definition processImages (s : AnimatorV1) : AnimatorV1 :=
  let s := set_status (V1Processing, Scheduler.Info) s in
  let s := set_controls (Scheduler.setProcessDisabled true (controls s)) s in
  match blankImage s, answerImage s with
  | Some b, Some a =>
      let w := width (canvas s) in
      let h := height (canvas s) in
      let s := set_differenceData (calculateDifferencesV1 w (clearAndDraw w h b) (clearAndDraw w h a)) s in
      let s := set_animationFrames [] s in
      let '(sorted, frames) := generateAnimationFramesV1 (differenceData s) in
      let s := set_differenceData sorted s in
      let s := set_animationFrames frames s in
      let s := set_controls (Scheduler.setPlayDisabled false (controls s)) s in
      let s := set_controls (Scheduler.setResetDisabled false (controls s)) s in
      set_status (V1Processed, Scheduler.Success) s
  | _, _ =>
      let s := set_status (V1ProcessFailed, Scheduler.Info) s in
      set_controls (Scheduler.setProcessDisabled false (controls s)) s
  end.

(** The v1 page's reaction to one event. *)
Definition handleV1 (e : App.Event) (s : AnimatorV1) : option AnimatorV1 :=
  match e with
  | App.LoadImage type file => Some (loadImage file type s)
  | App.ClickProcess =>
      if Scheduler.processDisabled (controls s) then None else Some (processImages s)
  | App.Playback e =>
      match e with
      | Scheduler.ClickPlay =>
          if Scheduler.playDisabled (controls s) then None else Some (startAnimation s)
      | Scheduler.ClickPause =>
          if Scheduler.pauseDisabled (controls s) then None else Some (pauseAnimation s)
      | Scheduler.ClickReset =>
          if Scheduler.resetDisabled (controls s) then None else Some (resetAnimation s)
      | Scheduler.SpeedInput speed =>
          if (0 <=? speed) && (speed <=? 10) then Some (onSpeedInput speed s) else None
      | Scheduler.TimerFires id => fireTimer id s
      end
  end.

(** A sequence of events, stopping at one that cannot happen. *)
Fixpoint runV1 (es : list App.Event) (s : AnimatorV1) : option AnimatorV1 :=
  match es with
  | [] => Some s
  | e :: es => s' ← handleV1 e s; runV1 es s'
  end.

End Processing.

(** Let the first pending callback fire, [n] times. *)
Fixpoint runTicks (n : nat) (s : AnimatorV1) : AnimatorV1 :=
  match n with
  | O => s
  | S n' =>
      match timers s with
      | (id, _) :: _ => match fireTimer id s with Some s' => runTicks n' s' | None => s end
      | [] => s
      end
  end.

(** A page ready to play the frames [fs] from the start. *)
Definition ready (fs : list (list Pixel)) (s : AnimatorV1) : Prop :=
  animationFrames s = fs /\ fs <> [] /\ currentFrame s = 0%nat /\ timers s = [].

(** Playback of the frames of [s0] after [k] frames. *)
Definition running (s0 : AnimatorV1) (k : nat) (t : AnimatorV1) : Prop :=
  animationFrames t = animationFrames s0 /\ currentFrame t = k /\ isAnimating t = true /\
  (exists id d, timers t = [(id, d)]) /\
  canvas t = fold_left putImageData1 (concat (take k (animationFrames s0))) (canvas s0).

(** ** Lemmas *)

(** A tick of a running animation before the end. *)
Lemma animateFrameV1_draw s :
  isAnimating s = true -> (currentFrame s < length (animationFrames s))%nat ->
  canvas (animateFrame s) =
    fold_left putImageData1 (nth (currentFrame s) (animationFrames s) []) (canvas s) /\
  currentFrame (animateFrame s) = S (currentFrame s) /\ isAnimating (animateFrame s) = true /\
  animationFrames (animateFrame s) = animationFrames s /\
  timers (animateFrame s) = timers s ++ [(nextTimerId s, animationSpeed s)].
Proof.
  intros Ha Hlt. unfold animateFrame. rewrite Ha. simpl.
  replace (length (animationFrames s) <=? currentFrame s)%nat with false
    by (symmetry; apply Nat.leb_gt; lia).
  repeat split. exact Ha.
Qed.

(** A tick at or past the end completes; the canvas stays. *)
Lemma animateFrameV1_done s :
  (length (animationFrames s) <= currentFrame s)%nat ->
  canvas (animateFrame s) = canvas s /\ isAnimating (animateFrame s) = false /\
  timers (animateFrame s) = timers s /\ progress (animateFrame s) = 100%Q /\
  currentFrame (animateFrame s) = currentFrame s.
Proof.
  intros Hle. unfold animateFrame. apply Nat.leb_le in Hle. rewrite Hle, orb_true_r.
  repeat split.
Qed.

Lemma runTicksV1_S_single n t id d :
  timers t = [(id, d)] -> runTicks (S n) t = runTicks n (animateFrame (set_timers [] t)).
Proof.
  intros Ht. simpl. rewrite Ht. unfold fireTimer. rewrite Ht. simpl.
  rewrite Nat.eqb_refl. simpl. by rewrite ?Nat.eqb_refl.
Qed.

Lemma runTicksV1_add n m t : runTicks (n + m) t = runTicks m (runTicks n t).
Proof.
  revert t. induction n as [|n IH]; intros t; [done|]. simpl.
  destruct (timers t) as [|[id d] tl] eqn:Ht.
  - destruct m; simpl; [done|]. by rewrite Ht.
  - destruct (fireTimer id t) eqn:Hf; [apply IH|].
    destruct m; simpl; [done|]. by rewrite Ht, Hf.
Qed.

Lemma fold_take_S ls k c x :
  ls !! k = Some x ->
  fold_left putImageData1 (concat (take (S k) ls)) c =
  fold_left putImageData1 x (fold_left putImageData1 (concat (take k ls)) c).
Proof. intros Hk. by rewrite (take_S_r _ _ _ Hk), concat_app, fold_left_app, concat_cons, app_nil_r. Qed.

Lemma startV1_running fs s0 : ready fs s0 -> running s0 1 (startAnimation s0).
Proof.
  intros (Hfr & Hne & Hcf & Ht). destruct fs as [|f fs']; [done|].
  unfold startAnimation. rewrite Hfr.
  set (u := set_controls _ (set_isAnimating true s0)).
  assert (isAnimating u = true) as Ha by reflexivity.
  assert (currentFrame u < length (animationFrames u))%nat as Hl
    by (simpl; rewrite Hfr, Hcf; simpl; lia).
  destruct (animateFrameV1_draw u Ha Hl) as (Hc & Hcf' & Ha' & Hfr' & Ht').
  simpl in *. rewrite Hcf in Hcf'. repeat split; auto.
  - rewrite Ht', Ht. eauto.
  - rewrite Hc, Hfr, Hcf. simpl. by rewrite app_nil_r.
Qed.

Lemma tickV1_running s0 k t :
  running s0 k t -> (k < length (animationFrames s0))%nat -> running s0 (S k) (runTicks 1 t).
Proof.
  intros (Hfr & Hcf & Ha & (id & d & Ht) & Hcv) Hk.
  rewrite (runTicksV1_S_single 0 t id d Ht). simpl.
  assert (currentFrame (set_timers [] t) < length (animationFrames (set_timers [] t)))%nat
    as Hl by (simpl; rewrite Hfr, Hcf; lia).
  destruct (animateFrameV1_draw (set_timers [] t) Ha Hl) as (Hc & Hcf' & Ha' & Hfr' & Ht').
  simpl in *. repeat split; auto.
  - by rewrite Hfr', Hfr.
  - by rewrite Hcf', Hcf.
  - rewrite Ht'. eauto.
  - destruct (lookup_lt_is_Some_2 (animationFrames s0) k Hk) as [x Hx].
    rewrite Hc, Hcv, (fold_take_S _ _ _ _ Hx), Hfr, Hcf. f_equal. by apply nth_lookup_Some.
Qed.

Lemma runTicksV1_running s0 n k t :
  running s0 k t -> (k + n <= length (animationFrames s0))%nat ->
  running s0 (k + n) (runTicks n t).
Proof.
  revert k t. induction n as [|n IH]; intros k t Hr Hk; [by rewrite Nat.add_0_r|].
  replace (k + S n)%nat with (S k + n)%nat by lia.
  change (S n) with (1 + n)%nat. rewrite runTicksV1_add.
  apply IH; [apply tickV1_running|]; auto with lia.
Qed.

(** Play and one tick per frame: every frame written, then stopped. *)
Lemma play_all fs s0 :
  ready fs s0 ->
  isAnimating (runTicks (length fs) (startAnimation s0)) = false /\
  timers (runTicks (length fs) (startAnimation s0)) = [] /\
  progress (runTicks (length fs) (startAnimation s0)) = 100%Q /\
  canvas (runTicks (length fs) (startAnimation s0)) =
    fold_left putImageData1 (concat fs) (canvas s0).
Proof.
  intros Hr. pose proof Hr as (Hfr & Hne & _). subst fs.
  set (n := length (animationFrames s0)).
  assert (n = (n - 1) + 1)%nat as E by (unfold n; destruct (animationFrames s0); [done | simpl; lia]).
  pose proof (runTicksV1_running s0 (n - 1) 1 _ (startV1_running _ s0 Hr)) as Hrun.
  replace (1 + (n - 1))%nat with n in Hrun by lia. specialize (Hrun ltac:(unfold n in *; lia)).
  destruct Hrun as (Hfr & Hcf & _ & (id & d & Ht) & Hcv).
  rewrite E, runTicksV1_add, (runTicksV1_S_single 0 _ id d Ht). simpl.
  assert (length (animationFrames (set_timers [] (runTicks (n - 1) (startAnimation s0)))) <=
          currentFrame (set_timers [] (runTicks (n - 1) (startAnimation s0))))%nat as Hl
    by (simpl; rewrite Hfr, Hcf; lia).
  destruct (animateFrameV1_done _ Hl) as (Hc & Ha & Ht' & Hp & _).
  rewrite Hc, Ha, Ht', Hp. simpl. rewrite Hcv. unfold n. by rewrite firstn_all.
Qed.

(** Reduce projections of the v1 setters. *)
Ltac v1_simpl :=
  cbn [canvas blankImage answerImage differenceData animationFrames currentFrame isAnimating
       animationSpeed animationTimer timers nextTimerId progress controls status
       set_canvas set_blankImage set_answerImage set_differenceData set_animationFrames
       set_currentFrame set_isAnimating set_animationSpeed set_animationTimer set_timers
       set_nextTimerId set_progress set_controls set_status
       Scheduler.processDisabled Scheduler.playDisabled Scheduler.pauseDisabled
       Scheduler.resetDisabled Scheduler.setProcessDisabled Scheduler.setPlayDisabled
       Scheduler.setPauseDisabled Scheduler.setResetDisabled] in *.

(** The page once the blank image, then the answer image, have loaded. *)
Definition loadBothV1 (cv b a : ImageData) : AnimatorV1 :=
  loadImage (Some a) App.Answer (loadImage (Some b) App.Blank (initialPageV1 cv)).

Lemma loadBothV1_page cv b a :
  Scheduler.processDisabled (controls (loadBothV1 cv b a)) = false /\
  canvas (loadBothV1 cv b a) =
    clearAndDraw (Z.max (width b) (width a)) (Z.max (height b) (height a)) b /\
  blankImage (loadBothV1 cv b a) = Some b /\ answerImage (loadBothV1 cv b a) = Some a /\
  currentFrame (loadBothV1 cv b a) = 0%nat /\ timers (loadBothV1 cv b a) = [].
Proof. repeat split. Qed.

Section Session.

Context `{ArraySort}.

(** What v1 processing does with both images loaded. *)
Lemma processImages_loaded s b a :
  blankImage s = Some b -> answerImage s = Some a ->
  differenceData (processImages s) =
    (generateAnimationFramesV1 (calculateDifferencesV1 (width (canvas s))
       (clearAndDraw (width (canvas s)) (height (canvas s)) b)
       (clearAndDraw (width (canvas s)) (height (canvas s)) a))).1 /\
  animationFrames (processImages s) =
    (generateAnimationFramesV1 (calculateDifferencesV1 (width (canvas s))
       (clearAndDraw (width (canvas s)) (height (canvas s)) b)
       (clearAndDraw (width (canvas s)) (height (canvas s)) a))).2 /\
  canvas (processImages s) = canvas s /\ currentFrame (processImages s) = currentFrame s /\
  timers (processImages s) = timers s /\
  Scheduler.playDisabled (controls (processImages s)) = false /\
  Scheduler.resetDisabled (controls (processImages s)) = false /\
  status (processImages s) = (V1Processed, Scheduler.Success).
Proof.
  intros Hb Ha. unfold processImages. v1_simpl. rewrite Hb, Ha. v1_simpl.
  destruct (generateAnimationFramesV1 _) as [sorted frames]. v1_simpl. auto 10.
Qed.

Lemma runV1_cons e es s s' : handleV1 e s = Some s' -> runV1 (e :: es) s = runV1 es s'.
Proof. intros He. cbn [runV1]. by rewrite He. Qed.

Lemma runV1_loadBoth cv b a :
  runV1 [App.LoadImage App.Blank (Some b); App.LoadImage App.Answer (Some a); App.ClickProcess]
    (initialPageV1 cv) = Some (processImages (loadBothV1 cv b a)).
Proof.
  rewrite (runV1_cons (App.LoadImage App.Blank (Some b)) _ _
             (loadImage (Some b) App.Blank (initialPageV1 cv)) eq_refl).
  rewrite (runV1_cons (App.LoadImage App.Answer (Some a)) _ _ (loadBothV1 cv b a) eq_refl).
  rewrite (runV1_cons App.ClickProcess [] _ (processImages (loadBothV1 cv b a))); [done|].
  unfold handleV1. by rewrite (proj1 (loadBothV1_page cv b a)).
Qed.

(** C38: the v1 session: once both images have loaded and processing
    has cut the differences into a non-empty plan, play is enabled, and
    play followed by one tick per frame stops at 100% with the canvas
    showing the blank page with every difference record written in the
    sorted order: v1 never repaints the answer image. *)
Theorem sessionV1_reveals_differences cv b a s :
  runV1 [App.LoadImage App.Blank (Some b); App.LoadImage App.Answer (Some a); App.ClickProcess]
    (initialPageV1 cv) = Some s ->
  animationFrames s <> [] ->
  Scheduler.playDisabled (controls s) = false /\
  differenceData s =
    (generateAnimationFramesV1
       (calculateDifferencesV1 (Z.max (width b) (width a))
          (clearAndDraw (Z.max (width b) (width a)) (Z.max (height b) (height a)) b)
          (clearAndDraw (Z.max (width b) (width a)) (Z.max (height b) (height a)) a))).1 /\
  isAnimating (runTicks (length (animationFrames s)) (startAnimation s)) = false /\
  progress (runTicks (length (animationFrames s)) (startAnimation s)) = 100%Q /\
  canvas (runTicks (length (animationFrames s)) (startAnimation s)) =
    fold_left putImageData1 (differenceData s)
      (clearAndDraw (Z.max (width b) (width a)) (Z.max (height b) (height a)) b).
Proof.
  rewrite runV1_loadBoth. intros [= <-] Hne.
  destruct (loadBothV1_page cv b a) as (_ & Hcv & Hb & Ha & Hcf & Ht).
  destruct (processImages_loaded _ b a Hb Ha) as (Hd & Hfr & Hcv' & Hcf' & Ht' & Hp & _ & _).
  rewrite Hcv in Hd, Hfr.
  change (width (clearAndDraw (Z.max (width b) (width a)) (Z.max (height b) (height a)) b))
    with (Z.max (width b) (width a)) in Hd, Hfr.
  change (height (clearAndDraw (Z.max (width b) (width a)) (Z.max (height b) (height a)) b))
    with (Z.max (height b) (height a)) in Hd, Hfr.
  assert (ready (animationFrames (processImages (loadBothV1 cv b a)))
                (processImages (loadBothV1 cv b a))) as Hr by (repeat split; congruence).
  destruct (play_all _ _ Hr) as (Ha' & _ & Hpr & Hc).
  split; [done|]. split; [done|]. split; [done|]. split; [done|].
  rewrite Hc, Hcv', Hcv, Hd, Hfr. by rewrite (proj1 (generateV1_frames _)).
Qed.

(** C16: v1 has no "no difference" check.  Loading one image as both
    the blank and the answer page and processing reports success
    ("processing done, ready to play", [success] class) with no
    difference, no frame, and play and reset enabled; a click on play
    then changes nothing, and the button stays enabled.  src/script.js
    reports "no difference" and keeps playback disabled. *)
Theorem sessionV1_identical cv b :
  exists s,
    runV1 [App.LoadImage App.Blank (Some b); App.LoadImage App.Answer (Some b); App.ClickProcess]
      (initialPageV1 cv) = Some s /\
    differenceData s = [] /\ animationFrames s = [] /\
    Scheduler.playDisabled (controls s) = false /\ Scheduler.resetDisabled (controls s) = false /\
    status s = (V1Processed, Scheduler.Success) /\
    handleV1 (App.Playback Scheduler.ClickPlay) s = Some s.
Proof.
  exists (processImages (loadBothV1 cv b b)). rewrite runV1_loadBoth. split; [done|].
  destruct (loadBothV1_page cv b b) as (_ & _ & Hb & Ha & _).
  destruct (processImages_loaded _ b b Hb Ha) as (Hd & Hf & _ & _ & _ & Hp & Hr & Hs).
  unfold calculateDifferencesV1 in Hd, Hf. rewrite scan_same, generateAnimationFramesV1_nil in Hd, Hf.
  refine (conj Hd (conj Hf (conj Hp (conj Hr (conj Hs _))))).
  unfold handleV1. rewrite Hp. unfold startAnimation. by rewrite Hf.
Qed.

End Session.

(** C39: at the end of v1 playback of frames with distinct keys, every
    pixel of the frames on the canvas shows its record's colour and every
    other pixel keeps its bytes from before play. *)
Theorem playbackV1_colors fs s :
  ready fs s -> wf_image (canvas s) -> NoDup (map key (concat fs)) ->
  (forall p, p ∈ concat fs -> onCanvas (canvas s) (px p) (py p) = true ->
     rgbaAt (canvas (runTicks (length fs) (startAnimation s))) (px p) (py p) = color p) /\
  (forall x y, onCanvas (canvas s) x y = true -> (x, y) ∉ map key (concat fs) ->
     rgbaAt (canvas (runTicks (length fs) (startAnimation s))) x y = rgbaAt (canvas s) x y).
Proof.
  intros Hr Hwf Hnd. destruct (play_all _ _ Hr) as (_ & _ & _ & ->). split.
  - intros p Hin Hon. by apply fold_put_color.
  - intros x y Hon Hnot. by apply fold_put_other.
Qed.

(** ** A concrete session: one 3x3 block. *)

Definition sampleV1 : AnimatorV1 := processImages (loadBothV1 App.canvas0 App.paper App.oneBlock).

Lemma sessionV1_reveals_differences_witness :
  runV1 [App.LoadImage App.Blank (Some App.paper); App.LoadImage App.Answer (Some App.oneBlock);
         App.ClickProcess] (initialPageV1 App.canvas0) = Some sampleV1 /\
  animationFrames sampleV1 <> [] /\
  isAnimating (runTicks (length (animationFrames sampleV1)) (startAnimation sampleV1)) = false.
Proof.
  assert (runV1 [App.LoadImage App.Blank (Some App.paper); App.LoadImage App.Answer (Some App.oneBlock);
         App.ClickProcess] (initialPageV1 App.canvas0) = Some sampleV1) as Hr
    by (vm_compute; reflexivity).
  assert (animationFrames sampleV1 <> []) as Hn by (vm_compute; discriminate).
  split; [exact Hr|]. split; [exact Hn|].
  exact (proj1 (proj2 (proj2 (sessionV1_reveals_differences _ _ _ _ Hr Hn)))).
Defined.

Lemma playbackV1_colors_witness :
  ready (animationFrames sampleV1) sampleV1 /\ wf_image (canvas sampleV1) /\
  NoDup (map key (concat (animationFrames sampleV1))) /\
  rgbaAt (canvas (runTicks (length (animationFrames sampleV1)) (startAnimation sampleV1))) 4 4 =
    (0, 0, 0, 255).
Proof.
  assert (ready (animationFrames sampleV1) sampleV1) as Hr.
  { split; [done|]. split; [vm_compute; discriminate|]. split; vm_compute; reflexivity. }
  assert (wf_image (canvas sampleV1)) as Hwf by (vm_compute; repeat split; discriminate).
  assert (NoDup (map key (concat (animationFrames sampleV1)))) as Hnd.
  { apply (bool_decide_unpack (NoDup (map key (concat (animationFrames sampleV1))))).
    vm_compute. exact I. }
  split; [exact Hr|]. split; [exact Hwf|]. split; [exact Hnd|].
  apply (proj1 (playbackV1_colors _ _ Hr Hwf Hnd) (mkPixel 4 4 0 0 0 255)); vm_compute;
    [|reflexivity].
  repeat (first [left | right]).
Defined.

End AppV1.
